(** * NAG Python example notebooks: the glue code around the library calls

    The repository holds three Jupyter notebooks:

    - the NMF notebook (classification of web pages by non-negative matrix
      factorization): fetch pages, tokenize, filter the word list, build the
      words x documents count matrix, write [wordcounts.txt], call
      [real_nmf], list the top words and assign categories;
    - the SOCP notebook: build a problem handle and call
      [handle_solve_socp_ipm];
    - the implied-volatility notebook: a root-finder loop around
      [contfn_cntin] with the [black_scholes] callback, then three calls of
      [opt_imp_vol].

    Python values are modelled as follows.  A [str] is the list of its code
    points ([list N]); a [float] (and a numpy [float64]) is a primitive
    binary64 float; a Python [int] is a [Z]; a [set] is a [gset], a [dict]
    or [Counter] a [gmap]; exceptions are an explicit [Raise] result. *)

From Stdlib Require Import Floats ZArith NArith Ascii String DecimalString.
From stdpp Require Import gmap strings list sorting.

Set Default Proof Using "Type".
(* Decimal literals of the source denote the nearest double, as in Python. *)
Set Warnings "-inexact-float".
Local Open Scope Z_scope.

(** ** Python builtins used by the notebooks *)
Module Py.

(** A [str] is a sequence of Unicode code points. *)
Abbreviation pystr := (list N) (only parsing).

(** An ASCII literal of the source, as a [str]. *)
Definition ustr (s : string) : pystr :=
  (fun a => N_of_ascii a) <$> list_ascii_of_string s.

Definition space : N := 32%N.
Definition newline : N := 10%N.

(** [string.punctuation]: the 32 ASCII punctuation characters, in the order
    of the standard library constant (code point 34 is the double quote). *)
Definition punctuation : pystr :=
  ustr "!" ++ [34%N] ++ ustr "#$%&'()*+,-./:;<=>?@[\]^_`{|}~".

(** [str.isspace] on one character: the Unicode white space of CPython. *)
Definition isspace (c : N) : bool :=
  ((9 <=? c) && (c <=? 13) || (28 <=? c) && (c <=? 32)
   || (c =? 133) || (c =? 160) || (c =? 5760)
   || (8192 <=? c) && (c <=? 8202)
   || (c =? 8232) || (c =? 8233) || (c =? 8239) || (c =? 8287)
   || (c =? 12288))%N.

(** [s * n] on strings of one character. *)
Definition times (c : N) (n : nat) : pystr := replicate n c.

(** [str.maketrans(x, y)]: the table sending [x[i]] to [y[i]]; a later
    pair overrides an earlier one, as in a dict built in order. *)
Definition maketrans (x y : pystr) : gmap N N :=
  foldl (fun t p => <[p.1 := p.2]> t) ∅ (zip x y).

(** [s.translate(table)] for a table of character replacements: characters
    absent from the table are kept. *)
Definition translate (t : gmap N N) (s : pystr) : pystr :=
  (fun c => default c (t !! c)) <$> s.

(** [s.split()]: maximal runs of non-space characters, in order.  [cur] is
    the run being read, most recent character first. *)
Fixpoint split_from (cur : pystr) (s : pystr) : list pystr :=
  match s with
  | [] => match cur with [] => [] | _ => [reverse cur] end
  | c :: s' =>
      if isspace c
      then match cur with
           | [] => split_from [] s'
           | _ => reverse cur :: split_from [] s'
           end
      else split_from (c :: cur) s'
  end.

Definition split (s : pystr) : list pystr := split_from [] s.

(** [s.startswith(p)]. *)
Fixpoint startswith (s p : pystr) {struct p} : bool :=
  match p, s with
  | [], _ => true
  | _ :: _, [] => false
  | a :: p', b :: s' => (a =? b)%N && startswith s' p'
  end.

(** [s.ljust(width, ' ')]. *)
Definition ljust (s : pystr) (width : nat) : pystr :=
  s ++ replicate (width - length s) space.

(** [s.center(width, ' ')]: CPython puts [marg/2 + (marg & width & 1)]
    fill characters on the left and the rest on the right. *)
Definition center (s : pystr) (width : nat) : pystr :=
  let marg := (width - length s)%nat in
  let left := (marg / 2 + (if Nat.odd marg && Nat.odd width then 1 else 0))%nat in
  replicate left space ++ s ++ replicate (marg - left) space.

(** [str(z)] for an int: its decimal digits, with a leading minus sign. *)
Definition str_of_int (z : Z) : pystr :=
  ustr (NilZero.string_of_int (Z.to_int z)).

(** [re.findall] for a pattern [open(.*?)close] (no flags): [lazy_body]
    is the group at a position just after [open]: the shortest run of
    characters other than newline that is followed by [close]. *)
Fixpoint lazy_body (close : pystr) (t : pystr) : option pystr :=
  if startswith t close then Some []
  else match t with
       | [] => None
       | c :: t' =>
           if (c =? newline)%N then None
           else cons c <$> lazy_body close t'
       end.

(** The scan: [skip] characters still belong to the previous match. *)
Fixpoint findall_from (opn close : pystr) (skip : nat) (s : pystr) : list pystr :=
  match s with
  | [] => []
  | _ :: s' =>
      match skip with
      | S k => findall_from opn close k s'
      | O =>
          if startswith s opn then
            match lazy_body close (drop (length opn) s) with
            | Some body =>
                body :: findall_from opn close
                          (length opn + length body + length close - 1) s'
            | None => findall_from opn close 0 s'
            end
          else findall_from opn close 0 s'
      end
  end.

Definition findall (opn close : pystr) (s : pystr) : list pystr :=
  findall_from opn close 0 s.

(** Exceptions: those raised by Python itself and those of an external
    library, which the notebooks never inspect. *)
Inductive exn : Type :=
| IndexError
| KeyError (k : string)
| ValueError
| NameError
| ExtError (code : N).

Inductive result (A : Type) : Type :=
| Ok (a : A)
| Raise (x : exn).
Arguments Ok {A} a.
Arguments Raise {A} x.

(** [l[i]] on a list or array. *)
Definition index {A} (l : list A) (i : nat) : result A :=
  match l !! i with Some a => Ok a | None => Raise IndexError end.

(** [Counter(l)]: each element counted, as [c[x] += 1] from left to right. *)
Definition Counter (l : list pystr) : gmap pystr Z :=
  foldl (fun c x => <[x := default 0 (c !! x) + 1]> c) ∅ l.

(** [d.get(k, 0)]. *)
Definition get0 (d : gmap pystr Z) (k : pystr) : Z := default 0 (d !! k).

(** What a cell shows: the arguments of [print] and the value of a cell's
    last expression.  [PFormat fmt v] is [fmt.format(v)], [PMostCommon c n]
    is [c.most_common(n)] and [PObject] an object of an external library. *)
Inductive pyval : Type :=
| PStr (s : pystr)
| PStrs (l : list pystr)
| PInt (z : Z)
| PFloat (x : float)
| PFloats (l : list float)
| PShape (dims : list nat)
| PCounts (c : list (list Z))
| PMostCommon (c : gmap pystr Z) (n : nat)
| PObject (d : N)
| PFormat (fmt : string) (arg : pyval).

End Py.
Import Py.

(** ** Scripts: notebook cells as programs over external calls

    A cell reads and writes the notebook's variables (a state [S]), calls
    external library functions (events [E], each answered by a value or by an
    exception) and may raise.  [prog] is the tree of external calls of a
    cell; [M] adds the variables and Python's exceptions. *)
Module Script.
Section prog.
Context {E : Type -> Type}.

Inductive prog (A : Type) : Type :=
| Ret (a : A)
| Vis {X : Type} (e : E X) (k : result X -> prog A).
Global Arguments Ret {A} a.
Global Arguments Vis {A X} e k.

Fixpoint pbind {A B} (p : prog A) (f : A -> prog B) : prog B :=
  match p with
  | Ret a => f a
  | Vis e k => Vis e (fun r => pbind (k r) f)
  end.

(** One external call of a run, with the answer it got. *)
Record event : Type :=
  Event { ev_type : Type; ev_call : E ev_type; ev_result : result ev_type }.

(** The outside world: it answers each call and may change by it. *)
Definition handler (W : Type) : Type := forall X, E X -> W -> result X * W.

Fixpoint run {W A} (h : handler W) (p : prog A) (w : W) : A * list event * W :=
  match p with
  | Ret a => (a, [], w)
  | Vis e k =>
      let '(r, w1) := h _ e w in
      let '(a, tr, w2) := run h (k r) w1 in
      (a, Event _ e r :: tr, w2)
  end.

Section state.
Context {S : Type}.

Definition M (A : Type) : Type := S -> prog (result A * S).

Definition ret {A} (a : A) : M A := fun s => Ret (Ok a, s).
Definition raise {A} (x : exn) : M A := fun s => Ret (Raise x, s).

Definition bind {A B} (m : M A) (f : A -> M B) : M B :=
  fun s => pbind (m s) (fun rs =>
    match rs.1 with
    | Ok a => f a rs.2
    | Raise x => Ret (Raise x, rs.2)
    end).

(** A value or exception computed by Python itself. *)
Definition lift {A} (r : result A) : M A := fun s => Ret (r, s).

(** An external call: its exception, if any, is raised at the call. *)
Definition call {X} (e : E X) : M X := fun s => Vis e (fun r => Ret (r, s)).

Definition get : M S := fun s => Ret (Ok s, s).
Definition modify (f : S -> S) : M unit := fun s => Ret (Ok tt, f s).

(** [try: body except: handler] with a bare [except]. *)
Definition try_except {A} (body : M A) (hdl : M A) : M A :=
  fun s => pbind (body s) (fun rs =>
    match rs.1 with
    | Ok a => Ret (Ok a, rs.2)
    | Raise _ => hdl rs.2
    end).

(** [for x in l: body x]. *)
Fixpoint for_each {A} (l : list A) (body : A -> M unit) : M unit :=
  match l with
  | [] => ret tt
  | x :: l' => bind (body x) (fun _ => for_each l' body)
  end.
End state.
End prog.
Arguments prog : clear implicits.
Arguments event : clear implicits.
Arguments handler : clear implicits.
Arguments M : clear implicits.

Notation "x <- m ;; f" := (bind m (fun x => f))
  (at level 100, m at next level, right associativity).
Notation "m ;;; f" := (bind m (fun _ => f))
  (at level 100, right associativity).

(** The calls of a run that raised. *)
Definition raised {E} (c : event E) : option exn :=
  match ev_result c with Ok _ => None | Raise x => Some x end.

End Script.
Import Script.

(** ** The NMF notebook *)
Module Nmf.

Definition matrix : Type := list (list float).

(** A numpy array handed to a numerical routine: the data matrix, a
    [float64] array all of whose entries are integers (given here by these
    integers, which [float64] holds exactly below 2^53), or a matrix of
    floats. *)
Inductive array : Type :=
| Counts (c : list (list Z))
| Floats (x : matrix).

(** Objects of external libraries, known to the notebook by reference. *)
Definition response : Type := N.
Definition dataframe : Type := N.

(** The external calls of the notebook.  [ReadText f] stands for
    [with open(f) as g: g.read()] and [ReadLines f] for the same with
    [readlines()]; [OpenW] and [CloseW] are [open(f, 'w')] and [close()]. *)
Inductive ext : Type -> Type :=
| ReadText (fname : pystr) : ext pystr
| ReadLines (fname : pystr) : ext (list pystr)
| OpenW (fname : pystr) : ext unit
| CloseW : ext unit
| Urlopen (link : pystr) : ext response
| HttpRead (r : response) : ext (list N)
| RealNmf (arr : list (list Z)) (rank : Z) (sd : Z) (tol : float) (its : Z)
    : ext (matrix * matrix)
| Matmul (x y : array) : ext matrix
| Sub (x y : array) : ext matrix
| Norm (x : array) : ext float
| DataFrame (x : matrix) (columns : list pystr) : ext dataframe
| SetOption (name : pystr) (v : Z) : ext unit.

(** The notebook's variables.  [words] is a set until cell 14 and a list
    from then on: [words_set] and [words].  [f2] is the text written through
    the file object of cell 27, one entry per [print].  Loop variables and
    temporaries ([link], [f1], [paras], [pagewords], [title], [c], [freqs],
    [st], [tmp], [category], [m], [n], [errtol], [maxit], [seed]) are local
    bindings of the cells. *)
Record env : Type := Env {
  links : list pystr;
  n_links : nat;
  dicts : list (gmap pystr Z);
  titles : list (list pystr);
  words_set : gset pystr;
  words : list pystr;
  masterdict : list (pystr * list Z);
  a : list (list Z);
  f2 : list pystr;
  k : nat;
  w : matrix;
  h : matrix;
  resnorm : float;
  display_h : option dataframe;
  stdout : list pyval
}.

Definition env0 : env :=
  {| links := []; n_links := 0; dicts := []; titles := []; words_set := ∅;
     words := []; masterdict := []; a := []; f2 := []; k := 0; w := [];
     h := []; resnorm := 0%float; display_h := None; stdout := [] |}.

Definition set_links (v : list pystr) (e : env) : env :=
  {| links := v; n_links := n_links e; dicts := dicts e; titles := titles e;
     words_set := words_set e; words := words e; masterdict := masterdict e;
     a := a e; f2 := f2 e; k := k e; w := w e; h := h e;
     resnorm := resnorm e; display_h := display_h e; stdout := stdout e |}.

Definition set_n_links (v : nat) (e : env) : env :=
  {| links := links e; n_links := v; dicts := dicts e; titles := titles e;
     words_set := words_set e; words := words e; masterdict := masterdict e;
     a := a e; f2 := f2 e; k := k e; w := w e; h := h e;
     resnorm := resnorm e; display_h := display_h e; stdout := stdout e |}.

Definition set_dicts (v : list (gmap pystr Z)) (e : env) : env :=
  {| links := links e; n_links := n_links e; dicts := v; titles := titles e;
     words_set := words_set e; words := words e; masterdict := masterdict e;
     a := a e; f2 := f2 e; k := k e; w := w e; h := h e;
     resnorm := resnorm e; display_h := display_h e; stdout := stdout e |}.

Definition set_titles (v : list (list pystr)) (e : env) : env :=
  {| links := links e; n_links := n_links e; dicts := dicts e; titles := v;
     words_set := words_set e; words := words e; masterdict := masterdict e;
     a := a e; f2 := f2 e; k := k e; w := w e; h := h e;
     resnorm := resnorm e; display_h := display_h e; stdout := stdout e |}.

Definition set_words_set (v : gset pystr) (e : env) : env :=
  {| links := links e; n_links := n_links e; dicts := dicts e;
     titles := titles e; words_set := v; words := words e;
     masterdict := masterdict e; a := a e; f2 := f2 e; k := k e; w := w e;
     h := h e; resnorm := resnorm e; display_h := display_h e;
     stdout := stdout e |}.

Definition set_words (v : list pystr) (e : env) : env :=
  {| links := links e; n_links := n_links e; dicts := dicts e;
     titles := titles e; words_set := words_set e; words := v;
     masterdict := masterdict e; a := a e; f2 := f2 e; k := k e; w := w e;
     h := h e; resnorm := resnorm e; display_h := display_h e;
     stdout := stdout e |}.

Definition set_masterdict (v : list (pystr * list Z)) (e : env) : env :=
  {| links := links e; n_links := n_links e; dicts := dicts e;
     titles := titles e; words_set := words_set e; words := words e;
     masterdict := v; a := a e; f2 := f2 e; k := k e; w := w e; h := h e;
     resnorm := resnorm e; display_h := display_h e; stdout := stdout e |}.

Definition set_a (v : list (list Z)) (e : env) : env :=
  {| links := links e; n_links := n_links e; dicts := dicts e;
     titles := titles e; words_set := words_set e; words := words e;
     masterdict := masterdict e; a := v; f2 := f2 e; k := k e; w := w e;
     h := h e; resnorm := resnorm e; display_h := display_h e;
     stdout := stdout e |}.

Definition set_f2 (v : list pystr) (e : env) : env :=
  {| links := links e; n_links := n_links e; dicts := dicts e;
     titles := titles e; words_set := words_set e; words := words e;
     masterdict := masterdict e; a := a e; f2 := v; k := k e; w := w e;
     h := h e; resnorm := resnorm e; display_h := display_h e;
     stdout := stdout e |}.

Definition set_k (v : nat) (e : env) : env :=
  {| links := links e; n_links := n_links e; dicts := dicts e;
     titles := titles e; words_set := words_set e; words := words e;
     masterdict := masterdict e; a := a e; f2 := f2 e; k := v; w := w e;
     h := h e; resnorm := resnorm e; display_h := display_h e;
     stdout := stdout e |}.

Definition set_w (v : matrix) (e : env) : env :=
  {| links := links e; n_links := n_links e; dicts := dicts e;
     titles := titles e; words_set := words_set e; words := words e;
     masterdict := masterdict e; a := a e; f2 := f2 e; k := k e; w := v;
     h := h e; resnorm := resnorm e; display_h := display_h e;
     stdout := stdout e |}.

Definition set_h (v : matrix) (e : env) : env :=
  {| links := links e; n_links := n_links e; dicts := dicts e;
     titles := titles e; words_set := words_set e; words := words e;
     masterdict := masterdict e; a := a e; f2 := f2 e; k := k e; w := w e;
     h := v; resnorm := resnorm e; display_h := display_h e;
     stdout := stdout e |}.

Definition set_resnorm (v : float) (e : env) : env :=
  {| links := links e; n_links := n_links e; dicts := dicts e;
     titles := titles e; words_set := words_set e; words := words e;
     masterdict := masterdict e; a := a e; f2 := f2 e; k := k e; w := w e;
     h := h e; resnorm := v; display_h := display_h e; stdout := stdout e |}.

Definition set_display_h (v : option dataframe) (e : env) : env :=
  {| links := links e; n_links := n_links e; dicts := dicts e;
     titles := titles e; words_set := words_set e; words := words e;
     masterdict := masterdict e; a := a e; f2 := f2 e; k := k e; w := w e;
     h := h e; resnorm := resnorm e; display_h := v; stdout := stdout e |}.

Definition set_stdout (v : list pyval) (e : env) : env :=
  {| links := links e; n_links := n_links e; dicts := dicts e;
     titles := titles e; words_set := words_set e; words := words e;
     masterdict := masterdict e; a := a e; f2 := f2 e; k := k e; w := w e;
     h := h e; resnorm := resnorm e; display_h := display_h e; stdout := v |}.

Abbreviation script := (M ext env).

Definition print (v : pyval) : script unit :=
  modify (fun e => set_stdout (stdout e ++ [v]) e).

(** [print(st, file=f2)]: the text and the line end. *)
Definition print_f2 (st : pystr) : script unit :=
  modify (fun e => set_f2 (f2 e ++ [st ++ [newline]]) e).

(** *** Cell 5: parsing the web pages *)

Definition urls_file : pystr := ustr "brexit_trump_urls.txt".

Definition trans : gmap N N :=
  maketrans punctuation (times space (length punctuation)).

(** [for para in paras: pagewords += para.translate(trans).split()] *)
Definition pagewords_of (paras : list pystr) : list pystr :=
  foldl (fun pagewords para => pagewords ++ split (translate trans para)) [] paras.

Section pages.
(** [bytes.decode()] (UTF-8, may raise) and [str.lower()] (Unicode case
    mapping) are builtins taken as given. *)
Variable decode : list N -> result pystr.
Variable lower : pystr -> pystr.

Definition page_paras (page : pystr) : list pystr :=
  findall (ustr "<p>") (ustr "</p>") (lower page).

Definition page_title (page : pystr) : list pystr :=
  findall (ustr "<title>") (ustr "</title>") page.

Definition parse_link (link : pystr) : script unit :=
  f1 <- call (Urlopen link);;
  b1 <- call (HttpRead f1);;
  s1 <- lift (decode b1);;
  let paras := page_paras s1 in
  f2 <- call (Urlopen link);;
  b2 <- call (HttpRead f2);;
  s2 <- lift (decode b2);;
  let title := page_title s2 in
  print (PStrs title);;;
  modify (fun e => set_titles (titles e ++ [title]) e);;;
  let pagewords := pagewords_of paras in
  let c := Counter pagewords in
  modify (fun e => set_dicts (dicts e ++ [c]) e);;;
  modify (fun e => set_words_set (words_set e ∪ dom c) e).

Definition cell_5 : script unit :=
  print (PStr (ustr "Reading urls"));;;
  ls <- call (ReadLines urls_file);;
  modify (set_links ls);;;
  modify (set_n_links (length ls));;;
  modify (set_dicts []);;;
  modify (set_titles []);;;
  modify (set_words_set ∅);;;
  print (PStr (ustr "Parsing webpages"));;;
  for_each ls parse_link.
End pages.

(** Cell 2 shows the URL file; cells 7 and 9 show [dicts[0].most_common(20)]
    and [len(words)]. *)
Definition cell_2 : script unit :=
  read_data <- call (ReadText urls_file);;
  print (PStr read_data).

Definition cell_7 : script unit :=
  e <- get;;
  d <- lift (index (dicts e) 0);;
  print (PMostCommon d 20).

Definition cell_9 : script unit :=
  e <- get;;
  print (PInt (Z.of_nat (size (words_set e)))).

(** *** Cells 12 to 20: cleaning up the word list *)

Definition stopwords : list pystr :=
  ustr <$>
  ["then"; "that"; "have"; "with"; "from"; "they"; "here"; "there"; "their";
   "would"; "what"; "which"; "about"; "know"; "just"; "time"; "like";
   "make"; "your"; "year"; "some"; "good"; "into"; "people"; "them";
   "other"; "than"; "look"; "only"; "over"; "think"; "also"; "back";
   "after"; "work"; "first"; "well"; "even"; "want"; "because"; "these";
   "most"; "leave"; "seem"; "come"; "little"; "last"; "long"; "great";
   "high"; "small"; "large"; "next"; "early"; "same"; "this"; "away";
   "down"; "look"; "make"; "three"; "came"; "four"; "please"; "pretty";
   "soon"; "under"; "went"; "white"; "black"; "give"; "giving"; "given";
   "gave"; "knowing"; "knew"; "once"; "round"; "stop"; "take"; "taken";
   "took"; "thank"; "thanks"; "walk"; "walked"; "always"; "around"; "been";
   "before"; "best"; "worst"; "find"; "found"; "goes"; "pull"; "read";
   "right"; "wrong"; "tell"; "telling"; "told"; "upon"; "wish"; "write";
   "written"; "better"; "carry"; "carried"; "full"; "hold"; "keep"; "kept";
   "longer"; "longest"; "shall"; "will"; "begin"; "beginning"; "together";
   "today"; "yesterday"; "children"; "ground"; "hold"; "holding";
   "morning"; "afternoon"; "never"; "myself"; "table"; "water"; "wind";
   "window"; "ring"; "rung"; "except"; "where"; "while"; "woman"; "whilst";
   "were"; "until"; "thing"; "things"; "theirs"; "monday"; "tuesday";
   "wednesday"; "thursday"; "friday"; "saturday"; "sunday"; "should";
   "shown"; "shut"; "another"; "being"; "does"; "doing"; "make"; "makes";
   "more"; "name"; "names"; "named"; "through"; "years"; "used"; "said";
   "saying"; "says"; "seen"; "sees"; "seeing"; "using"; "uses"; "known";
   "left"; "send"; "sent"; "choose"; "choice"; "choosing"; "going"; "gets";
   "below"; "less"; "least"; "might"; "href"; "link"; "https"; "a939";
   "abbe"; "ac30f6e24b3f"; "ababa"]%string.

Definition pound : pystr := [163%N].

(** Cell 14: [words = [word for word in words if not word in stopwords]];
    the set is read in its iteration order. *)
Definition cell_14 : script unit :=
  modify (fun e =>
    set_words (filter (fun word => word ∉ stopwords) (elements (words_set e))) e).

(** Cell 16: [words = [word for word in words if not len(word)<4]] *)
Definition cell_16 : script unit :=
  modify (fun e =>
    set_words (filter (fun word => ¬ (length word < 4)%nat) (words e)) e).

Definition cell_17 : script unit :=
  e <- get;;
  print (PInt (Z.of_nat (length (words e)))).

(** One line of cell 19:
    [words = [word for word in words if not word.startswith(p)]] *)
Definition drop_prefixed (p : pystr) : script unit :=
  modify (fun e =>
    set_words (filter (fun word => startswith word p = false) (words e)) e).

Definition cell_19 : script unit :=
  drop_prefixed pound;;;
  drop_prefixed (ustr "1");;;
  drop_prefixed (ustr "2");;;
  drop_prefixed (ustr "3");;;
  drop_prefixed (ustr "4");;;
  drop_prefixed (ustr "5");;;
  drop_prefixed (ustr "6");;;
  drop_prefixed (ustr "7");;;
  drop_prefixed (ustr "8");;;
  drop_prefixed (ustr "9");;;
  drop_prefixed (ustr "0").

Definition cell_20 : script unit :=
  e <- get;;
  print (PFormat "{0} distinct words will be used to form the data matrix"
           (PInt (Z.of_nat (length (words e))))).

(** *** Cell 23: the data matrix *)

(** [d[key] = v] on a dict, which keeps its keys in insertion order: an
    existing key keeps its place. *)
Fixpoint dict_set {V} (d : list (pystr * V)) (key : pystr) (v : V) : list (pystr * V) :=
  match d with
  | [] => [(key, v)]
  | (key', v') :: d' =>
      if decide (key = key') then (key, v) :: d'
      else (key', v') :: dict_set d' key v
  end.

(** [list(d.values())] *)
Definition values {V} (d : list (pystr * V)) : list V := snd <$> d.

(** [freqs = [dic.get(word, 0) for dic in dicts]; masterdict[word] = freqs] *)
Definition add_word (word : pystr) : script unit :=
  modify (fun e =>
    let freqs := (fun dic => get0 dic word) <$> dicts e in
    set_masterdict (dict_set (masterdict e) word freqs) e).

Definition cell_23 : script unit :=
  modify (set_masterdict []);;;
  print (PStr (ustr "Creating data matrix"));;;
  e <- get;;
  for_each (words e) add_word;;;
  modify (fun e => set_a (values (masterdict e)) e);;;
  e <- get;;
  print (PFormat "Final data matrix has size:{0}"
           (PShape (match a e with
                    | [] => [0%nat]
                    | row :: _ => [length (a e); length row]
                    end))).

Definition cell_24 : script unit :=
  e <- get;;
  print (PCounts (a e)).

(** *** Cell 27: the file [wordcounts.txt] *)

(** [a[i,j]] *)
Definition entry {A} (x : list (list A)) (i j : nat) : result A :=
  match index x i with
  | Ok row => index row j
  | Raise err => Raise err
  end.

(** [st = ' '*14; for i in range(n_links): st += ('link ' + str(i+1)).ljust(8, ' ')] *)
Definition header (n_links : nat) : pystr :=
  foldl (fun st i => st ++ ljust (ustr "link " ++ str_of_int (Z.of_nat i + 1)) 8)
        (times space 14) (seq 0 n_links).

(** [st = v.ljust(14,' '); for j in range(n_links): st += str(int(a[i,j])).center(8, ' ')] *)
Definition word_line (arr : list (list Z)) (n_links : nat) (i : nat) (v : pystr)
  : result pystr :=
  foldl (fun st j =>
           match st with
           | Ok st =>
               match entry arr i j with
               | Ok x => Ok (st ++ center (str_of_int x) 8)
               | Raise err => Raise err
               end
           | Raise err => Raise err
           end)
        (Ok (ljust v 14)) (seq 0 n_links).

(** [enumerate(l)] *)
Definition enumerate {A} (l : list A) : list (nat * A) := zip (seq 0 (length l)) l.

Definition cell_27 : script unit :=
  print (PStr (ustr "Printing data matrix to file"));;;
  call (OpenW (ustr "wordcounts.txt"));;;
  modify (set_f2 []);;;
  e <- get;;
  print_f2 (header (n_links e));;;
  for_each (enumerate (words e)) (fun iv =>
    e <- get;;
    st <- lift (word_line (a e) (n_links e) iv.1 iv.2);;
    print_f2 st);;;
  call CloseW.

(** *** Cells 30 to 34: the factorization *)

Definition cell_30 : script unit :=
  e <- get;;
  let m := length (a e) in
  n <- lift (match a e with [] => Raise IndexError | row :: _ => Ok (length row) end);;
  modify (set_k 2);;;
  let errtol := 1e-6%float in
  let maxit := 500 in
  let seed := 5842 in
  wh <- call (RealNmf (a e) 2 seed errtol maxit);;
  modify (set_w wh.1);;;
  modify (set_h wh.2).

(** [x.shape] of a two-dimensional array. *)
Definition shape {A} (x : list (list A)) : list nat :=
  [length x; match x with [] => 0%nat | row :: _ => length row end].

Definition cell_31 : script unit :=
  e <- get;;
  print (PShape (shape (w e))).

Definition cell_32 : script unit :=
  e <- get;;
  print (PShape (shape (h e))).

(** [resnorm = norm(a-w@h)/norm(a)] *)
Definition cell_34 : script unit :=
  e <- get;;
  wh <- call (Matmul (Floats (w e)) (Floats (h e)));;
  d <- call (Sub (Counts (a e)) (Floats wh));;
  nd <- call (Norm (Floats d));;
  na <- call (Norm (Counts (a e)));;
  modify (set_resnorm (nd / na)%float);;;
  print (PStr (ustr "norm of residual:"));;;
  e <- get;;
  print (PFloat (resnorm e)).

(** *** Cell 36: the most important words *)

(** [l.index(x)] *)
Definition index_of (l : list pystr) (x : pystr) : result nat :=
  match list_find (fun y => y = x) l with
  | Some iy => Ok iy.1
  | None => Raise ValueError
  end.

(** The key of [x]: [w[words.index(x), ind]] *)
Definition weight (wm : matrix) (ws : list pystr) (ind : nat) (x : pystr) : result float :=
  match index_of ws x with
  | Ok i => entry wm i ind
  | Raise err => Raise err
  end.

(** The keys of all elements, computed in order before any comparison. *)
Fixpoint keyed (key : pystr -> result float) (l : list pystr) : result (list (float * pystr)) :=
  match l with
  | [] => Ok []
  | x :: l' =>
      match key x with
      | Ok kx =>
          match keyed key l' with
          | Ok r => Ok ((kx, x) :: r)
          | Raise err => Raise err
          end
      | Raise err => Raise err
      end
  end.

(** [sorted(l, key=..., reverse=True)]: descending and stable, elements
    being compared by [<] on their keys only.  (On keys that [<] does not
    order totally, such as NaN, the order CPython produces depends on its
    merge strategy; this is the order of a stable insertion.) *)
Fixpoint insert_desc (kx : float * pystr) (l : list (float * pystr)) : list (float * pystr) :=
  match l with
  | [] => [kx]
  | ky :: l' =>
      if PrimFloat.ltb ky.1 kx.1 then kx :: ky :: l'
      else ky :: insert_desc kx l'
  end.

Definition sorted_desc (key : pystr -> result float) (l : list pystr) : result (list pystr) :=
  match keyed key l with
  | Ok kl => Ok (snd <$> foldl (fun acc kx => insert_desc kx acc) [] kl)
  | Raise err => Raise err
  end.

Definition cell_36 : script unit :=
  e <- get;;
  for_each (seq 0 (k e)) (fun i =>
    e <- get;;
    tmp <- lift (sorted_desc (weight (w e) (words e) i) (words e));;
    let st := [newline] ++ ustr "The most important words in column "
              ++ str_of_int (Z.of_nat i + 1) ++ ustr " of w are:" in
    print (PStr st);;;
    print (PStrs (take 10 tmp))).

(** *** Cell 38: the coefficients as a data frame *)

Definition link_columns : list pystr :=
  ustr <$> ["link1"; "link2"; "link3"; "link4"; "link5"; "link6"; "link7";
            "link8"; "link9"; "link10"; "link11"; "link12"; "link13";
            "link14"; "link15"]%string.

Definition cell_38 : script unit :=
  e <- get;;
  d <- call (DataFrame (h e) link_columns);;
  modify (set_display_h (Some d));;;
  call (SetOption (ustr "precision") 3);;;
  print (PObject d).

(** *** Cell 40: the category of each article *)

(** [0 if h0 > h1 else 1] *)
Definition category_of (h0 h1 : float) : Z :=
  if PrimFloat.ltb h1 h0 then 0 else 1.

(** [category = 0 if h[0,i] > h[1,i] else 1] *)
Definition category (hm : matrix) (i : nat) : result Z :=
  match entry hm 0 i with
  | Ok h0 =>
      match entry hm 1 i with
      | Ok h1 => Ok (category_of h0 h1)
      | Raise err => Raise err
      end
  | Raise err => Raise err
  end.

Definition quote : pystr := [34%N].

Definition article_line (ts : list (list pystr)) (i : nat) (cat : Z) : result pystr :=
  match entry ts i 0 with
  | Ok t =>
      let title := quote ++ t ++ quote in
      match index [ustr " (Trump)"; ustr " (Brexit)"] (Z.to_nat cat) with
      | Ok name =>
          Ok (ustr "Article " ++ ljust title 78 ++ ustr " is in category "
              ++ str_of_int cat ++ name)
      | Raise err => Raise err
      end
  | Raise err => Raise err
  end.

Definition cell_40 : script unit :=
  e <- get;;
  for_each (enumerate (links e)) (fun il =>
    e <- get;;
    cat <- lift (category (h e) il.1);;
    st <- lift (article_line (titles e) il.1 cat);;
    print (PStr st)).

(** *** The notebook, top to bottom *)
Section notebook.
Variable decode : list N -> result pystr.
Variable lower : pystr -> pystr.

(** The cells up to the data matrix. *)
Definition build_matrix : script unit :=
  cell_2;;; cell_5 decode lower;;; cell_7;;; cell_9;;;
  cell_14;;; cell_16;;; cell_17;;; cell_19;;; cell_20;;;
  cell_23;;; cell_24.

(** The cells after the factorization. *)
Definition after_nmf : script unit :=
  cell_31;;; cell_32;;; cell_34;;; cell_36;;; cell_38;;; cell_40.

Definition notebook : script unit :=
  build_matrix;;; cell_27;;; cell_30;;; after_nmf.
End notebook.

End Nmf.

(** ** The SOCP notebook *)
Module Socp.

(** Objects of the library, known to the notebook by reference. *)
Definition handle_t : Type := N.
Definition iomanager : Type := N.

(** The fields of the solver's return value that the notebook reads. *)
Record solution : Type := Solution { x : list float; rinfo : list float }.

Inductive ext : Type -> Type :=
| HandleInit (nvar : Z) : ext handle_t
| HandleSetLinobj (hd : handle_t) (cvec : list float) : ext unit
| HandleSetSimplebounds (hd : handle_t) (bl bu : list float) : ext unit
| HandleSetLinconstr (hd : handle_t) (bl bu : list float)
    (irowb icolb : list Z) (b : list float) : ext Z
| HandleSetGroup (hd : handle_t) (gtype : pystr) (group : list Z) (idgroup : Z) : ext Z
| HandleOptSet (hd : handle_t) (optstr : pystr) : ext unit
| FileObjManager (locus_in_output : bool) : ext iomanager
| HandleSolveSocpIpm (hd : handle_t) (io_manager : iomanager) : ext solution
| HandleFree (hd : handle_t) : ext unit.

Record env : Type := Env {
  n : Z;
  handle : handle_t;
  iom : iomanager;
  result : option solution;
  stdout : list pyval
}.

Definition env0 : env :=
  {| n := 0; handle := 0%N; iom := 0%N; result := None; stdout := [] |}.

Definition set_n (v : Z) (e : env) : env :=
  {| n := v; handle := handle e; iom := iom e; result := result e; stdout := stdout e |}.
Definition set_handle (v : handle_t) (e : env) : env :=
  {| n := n e; handle := v; iom := iom e; result := result e; stdout := stdout e |}.
Definition set_iom (v : iomanager) (e : env) : env :=
  {| n := n e; handle := handle e; iom := v; result := result e; stdout := stdout e |}.
Definition set_result (v : option solution) (e : env) : env :=
  {| n := n e; handle := handle e; iom := iom e; result := v; stdout := stdout e |}.
Definition set_stdout (v : list pyval) (e : env) : env :=
  {| n := n e; handle := handle e; iom := iom e; result := result e; stdout := v |}.

Abbreviation script := (M ext env).

Definition print (v : pyval) : script unit :=
  modify (fun e => set_stdout (stdout e ++ [v]) e).

(** Create the problem handle and set the objective function. *)
Definition cell_2 : script unit :=
  modify (set_n 3);;;
  e <- get;;
  hd <- call (HandleInit (n e));;
  modify (set_handle hd);;;
  call (HandleSetLinobj hd [10.0; 20.0; 1.0]%float).

(** Set box constraints. *)
Definition cell_4 : script unit :=
  e <- get;;
  call (HandleSetSimplebounds (handle e)
          [-2.0; -2.0; -1e20]%float [2.0; 2.0; 1e20]%float).

(** Set linear constraints. *)
Definition cell_7 : script unit :=
  e <- get;;
  call (HandleSetLinconstr (handle e)
          [-1e20; 1.0]%float [1.5; 1e20]%float
          [1; 1; 1; 2; 2; 2] [1; 2; 3; 1; 2; 3]
          [-0.1; -0.1; 1.0; -0.06; 1.0; 1.0]%float);;;
  ret tt.

(** Set cone constraint. *)
Definition cell_9 : script unit :=
  e <- get;;
  call (HandleSetGroup (handle e) (ustr "Q") [3; 1; 2] 0);;;
  ret tt.

(** Set some algorithmic options; an explicit I/O manager. *)
Definition cell_11 : script unit :=
  for_each [ustr "Print Options = NO"; ustr "Print Level = 1"] (fun option =>
    e <- get;;
    call (HandleOptSet (handle e) option));;;
  io <- call (FileObjManager false);;
  modify (set_iom io).

(** Call SOCP interior point solver. *)
Definition cell_13 : script unit :=
  e <- get;;
  res <- call (HandleSolveSocpIpm (handle e) (iom e));;
  modify (set_result (Some res)).

(** [result.x] and [result.rinfo[0]] *)
Definition cell_15 : script unit :=
  e <- get;;
  match result e with
  | Some res => print (PFloats (x res))
  | None => raise NameError
  end.

Definition cell_17 : script unit :=
  e <- get;;
  match result e with
  | Some res => v <- lift (index (rinfo res) 0);; print (PFloat v)
  | None => raise NameError
  end.

(** Destroy the handle. *)
Definition cell_19 : script unit :=
  e <- get;;
  call (HandleFree (handle e)).

Definition notebook : script unit :=
  cell_2;;; cell_4;;; cell_7;;; cell_9;;; cell_11;;; cell_13;;;
  cell_15;;; cell_17;;; cell_19.

End Socp.

(** ** The implied-volatility notebook *)
Module ImpVol.

Definition matrix : Type := list (list float).

(** The communication object of the random number generator. *)
Definition comm : Type := N.

(** The external calls.  [ContfnCntin] is always given the callback
    [black_scholes] below, which the library calls with the [data] passed
    along. *)
Inductive ext : Type -> Type :=
| InitNonrepeat (genid : Z) : ext comm
| DistUniform (num : Z) (lo hi : float) (st : comm) : ext (list float)
| PerfCounter : ext float
| OptBsmPrice (calput : pystr) (strikes : list float) (spot : float)
    (times : list float) (vol rate q : float) : ext matrix
| ContfnCntin (x0 : float) (user_data : gmap string float)
    (eps eta : float) (nfmax : Z) : ext float
| OptImpVol (calput : pystr) (prices strikes spots times rates : list float)
    (mode : Z) : ext (list float * list Z).

(** The notebook's variables.  [sigma] is a float in the root-finder loop
    and an array from cell 10 on: [sigma] and [sigmas]. *)
Record env : Type := Env {
  n : Z;
  statecomm : comm;
  p : list float;
  k : list float;
  s0 : list float;
  t : list float;
  r : list float;
  data : gmap string float;
  errorcount : Z;
  tic : float;
  toc : float;
  sigma : float;
  sigmas : list float;
  ivalid : list Z;
  stdout : list pyval
}.

Definition env0 : env :=
  {| n := 0; statecomm := 0%N; p := []; k := []; s0 := []; t := []; r := [];
     data := ∅; errorcount := 0; tic := 0%float; toc := 0%float;
     sigma := 0%float; sigmas := []; ivalid := []; stdout := [] |}.

Definition set_n (v : Z) (e : env) : env :=
  {| n := v; statecomm := statecomm e; p := p e; k := k e; s0 := s0 e;
     t := t e; r := r e; data := data e; errorcount := errorcount e;
     tic := tic e; toc := toc e; sigma := sigma e; sigmas := sigmas e;
     ivalid := ivalid e; stdout := stdout e |}.

Definition set_statecomm (v : comm) (e : env) : env :=
  {| n := n e; statecomm := v; p := p e; k := k e; s0 := s0 e; t := t e;
     r := r e; data := data e; errorcount := errorcount e; tic := tic e;
     toc := toc e; sigma := sigma e; sigmas := sigmas e; ivalid := ivalid e;
     stdout := stdout e |}.

Definition set_p (v : list float) (e : env) : env :=
  {| n := n e; statecomm := statecomm e; p := v; k := k e; s0 := s0 e;
     t := t e; r := r e; data := data e; errorcount := errorcount e;
     tic := tic e; toc := toc e; sigma := sigma e; sigmas := sigmas e;
     ivalid := ivalid e; stdout := stdout e |}.

Definition set_k (v : list float) (e : env) : env :=
  {| n := n e; statecomm := statecomm e; p := p e; k := v; s0 := s0 e;
     t := t e; r := r e; data := data e; errorcount := errorcount e;
     tic := tic e; toc := toc e; sigma := sigma e; sigmas := sigmas e;
     ivalid := ivalid e; stdout := stdout e |}.

Definition set_s0 (v : list float) (e : env) : env :=
  {| n := n e; statecomm := statecomm e; p := p e; k := k e; s0 := v;
     t := t e; r := r e; data := data e; errorcount := errorcount e;
     tic := tic e; toc := toc e; sigma := sigma e; sigmas := sigmas e;
     ivalid := ivalid e; stdout := stdout e |}.

Definition set_t (v : list float) (e : env) : env :=
  {| n := n e; statecomm := statecomm e; p := p e; k := k e; s0 := s0 e;
     t := v; r := r e; data := data e; errorcount := errorcount e;
     tic := tic e; toc := toc e; sigma := sigma e; sigmas := sigmas e;
     ivalid := ivalid e; stdout := stdout e |}.

Definition set_r (v : list float) (e : env) : env :=
  {| n := n e; statecomm := statecomm e; p := p e; k := k e; s0 := s0 e;
     t := t e; r := v; data := data e; errorcount := errorcount e;
     tic := tic e; toc := toc e; sigma := sigma e; sigmas := sigmas e;
     ivalid := ivalid e; stdout := stdout e |}.

Definition set_data (v : gmap string float) (e : env) : env :=
  {| n := n e; statecomm := statecomm e; p := p e; k := k e; s0 := s0 e;
     t := t e; r := r e; data := v; errorcount := errorcount e; tic := tic e;
     toc := toc e; sigma := sigma e; sigmas := sigmas e; ivalid := ivalid e;
     stdout := stdout e |}.

Definition set_errorcount (v : Z) (e : env) : env :=
  {| n := n e; statecomm := statecomm e; p := p e; k := k e; s0 := s0 e;
     t := t e; r := r e; data := data e; errorcount := v; tic := tic e;
     toc := toc e; sigma := sigma e; sigmas := sigmas e; ivalid := ivalid e;
     stdout := stdout e |}.

Definition set_tic (v : float) (e : env) : env :=
  {| n := n e; statecomm := statecomm e; p := p e; k := k e; s0 := s0 e;
     t := t e; r := r e; data := data e; errorcount := errorcount e;
     tic := v; toc := toc e; sigma := sigma e; sigmas := sigmas e;
     ivalid := ivalid e; stdout := stdout e |}.

Definition set_toc (v : float) (e : env) : env :=
  {| n := n e; statecomm := statecomm e; p := p e; k := k e; s0 := s0 e;
     t := t e; r := r e; data := data e; errorcount := errorcount e;
     tic := tic e; toc := v; sigma := sigma e; sigmas := sigmas e;
     ivalid := ivalid e; stdout := stdout e |}.

Definition set_sigma (v : float) (e : env) : env :=
  {| n := n e; statecomm := statecomm e; p := p e; k := k e; s0 := s0 e;
     t := t e; r := r e; data := data e; errorcount := errorcount e;
     tic := tic e; toc := toc e; sigma := v; sigmas := sigmas e;
     ivalid := ivalid e; stdout := stdout e |}.

Definition set_sigmas (v : list float) (e : env) : env :=
  {| n := n e; statecomm := statecomm e; p := p e; k := k e; s0 := s0 e;
     t := t e; r := r e; data := data e; errorcount := errorcount e;
     tic := tic e; toc := toc e; sigma := sigma e; sigmas := v;
     ivalid := ivalid e; stdout := stdout e |}.

Definition set_ivalid (v : list Z) (e : env) : env :=
  {| n := n e; statecomm := statecomm e; p := p e; k := k e; s0 := s0 e;
     t := t e; r := r e; data := data e; errorcount := errorcount e;
     tic := tic e; toc := toc e; sigma := sigma e; sigmas := sigmas e;
     ivalid := v; stdout := stdout e |}.

Definition set_stdout (v : list pyval) (e : env) : env :=
  {| n := n e; statecomm := statecomm e; p := p e; k := k e; s0 := s0 e;
     t := t e; r := r e; data := data e; errorcount := errorcount e;
     tic := tic e; toc := toc e; sigma := sigma e; sigmas := sigmas e;
     ivalid := ivalid e; stdout := v |}.

Abbreviation script := (M ext env).

Definition print (v : pyval) : script unit :=
  modify (fun e => set_stdout (stdout e ++ [v]) e).

(** Cell 4: the input data. *)
Definition cell_4 : script unit :=
  modify (set_n 10000);;;
  st <- call (InitNonrepeat 1);;
  modify (set_statecomm st);;;
  e <- get;;
  v <- call (DistUniform (n e) 3.9 5.8 (statecomm e));;
  modify (set_p v);;;
  v <- call (DistUniform (n e) 271.5 272.0 (statecomm e));;
  modify (set_k v);;;
  v <- call (DistUniform (n e) 259.0 271.0 (statecomm e));;
  modify (set_s0 v);;;
  v <- call (DistUniform (n e) 0.016 0.017 (statecomm e));;
  modify (set_t v);;;
  v <- call (DistUniform (n e) 0.017 0.018 (statecomm e));;
  modify (set_r v).

(** [d[key]] on a dict. *)
Definition item (d : gmap string float) (key : string) : result float :=
  match d !! key with
  | Some v => Ok v
  | None => Raise (KeyError key)
  end.

(** [np.zeros((1,1))] *)
Definition zeros_1_1 : matrix := [[0%float]].

(** [x[i,j]] *)
Definition entry (x : matrix) (i j : nat) : result float :=
  match index x i with
  | Ok row => index row j
  | Raise err => Raise err
  end.

(** Cell 6: the callback of the root finder.
<<
def black_scholes(sigma, data):
    try:
        price = specfun.opt_bsm_price('C', [data['k']], data['s0'], [data['t']], sigma, data['r'], 0.0)
    except:
        price = np.zeros((1,1))
    return price[0, 0] - data['p']
>> *)
Definition black_scholes {S} (sigma : float) (data : gmap string float) : M ext S float :=
  price <- try_except
             (dk <- lift (item data "k");;
              ds0 <- lift (item data "s0");;
              dt <- lift (item data "t");;
              dr <- lift (item data "r");;
              call (OptBsmPrice (ustr "C") [dk] ds0 [dt] sigma dr 0.0))
             (ret zeros_1_1);;
  p00 <- lift (entry price 0 0);;
  dp <- lift (item data "p");;
  ret (p00 - dp)%float.

(** Cell 8: one pass of the loop body, for the data point [i]. *)
Definition root_find (i : nat) : script unit :=
  e <- get;;
  v <- lift (index (p e) i);;
  modify (fun e => set_data (<["p" := v]> (data e)) e);;;
  v <- lift (index (k e) i);;
  modify (fun e => set_data (<["k" := v]> (data e)) e);;;
  v <- lift (index (s0 e) i);;
  modify (fun e => set_data (<["s0" := v]> (data e)) e);;;
  v <- lift (index (t e) i);;
  modify (fun e => set_data (<["t" := v]> (data e)) e);;;
  v <- lift (index (r e) i);;
  modify (fun e => set_data (<["r" := v]> (data e)) e);;;
  try_except
    (e <- get;;
     sg <- call (ContfnCntin 0.15 (data e) 1.0e-14 0.0 500);;
     modify (set_sigma sg);;;
     if PrimFloat.ltb sg 0.0
     then modify (fun e => set_errorcount (errorcount e + 1) e)
     else ret tt)
    (modify (fun e => set_errorcount (errorcount e + 1) e)).

Definition cell_8 : script unit :=
  modify (set_data ∅);;;
  modify (set_errorcount 0);;;
  v <- call PerfCounter;;
  modify (set_tic v);;;
  e <- get;;
  for_each (seq 0 (Z.to_nat (n e))) root_find;;;
  v <- call PerfCounter;;
  modify (set_toc v);;;
  print (PStr (ustr "Using a general purpose root finder:"));;;
  e <- get;;
  print (PFormat "    Time taken: {0:.3f} seconds" (PFloat (toc e - tic e)));;;
  print (PFormat "    There were {} failures" (PInt (errorcount e))).

(** [np.count_nonzero(l)] *)
Definition count_nonzero (l : list Z) : Z :=
  Z.of_nat (length (filter (fun z => z ≠ 0) l)).

(** Cells 10, 12 and 14: [opt_imp_vol] with [mode] 2, 1 and 0. *)
Definition imp_vol_cell (mode : Z) (title : pystr) : script unit :=
  v <- call PerfCounter;;
  modify (set_tic v);;;
  e <- get;;
  si <- call (OptImpVol (ustr "C") (p e) (k e) (s0 e) (t e) (r e) mode);;
  modify (set_sigmas si.1);;;
  modify (set_ivalid si.2);;;
  v <- call PerfCounter;;
  modify (set_toc v);;;
  print (PStr title);;;
  e <- get;;
  print (PFormat "    Time taken: {0:.5f} seconds" (PFloat (toc e - tic e)));;;
  print (PFormat "    There were {} failures" (PInt (count_nonzero (ivalid e)))).

Definition cell_10 : script unit :=
  imp_vol_cell 2 (ustr "omp_imp_vol with mode = 2 (J" ++ [228%N]
                    ++ ustr "ckel algorithm):").
Definition cell_12 : script unit :=
  imp_vol_cell 1 (ustr "omp_imp_vol with mode = 1 (Glau algorithm):").
Definition cell_14 : script unit :=
  imp_vol_cell 0 (ustr "omp_imp_vol with mode = 0 (lower accuracy Glau algorithm):").

Definition notebook : script unit :=
  cell_4;;; cell_8;;; cell_10;;; cell_12;;; cell_14.

End ImpVol.

(** ** A small web, for running the NMF notebook *)
Module Demo.
Import Nmf.

(** ASCII lowercasing and a decoder that takes each byte as a character
    stand for [str.lower] and [bytes.decode] on ASCII pages. *)
Definition lower_ascii (s : pystr) : pystr :=
  (fun c => if ((65 <=? c) && (c <=? 90))%N then (c + 32)%N else c) <$> s.

Definition decode_ascii (b : list N) : result pystr := Ok b.

Definition page1 : pystr :=
  ustr "<html><title>Deal Or No</title><p>The Deal, the deal; is done!</p>"
  ++ [newline]
  ++ ustr "<p>parliament's 2019 brexit-deal</p><P>UPPER tag</P></html>".

Definition page2 : pystr :=
  ustr "<title>T2</title><p>trump trump president</p>".

(** Two links; the world counts the pages opened. *)
Definition web : handler ext nat := fun X ev wd =>
  match ev in ext X return result X * nat with
  | ReadText _ => (Ok (ustr "u1" ++ [newline] ++ ustr "u2"), wd)
  | ReadLines _ => (Ok [ustr "u1"; ustr "u2"], wd)
  | OpenW _ => (Ok tt, wd)
  | CloseW => (Ok tt, wd)
  | Urlopen link => (Ok (if decide (link = ustr "u1") then 1%N else 2%N), S wd)
  | HttpRead r => (Ok (if decide (r = 1%N) then page1 else page2), wd)
  | RealNmf arr _ _ _ _ =>
      (Ok ((fun _ => [1.0; 0.5]%float) <$> arr,
           [[1.0; 2.0]; [1.0; 0.5]]%float), wd)
  | Matmul _ _ => (Ok [], wd)
  | Sub _ _ => (Ok [], wd)
  | Norm _ => (Ok 1%float, wd)
  | DataFrame _ _ => (Ok 7%N, wd)
  | SetOption _ _ => (Ok tt, wd)
  end.

Definition matrix_run : (result unit * env) * list (event ext) * nat :=
  run web (build_matrix decode_ascii lower_ascii env0) 0%nat.

Definition notebook_run : (result unit * env) * list (event ext) * nat :=
  run web (notebook decode_ascii lower_ascii env0) 0%nat.

End Demo.

(** * Facts about runs of scripts *)
Module ScriptFacts.
Section facts.
Context {E : Type -> Type} {S : Type}.
Implicit Types (s : S) (x : exn).

Lemma run_pbind {W A B} (hd : handler E W) (p : prog E A) (f : A -> prog E B) wd :
  run hd (pbind p f) wd =
  let '(a, tr1, w1) := run hd p wd in
  let '(b, tr2, w2) := run hd (f a) w1 in
  (b, tr1 ++ tr2, w2).
Proof.
  revert wd. induction p as [a|X e k IH]; intros wd; simpl.
  - by destruct (run hd (f a) wd) as [[b tr2] w2].
  - destruct (hd X e wd) as [r w1]. rewrite IH.
    destruct (run hd (k r) w1) as [[a tr1] w1'].
    by destruct (run hd (f a) w1') as [[b tr2] w2].
Qed.

(** A run of [m ;; f]: the run of [m], then, unless it raised, that of [f]. *)
Lemma run_bind {W A B} (hd : handler E W) (m : M E S A) (f : A -> M E S B) s wd :
  run hd (bind m f s) wd =
  let '(rs, tr1, w1) := run hd (m s) wd in
  match rs.1 with
  | Ok a => let '(rs2, tr2, w2) := run hd (f a rs.2) w1 in (rs2, tr1 ++ tr2, w2)
  | Raise x => ((Raise x, rs.2), tr1, w1)
  end.
Proof.
  unfold bind. rewrite run_pbind.
  destruct (run hd (m s) wd) as [[[r s1] tr1] w1]; simpl.
  destruct r; simpl; [done|]. by rewrite app_nil_r.
Qed.

Lemma run_bind_ok {W A B} (hd : handler E W) (m : M E S A) (f : A -> M E S B)
    s wd b s2 tr w2 :
  run hd (bind m f s) wd = ((Ok b, s2), tr, w2) ->
  exists a s1 tr1 w1 tr2,
    run hd (m s) wd = ((Ok a, s1), tr1, w1) /\
    run hd (f a s1) w1 = ((Ok b, s2), tr2, w2) /\
    tr = tr1 ++ tr2.
Proof.
  rewrite run_bind.
  destruct (run hd (m s) wd) as [[[r s1] tr1] w1]; simpl.
  destruct r as [a|x]; [|discriminate].
  destruct (run hd (f a s1) w1) as [[rs2 tr2] w2'] eqn:Hf.
  intros [= -> <- ->]. by exists a, s1, tr1, w1, tr2.
Qed.

Lemma run_call_ok {W X} (hd : handler E W) (e : E X) s wd v s1 tr w1 :
  run hd (call e s) wd = ((Ok v, s1), tr, w1) ->
  s1 = s /\ tr = [Event _ e (Ok v)] /\ hd X e wd = (Ok v, w1).
Proof.
  simpl. destruct (hd X e wd) as [r w]. by intros [= -> -> <- ->].
Qed.

Lemma run_lift_ok {W A} (hd : handler E W) (r : result A) s wd v s1 tr w1 :
  run hd (lift r s) wd = ((Ok v, s1), tr, w1) ->
  r = Ok v /\ s1 = s /\ tr = [] /\ w1 = wd.
Proof. simpl. by intros [= -> -> <- ->]. Qed.

Lemma run_modify_ok {W} (hd : handler E W) (f : S -> S) s wd v s1 tr w1 :
  run hd (modify f s) wd = ((Ok v, s1), tr, w1) ->
  s1 = f s /\ tr = [] /\ w1 = wd.
Proof. simpl. by intros [= _ -> <- ->]. Qed.

Lemma run_get_ok {W} (hd : handler E W) s wd v s1 tr w1 :
  run hd (get s) wd = ((Ok v, s1), tr, w1) ->
  v = s /\ s1 = s /\ tr = [] /\ w1 = wd.
Proof. simpl. by intros [= -> -> <- ->]. Qed.

Lemma run_ret_ok {W A} (hd : handler E W) (a : A) s wd v s1 tr w1 :
  run hd (ret a s) wd = ((Ok v, s1), tr, w1) ->
  v = a /\ s1 = s /\ tr = [] /\ w1 = wd.
Proof. simpl. by intros [= -> -> <- ->]. Qed.

(** A cell without external calls that does not raise: it only maps the
    variables. *)
Definition pure_step {A} (m : M E S A) (s : S) (a : A) (s' : S) : Prop :=
  m s = Ret (Ok a, s').

Lemma bind_pure {A B} (m : M E S A) (f : A -> M E S B) s a s' :
  pure_step m s a s' -> bind m f s = f a s'.
Proof. unfold pure_step, bind. by intros ->. Qed.

Lemma for_each_pure {A} (body : A -> M E S unit) (g : A -> S -> S) l s :
  (forall y s, body y s = Ret (Ok tt, g y s)) ->
  for_each l body s = Ret (Ok tt, foldl (fun s y => g y s) s l).
Proof.
  intros Hb. revert s. induction l as [|y l IH]; intros s; simpl; [done|].
  unfold bind. rewrite Hb. simpl. apply IH.
Qed.

(** *** Scripts without exception handling

    [strict p]: whenever an external call of [p] raises, [p] ends at once
    with that exception. *)
Inductive strict {A} : prog E (result A * S) -> Prop :=
| strict_ret v : strict (Ret v)
| strict_vis X (e : E X) k :
    (forall x, exists s, k (Raise x) = Ret (Raise x, s)) ->
    (forall v, strict (k (Ok v))) ->
    strict (Vis e k).

Lemma strict_bind {A B} (m : M E S A) (f : A -> M E S B) s :
  strict (m s) -> (forall a s', strict (f a s')) -> strict (bind m f s).
Proof.
  intros Hm Hf. unfold bind.
  induction Hm as [[r s1]|X e k Hraise Hok IH]; simpl.
  - destruct r; [apply Hf|constructor].
  - constructor.
    + intros x. destruct (Hraise x) as [s1 ->]. simpl. by exists s1.
    + apply IH.
Qed.

Lemma strict_call {X} (e : E X) s : strict (call e s).
Proof.
  constructor; [intros x; by exists s|]. intros v. constructor.
Qed.

Lemma strict_for_each {A} (body : A -> M E S unit) l s :
  (forall y s, strict (body y s)) -> strict (for_each l body s).
Proof.
  intros Hb. revert s. induction l as [|y l IH]; intros s; simpl.
  - constructor.
  - apply strict_bind; [apply Hb|]. intros _ s'. apply IH.
Qed.

(** In a run of a strict script, a call that raised is the last one, and
    the script raised the same exception. *)
Lemma strict_run {W A} (hd : handler E W) (p : prog E (result A * S)) wd :
  strict p ->
  forall tr1 ev tr2 x,
    (run hd p wd).1.2 = tr1 ++ ev :: tr2 ->
    raised ev = Some x ->
    tr2 = [] /\ (run hd p wd).1.1.1 = Raise x.
Proof.
  intros Hp. revert wd.
  induction Hp as [v|X e k Hraise Hok IH]; intros wd tr1 ev tr2 x; simpl.
  - by destruct tr1.
  - destruct (hd X e wd) as [r w1] eqn:Hh.
    destruct (run hd (k r) w1) as [[a0 tr] w2] eqn:Hk. simpl.
    destruct tr1 as [|ev1 tr1]; simpl.
    + intros [= <- <-]. unfold raised. simpl.
      destruct r as [v|x']; [done|]. intros [= ->].
      destruct (Hraise x) as [s1 Hs1]. rewrite Hs1 in Hk. simpl in Hk.
      by injection Hk as <- <- <-.
    + intros [= <- Htr] Hev. destruct r as [v|x'].
      * specialize (IH v w1 tr1 ev tr2 x). rewrite Hk in IH. simpl in IH.
        by apply IH.
      * destruct (Hraise x') as [s1 Hs1]. rewrite Hs1 in Hk. simpl in Hk.
        injection Hk as <- <- <-. by destruct tr1.
Qed.
End facts.

Create HintDb strict.
#[global] Hint Resolve strict_call strict_for_each : strict.
#[global] Hint Constructors strict : strict.

(** Inversion of a successful run, one statement at a time. *)
Ltac run_inv H :=
  repeat first
    [ let a := fresh "v" in let s1 := fresh "e" in let tr1 := fresh "tr" in
      let w1 := fresh "wd" in let tr2 := fresh "tr" in
      let H1 := fresh "Hrun" in
      apply run_bind_ok in H as (a & s1 & tr1 & w1 & tr2 & H1 & H & ->);
      first
        [ apply run_call_ok in H1 as (-> & -> & H1)
        | apply run_lift_ok in H1 as (H1 & -> & -> & ->)
        | apply run_modify_ok in H1 as (-> & -> & ->)
        | apply run_get_ok in H1 as (-> & -> & -> & ->)
        | apply run_ret_ok in H1 as (-> & -> & -> & ->)
        | idtac ] ].

End ScriptFacts.
Import ScriptFacts.

(** * Facts about the builtins *)
Module PyFacts.

Example split_ex :
  split (ustr "  the  deal is done ") = ustr <$> ["the"; "deal"; "is"; "done"]%string.
Proof. reflexivity. Qed.

Example center_ex1 : center (ustr "3") 8 = ustr "   3    ".
Proof. reflexivity. Qed.

Example center_ex2 : center (ustr "1234567") 8 = ustr "1234567 ".
Proof. reflexivity. Qed.

Example center_ex3 : center (ustr "12") 7 = ustr "   12  ".
Proof. reflexivity. Qed.

Example findall_ex :
  findall (ustr "<p>") (ustr "</p>") (ustr "x<p>ab</p><p></p><p>c<p>d</p>")
  = ustr <$> ["ab"; ""; "c<p>d"]%string.
Proof. reflexivity. Qed.

Example str_of_int_ex : str_of_int 1203 = ustr "1203".
Proof. reflexivity. Qed.

Lemma startswith_true s p : startswith s p = true <-> exists rest, s = p ++ rest.
Proof.
  revert s. induction p as [|c p IH]; intros s; simpl.
  - split; [by exists s|done].
  - destruct s as [|b s]; simpl.
    + split; [done|]. by intros [rest ?].
    + rewrite andb_true_iff, N.eqb_eq, IH. split.
      * intros [-> [rest ->]]. by exists rest.
      * intros [rest [= -> ->]]. split; [done|by exists rest].
Qed.

(** The group of a lazy match is followed by the closing tag and holds no
    line end. *)
Lemma lazy_body_spec close t body :
  lazy_body close t = Some body ->
  (exists post, t = body ++ close ++ post) /\ newline ∉ body.
Proof.
  revert body. induction t as [|c t IH]; intros body; simpl.
  - destruct (startswith [] close) eqn:Hs; [|done]. intros [= <-].
    apply startswith_true in Hs as [rest Hrest]. split; [by exists rest|].
    apply not_elem_of_nil.
  - destruct (startswith (c :: t) close) eqn:Hs.
    + intros [= <-]. apply startswith_true in Hs as [rest Hrest].
      split; [by exists rest|]. apply not_elem_of_nil.
    + destruct (N.eqb_spec c newline) as [|Hc]; [done|].
      destruct (lazy_body close t) as [body'|] eqn:Hb; [|done].
      simpl. intros [= <-]. destruct (IH body' eq_refl) as [[post ->] Hnl].
      split; [by exists post|]. rewrite not_elem_of_cons. done.
Qed.

(** Every string found lies in the text, between the two tags. *)
Lemma findall_from_spec opn close skip s body :
  body ∈ findall_from opn close skip s ->
  (exists pre post, s = pre ++ opn ++ body ++ close ++ post) /\ newline ∉ body.
Proof.
  revert skip. induction s as [|c s IH]; intros skip; simpl.
  - by intros ?%elem_of_nil.
  - assert (forall sk, body ∈ findall_from opn close sk s ->
      (exists pre post, c :: s = pre ++ opn ++ body ++ close ++ post)
      /\ newline ∉ body) as Hrest.
    { intros sk [(pre & post & ->) Hnl]%IH. split; [|done].
      by exists (c :: pre), post. }
    destruct skip as [|sk]; [|apply Hrest].
    destruct (startswith (c :: s) opn) eqn:Hs; [|apply Hrest].
    apply startswith_true in Hs as [rest Hs]. rewrite Hs.
    rewrite drop_app_length.
    destruct (lazy_body close rest) as [b|] eqn:Hb.
    + intros [->|Hin]%elem_of_cons.
      * apply lazy_body_spec in Hb as [[post ->] Hnl]. split; [|done].
        by exists [], post.
      * rewrite <- Hs. by eapply Hrest.
    + rewrite <- Hs. apply Hrest.
Qed.

Lemma findall_spec opn close s body :
  body ∈ findall opn close s ->
  (exists pre post, s = pre ++ opn ++ body ++ close ++ post) /\ newline ∉ body.
Proof. apply findall_from_spec. Qed.

(** The group of a lazy match does not hold the closing tag: the match ends
    at the first one. *)
Lemma lazy_body_shortest close t body :
  close ≠ [] -> lazy_body close t = Some body ->
  forall pre post, body ≠ pre ++ close ++ post.
Proof.
  intros Hclose. revert body. induction t as [|c t IH]; intros body; simpl.
  - destruct (startswith [] close) eqn:Hs; [|done]. intros [= <-] pre post Heq.
    destruct pre; [destruct close|]; done.
  - destruct (startswith (c :: t) close) eqn:Hs.
    + intros [= <-] pre post Heq. destruct pre; [destruct close|]; done.
    + destruct (N.eqb_spec c newline) as [|Hc]; [done|].
      destruct (lazy_body close t) as [body'|] eqn:Hb; [|done].
      simpl. intros [= <-] pre post Heq.
      destruct pre as [|c' pre].
      * apply lazy_body_spec in Hb as [[post' Ht] _].
        assert (startswith (c :: t) close = true) as Hs'; [|congruence].
        apply startswith_true. exists (post ++ close ++ post').
        rewrite Ht. simpl in Heq. rewrite app_comm_cons, Heq.
        by rewrite <- !app_assoc.
      * injection Heq as -> Heq. by eapply IH.
Qed.

Lemma findall_from_shortest opn close skip s body :
  close ≠ [] -> body ∈ findall_from opn close skip s ->
  forall pre post, body ≠ pre ++ close ++ post.
Proof.
  intros Hclose. revert skip. induction s as [|c s IH]; intros skip; simpl.
  - by intros ?%elem_of_nil.
  - destruct skip as [|sk]; [|apply IH].
    destruct (startswith (c :: s) opn) eqn:Hs; [|apply IH].
    destruct (lazy_body close (drop (length opn) (c :: s))) as [b|] eqn:Hb;
      [|apply IH].
    intros [->|Hin]%elem_of_cons; [|by eapply IH].
    by eapply lazy_body_shortest.
Qed.

Lemma findall_shortest opn close s body :
  close ≠ [] -> body ∈ findall opn close s ->
  forall pre post, body ≠ pre ++ close ++ post.
Proof. apply findall_from_shortest. Qed.


(** [maketrans(x, c * len(x))] sends the characters of [x] to [c] and has
    no other entry. *)
Lemma maketrans_times x c d :
  maketrans x (times c (length x)) !! d = if decide (d ∈ x) then Some c else None.
Proof.
  unfold maketrans, times.
  assert (forall (t : gmap N N),
    foldl (fun t p => <[p.1 := p.2]> t) t (zip x (replicate (length x) c)) !! d
    = if decide (d ∈ x) then Some c else t !! d) as Hgen.
  { induction x as [|b x IH]; intros t; simpl.
    - done.
    - rewrite IH. destruct (decide (d ∈ x)) as [Hin|Hnin];
        destruct (decide (d ∈ b :: x)) as [Hin'|Hnin']; try done.
      + destruct Hnin'. by right.
      + apply elem_of_cons in Hin' as [->|?]; [|done]. apply lookup_insert_eq.
      + apply lookup_insert_ne. intros ->. apply Hnin'. left. }
  rewrite Hgen. by rewrite lookup_empty.
Qed.

Definition nonspace (c : N) : Prop := isspace c = false.

(** The words of [split]: not empty, free of white space, and parts of the
    text. *)
Lemma split_from_spec cur s word :
  Forall nonspace cur ->
  word ∈ split_from cur s ->
  word ≠ [] /\ Forall nonspace word /\
  exists pre post, reverse cur ++ s = pre ++ word ++ post.
Proof.
  assert (forall b (run : list N), Forall nonspace (b :: run) ->
    reverse (b :: run) ≠ [] /\ Forall nonspace (reverse (b :: run))) as Hrun.
  { clear. intros b cur Hcur. split.
    - intros Hnil. apply (f_equal length) in Hnil.
      rewrite length_reverse in Hnil. simpl in Hnil. lia.
    - rewrite Forall_forall in *. intros y Hy. apply Hcur.
      by rewrite elem_of_reverse in Hy. }
  revert cur. induction s as [|c s IH]; intros cur Hcur; simpl.
  - destruct cur as [|b cur]; [by intros ?%elem_of_nil|].
    intros ->%list_elem_of_singleton. destruct (Hrun b cur Hcur).
    split_and!; [done..|]. exists [], []. by rewrite app_nil_r.
  - destruct (isspace c) eqn:Hc.
    + assert (word ∈ split_from [] s ->
        word ≠ [] /\ Forall nonspace word /\
        exists pre post, reverse cur ++ c :: s = pre ++ word ++ post) as Hrest.
      { intros (? & ? & pre & post & Heq)%IH; [|constructor].
        split_and!; [done..|]. simpl in Heq. rewrite Heq.
        exists (reverse cur ++ c :: pre), post. by rewrite <- app_assoc. }
      destruct cur as [|b cur]; [apply Hrest|].
      intros [->|Hin]%elem_of_cons; [|by apply Hrest].
      destruct (Hrun b cur Hcur). split_and!; [done..|].
      by exists [], (c :: s).
    + intros (? & ? & pre & post & Heq)%IH; [|by constructor].
      split_and!; [done..|]. exists pre, post. rewrite <- Heq.
      rewrite reverse_cons. by rewrite <- app_assoc.
Qed.

Lemma split_spec s word :
  word ∈ split s ->
  word ≠ [] /\ Forall nonspace word /\ exists pre post, s = pre ++ word ++ post.
Proof. intros H. by apply (split_from_spec [] s word) in H. Qed.

Lemma elem_of_concat {A} (x : A) (ls : list (list A)) :
  x ∈ concat ls <-> exists l, x ∈ l /\ l ∈ ls.
Proof.
  rewrite list_elem_of_In, in_concat. split.
  - intros (l & ? & ?). exists l. by rewrite !list_elem_of_In.
  - intros (l & ? & ?). exists l. by rewrite <- !list_elem_of_In.
Qed.

(** [Counter(l)[x]] is the number of occurrences of [x] in [l]. *)
Definition occurrences (x : pystr) (l : list pystr) : nat :=
  length (filter (fun y => y = x) l).

Lemma occurrences_0 x l : x ∉ l -> occurrences x l = 0%nat.
Proof.
  unfold occurrences. induction l as [|y l IH]; [done|].
  rewrite not_elem_of_cons, filter_cons. intros [Hne Hnin].
  rewrite decide_False by congruence. by apply IH.
Qed.

Lemma Counter_get0 l x : get0 (Counter l) x = Z.of_nat (occurrences x l).
Proof.
  unfold Counter, get0, occurrences.
  assert (forall (c : gmap (list N) Z),
    default 0 (foldl (fun c y => <[y := default 0 (c !! y) + 1]> c) c l !! x)
    = default 0 (c !! x) + Z.of_nat (length (filter (fun y => y = x) l))) as Hgen.
  { induction l as [|y l IH]; intros c; simpl; [lia|].
    rewrite IH. rewrite filter_cons. destruct (decide (y = x)) as [->|Hne].
    - rewrite lookup_insert_eq. simpl. lia.
    - by rewrite lookup_insert_ne. }
  rewrite Hgen, lookup_empty. simpl. lia.
Qed.

Lemma Counter_dom l x : x ∈ dom (Counter l) <-> x ∈ l.
Proof.
  unfold Counter.
  assert (forall (c : gmap (list N) Z),
    x ∈ dom (foldl (fun c y => <[y := default 0 (c !! y) + 1]> c) c l)
    <-> x ∈ dom c \/ x ∈ l) as Hgen.
  { induction l as [|y l IH]; intros c; simpl.
    - rewrite elem_of_nil. tauto.
    - rewrite IH, dom_insert_L, elem_of_union, elem_of_singleton, elem_of_cons.
      tauto. }
  rewrite Hgen, dom_empty_L, elem_of_empty. tauto.
Qed.

(** *** Fields padded with spaces *)

Lemma split_from_word cur word s :
  Forall nonspace word ->
  split_from cur (word ++ s) = split_from (reverse word ++ cur) s.
Proof.
  intros Hword. revert cur.
  induction Hword as [|c word Hc _ IH]; intros cur; simpl; [done|].
  rewrite Hc, IH, reverse_cons, <- app_assoc. done.
Qed.

Lemma split_from_spaces n s : split_from [] (replicate n space ++ s) = split_from [] s.
Proof. induction n as [|n IH]; simpl; done. Qed.

(** *** What [split] yields *)

(** [fields t toks]: [toks] are the maximal runs of non-space characters of
    [t], in order.  [t] reads gap, token, gap, token, ..., tail, where the
    gaps and the tail are white space, every gap but the first is not empty,
    and every token is not empty and holds no white space. *)
Definition fields (t : pystr) (toks : list pystr) : Prop :=
  exists (gaps : list pystr) (tail : pystr),
    length gaps = length toks /\
    Forall (Forall (fun c => isspace c = true)) (tail :: gaps) /\
    Forall (fun g => g ≠ []) (drop 1 gaps) /\
    Forall (fun word => word ≠ [] /\ Forall nonspace word) toks /\
    t = concat (zip_with app gaps toks) ++ tail.

Lemma split_from_blank sp s :
  Forall (fun c => isspace c = true) sp -> split_from [] (sp ++ s) = split_from [] s.
Proof. induction 1 as [|c sp Hc _ IH]; simpl; [done|]. by rewrite Hc. Qed.

Lemma split_blank s : Forall (fun c => isspace c = true) s -> split s = [].
Proof.
  intros Hs. unfold split. rewrite <- (app_nil_r s), split_from_blank by done. done.
Qed.

(** A run of non-space characters that ends the text or is followed by
    white space is the next word. *)
Lemma split_from_run word rest :
  word ≠ [] -> Forall nonspace word ->
  rest = [] \/ (exists c r, rest = c :: r /\ isspace c = true) ->
  split_from [] (word ++ rest) = word :: split_from [] rest.
Proof.
  intros Hne Hword Hrest. rewrite split_from_word, app_nil_r by done.
  assert (exists b run, reverse word = b :: run) as (b & run & Hrev).
  { destruct (reverse word) as [|b run] eqn:Hrev; [|by eexists _, _].
    apply (f_equal length) in Hrev. rewrite length_reverse in Hrev.
    by destruct word. }
  destruct Hrest as [->|(c & r & -> & Hc)]; simpl.
  - by rewrite Hrev, <- Hrev, reverse_involutive.
  - by rewrite Hc, Hrev, <- Hrev, reverse_involutive.
Qed.

Lemma fields_unique t toks : fields t toks -> toks = split t.
Proof.
  intros (gaps & tail & Hlen & Hsp & Hgaps & Htoks & ->).
  apply Forall_cons in Hsp as [Htail Hsp]. unfold split.
  revert gaps Hlen Hsp Hgaps. induction Htoks as [|word toks [Hne Hword] _ IH];
    intros gaps Hlen Hsp Hgaps.
  - destruct gaps; [|done]. simpl. symmetry. by apply split_blank.
  - destruct gaps as [|g gaps]; [done|]. simpl in Hlen, Hgaps.
    apply Forall_cons in Hsp as [Hg Hsp]. simpl.
    rewrite <- !app_assoc. rewrite split_from_blank by done.
    rewrite split_from_run; [|done|done|].
    + f_equal. apply IH; [lia|done|].
      destruct gaps; [constructor|]. by apply Forall_cons in Hgaps as [_ ?].
    + destruct toks as [|word' toks]; [destruct gaps; [|done]|].
      * simpl. destruct tail as [|c tail]; [by left|right].
        apply Forall_cons in Htail as [Hc _]. by eexists _, _.
      * destruct gaps as [|g' gaps]; [done|].
        apply Forall_cons in Hgaps as [Hg' _]. apply Forall_cons in Hsp as [Hsp' _].
        destruct g' as [|c g']; [done|]. right.
        apply Forall_cons in Hsp' as [Hc _]. simpl. by eexists _, _.
Qed.

Lemma fields_exist t : exists toks, fields t toks.
Proof.
  induction t as [|c t (toks & gaps & tail & Hlen & Hsp & Hgaps & Htoks & ->)].
  - exists [], [], []. split_and!; by repeat constructor.
  - apply Forall_cons in Hsp as [Htail Hsp].
    destruct gaps as [|g gaps], toks as [|word toks]; try done.
    + destruct (isspace c) eqn:Hc.
      * exists [], [], (c :: tail).
        split_and!; repeat first [assumption | done | constructor].
      * exists [[c]], [[]], tail.
        split_and!; repeat first [assumption | done | constructor].
    + apply Forall_cons in Hsp as [Hg Hsp].
      apply Forall_cons in Htoks as [[Hne Hword] Htoks].
      simpl in Hlen, Hgaps.
      destruct (isspace c) eqn:Hc; [|destruct g as [|b g]].
      * exists (word :: toks), ((c :: g) :: gaps), tail.
        split_and!; repeat first [assumption | done | constructor].
      * exists ((c :: word) :: toks), ([] :: gaps), tail.
        split_and!; repeat first [assumption | done | constructor].
      * exists ([c] :: word :: toks), ([] :: (b :: g) :: gaps), tail.
        split_and!; [simpl; lia|..]; repeat first [assumption | done | constructor].
Qed.

(** [split] yields exactly the fields of the text. *)
Lemma fields_split t : fields t (split t).
Proof. destruct (fields_exist t) as [toks Ht]. by rewrite <- (fields_unique t toks Ht). Qed.

(** A field: spaces, a word, at least one space. *)
Lemma split_field l word r s :
  word ≠ [] -> Forall nonspace word -> (0 < r)%nat ->
  split_from [] (replicate l space ++ word ++ replicate r space ++ s)
  = word :: split_from [] s.
Proof.
  intros Hne Hword Hr. rewrite split_from_spaces, split_from_word by done.
  rewrite app_nil_r. destruct r as [|r]; [lia|]. simpl.
  destruct (reverse word) as [|c rw] eqn:Hrev.
  - apply (f_equal length) in Hrev. rewrite length_reverse in Hrev.
    destruct word; [done|discriminate].
  - rewrite <- Hrev, reverse_involutive. by rewrite split_from_spaces.
Qed.

Lemma ljust_short word width :
  (length word < width)%nat ->
  exists r, (0 < r)%nat /\ ljust word width = word ++ replicate r space.
Proof. intros Hlen. exists (width - length word)%nat. split; [lia|done]. Qed.

Lemma center_short_8 word :
  (length word < 8)%nat ->
  exists l r, (0 < r)%nat /\
    center word 8 = replicate l space ++ word ++ replicate r space.
Proof.
  intros Hlen. unfold center. simpl Nat.odd. rewrite andb_false_r, Nat.add_0_r.
  eexists _, _. split; [|reflexivity].
  assert ((8 - length word) / 2 < 8 - length word)%nat; [|lia].
  apply Nat.div_lt; lia.
Qed.

(** The text of an int: digits, after a minus sign if negative. *)
Definition digit_or_minus (c : N) : Prop := (48 <= c <= 57)%N \/ c = 45%N.

Lemma ustr_cons c s : ustr (String c s) = N_of_ascii c :: ustr s.
Proof. reflexivity. Qed.

Lemma string_of_uint_digits u :
  Forall digit_or_minus (ustr (NilEmpty.string_of_uint u)).
Proof.
  induction u; simpl; try rewrite ustr_cons; constructor; try done;
    left; vm_compute; split; discriminate.
Qed.

Lemma nilzero_digits u :
  ustr (NilZero.string_of_uint u) ≠ [] /\
  Forall digit_or_minus (ustr (NilZero.string_of_uint u)).
Proof.
  destruct u; (split; [done|]);
    try (apply (string_of_uint_digits (Decimal.D0 u)));
    try (apply (string_of_uint_digits (Decimal.D1 u)));
    try (apply (string_of_uint_digits (Decimal.D2 u)));
    try (apply (string_of_uint_digits (Decimal.D3 u)));
    try (apply (string_of_uint_digits (Decimal.D4 u)));
    try (apply (string_of_uint_digits (Decimal.D5 u)));
    try (apply (string_of_uint_digits (Decimal.D6 u)));
    try (apply (string_of_uint_digits (Decimal.D7 u)));
    try (apply (string_of_uint_digits (Decimal.D8 u)));
    try (apply (string_of_uint_digits (Decimal.D9 u))).
  repeat constructor; discriminate.
Qed.

Lemma str_of_int_digits z :
  str_of_int z ≠ [] /\ Forall digit_or_minus (str_of_int z).
Proof.
  unfold str_of_int. destruct (Z.to_int z) as [u|u].
  - apply nilzero_digits.
  - change (NilZero.string_of_int (Decimal.Neg u))
      with (String "-" (NilZero.string_of_uint u)).
    rewrite ustr_cons. split; [done|]. constructor; [by right|].
    apply nilzero_digits.
Qed.

Lemma digit_or_minus_nonspace c : digit_or_minus c -> nonspace c /\ c ≠ newline.
Proof.
  unfold digit_or_minus, nonspace, isspace, newline. intros [Hc| ->].
  - split; [|lia].
    repeat match goal with
    | |- context [(?x <=? ?y)%N] => destruct (N.leb_spec x y); try lia
    | |- context [(?x =? ?y)%N] => destruct (N.eqb_spec x y); try lia
    end; done.
  - done.
Qed.

End PyFacts.
Import PyFacts.

(** * The NMF notebook: tokens, word list, data matrix, table, categories *)
Module NmfFacts.
Import Nmf.

(** Normal form of an environment after a cell, and one pure statement of
    a cell. *)
Ltac env_norm :=
  unfold set_links, set_n_links, set_dicts, set_titles, set_words_set,
    set_words, set_masterdict, set_a, set_f2, set_k, set_w, set_h,
    set_resnorm, set_display_h, set_stdout;
  cbn [fst snd links n_links dicts titles words_set words masterdict a f2 k
       w h resnorm display_h stdout].
Ltac pure_step := erewrite bind_pure by reflexivity; env_norm.

(** ** Tokenization (cell 5) *)

Lemma trans_lookup d :
  trans !! d = if decide (d ∈ punctuation) then Some space else None.
Proof. apply maketrans_times. Qed.

(** [translate(trans)] puts a space for each punctuation character and
    keeps every other character. *)
Definition blank_punctuation (c : N) : N :=
  if decide (c ∈ punctuation) then space else c.

Lemma translate_trans para : translate trans para = blank_punctuation <$> para.
Proof.
  unfold translate. apply list_fmap_ext. intros _ c _.
  unfold blank_punctuation. rewrite trans_lookup. by case_decide.
Qed.

Lemma pagewords_of_concat paras :
  pagewords_of paras = concat ((fun para => split (translate trans para)) <$> paras).
Proof.
  unfold pagewords_of.
  assert (forall acc,
    foldl (fun pw para => pw ++ split (translate trans para)) acc paras
    = acc ++ concat ((fun para => split (translate trans para)) <$> paras)) as Hgen.
  { induction paras as [|para paras IH]; intros acc; simpl.
    - by rewrite app_nil_r.
    - by rewrite IH, app_assoc. }
  apply Hgen.
Qed.

(** A token of a paragraph holds no punctuation and no white space, and is
    a piece of the paragraph itself. *)
Lemma token_of_para para word :
  word ∈ split (translate trans para) ->
  word ≠ [] /\
  Forall (fun c => (c ∉ punctuation) /\ isspace c = false) word /\
  exists pre post, para = pre ++ word ++ post.
Proof.
  intros (Hne & Hns & pre & post & Heq)%split_spec.
  rewrite translate_trans in Heq.
  apply fmap_app_inv in Heq as (pre' & rest & -> & Hrest & ->).
  symmetry in Hrest. apply fmap_app_inv in Hrest as (mid & post' & -> & -> & ->).
  assert (Forall (fun c => c ∉ punctuation) mid) as Hmid.
  { rewrite Forall_forall. intros c Hc Hp.
    rewrite Forall_forall in Hns.
    assert (blank_punctuation c ∈ blank_punctuation <$> mid) as Hin
      by (by apply list_elem_of_fmap_2).
    apply Hns in Hin. unfold blank_punctuation in Hin.
    rewrite decide_True in Hin by done. discriminate Hin. }
  assert (blank_punctuation <$> mid = mid) as Hid.
  { rewrite <- (list_fmap_id mid) at 2. apply Forall_fmap_ext_1.
    eapply Forall_impl; [exact Hmid|]. intros c Hc. unfold blank_punctuation.
    by rewrite decide_False. }
  rewrite Hid in *. split_and!; [done| |by exists pre', post'].
  rewrite Forall_forall in *. intros c Hc. split; [by apply Hmid|by apply Hns].
Qed.

Lemma fields_of_paras (paras : list pystr) (tokss : list (list pystr)) :
  Forall2 (fun para toks => fields (blank_punctuation <$> para) toks) paras tokss ->
  (fun para => split (blank_punctuation <$> para)) <$> paras = tokss.
Proof.
  induction 1 as [|para toks paras tokss Htoks _ IH]; [done|].
  rewrite fmap_cons, IH. f_equal. symmetry. by apply fields_unique.
Qed.

(** C5: the tokens of a page are obtained by putting a space for every
    ASCII punctuation character of each paragraph of the lowercased page and
    splitting the result at white space: for each paragraph they are the
    maximal runs of characters other than white space of the paragraph with
    its punctuation blanked, in order, and the paragraphs follow each other
    in page order; this determines the token list.  No token holds a
    punctuation character (or white space, or is empty), and every token is
    a piece of the lowercased page text. *)
Theorem tokens_split_on_punctuation (lower : pystr -> pystr) (page : pystr) :
  (exists tokss,
     Forall2 (fun para toks => fields (blank_punctuation <$> para) toks)
       (page_paras lower page) tokss /\
     pagewords_of (page_paras lower page) = concat tokss)
  /\ (forall tokss,
        Forall2 (fun para toks => fields (blank_punctuation <$> para) toks)
          (page_paras lower page) tokss ->
        pagewords_of (page_paras lower page) = concat tokss)
  /\ pagewords_of (page_paras lower page)
     = concat ((fun para => split (blank_punctuation <$> para)) <$> page_paras lower page)
  /\ Forall (fun para => length (translate trans para) = length para /\
               forall i c, para !! i = Some c ->
                 translate trans para !! i
                 = Some (if decide (c ∈ punctuation) then space else c))
       (page_paras lower page)
  /\ Forall (fun word =>
               word ≠ [] /\
               Forall (fun c => (c ∉ punctuation) /\ isspace c = false) word /\
               exists pre post, lower page = pre ++ word ++ post)
       (pagewords_of (page_paras lower page)).
Proof.
  assert (pagewords_of (page_paras lower page)
          = concat ((fun para => split (blank_punctuation <$> para))
                      <$> page_paras lower page)) as Hwords.
  { rewrite pagewords_of_concat. f_equal. apply list_fmap_ext.
    intros _ para _. by rewrite translate_trans. }
  split_and!.
  - eexists. split; [|exact Hwords].
    apply Forall2_fmap_r, Forall_Forall2_diag, Forall_forall.
    intros para _. apply fields_split.
  - intros tokss Hall. rewrite Hwords. f_equal. by apply fields_of_paras.
  - exact Hwords.
  - rewrite Forall_forall. intros para _. rewrite translate_trans. split.
    + apply length_fmap.
    + intros i c Hi. rewrite list_lookup_fmap, Hi. done.
  - rewrite Forall_forall. intros word Hword.
    rewrite pagewords_of_concat in Hword.
    apply elem_of_concat in Hword as (toks & Hword & Htoks).
    apply list_elem_of_fmap in Htoks as (para & -> & Hpara).
    apply token_of_para in Hword as (Hne & Hchars & pre & post & ->).
    split_and!; [done..|].
    apply findall_spec in Hpara as [(pre' & post' & ->) _].
    exists (pre' ++ ustr "<p>" ++ pre), (post ++ ustr "</p>" ++ post').
    by rewrite <- !app_assoc.
Qed.

(** The tokens of one paragraph with an apostrophe, a hyphen, two spaces in
    a row and a tab. *)
Example tokens_demo :
  pagewords_of [ustr "it's  a no-deal" ++ [9%N] ++ ustr "brexit, ok! "]
  = ustr <$> ["it"; "s"; "a"; "no"; "deal"; "brexit"; "ok"]%string.
Proof. vm_compute. reflexivity. Qed.

(** ** The word list (cells 14 to 19) *)

Lemma startswith_char word c :
  startswith word [c] = false <-> head word ≠ Some c.
Proof.
  destruct word as [|b word]; simpl; [done|].
  rewrite andb_true_r. rewrite N.eqb_neq. split; congruence.
Qed.

Definition is_digit (c : N) : Prop := (48 <= c <= 57)%N.

(** What the three cells keep. *)
Definition kept (word : pystr) : Prop :=
  (word ∉ stopwords) /\ (4 <= length word)%nat /\
  head word ≠ Some 163%N /\ ~ (exists d, is_digit d /\ head word = Some d).

(** The eleven filters of cell 19, then all thirteen. *)
Definition drop_pound_digits (l : list pystr) : list pystr :=
  filter (fun word => startswith word (ustr "0") = false)
  (filter (fun word => startswith word (ustr "9") = false)
  (filter (fun word => startswith word (ustr "8") = false)
  (filter (fun word => startswith word (ustr "7") = false)
  (filter (fun word => startswith word (ustr "6") = false)
  (filter (fun word => startswith word (ustr "5") = false)
  (filter (fun word => startswith word (ustr "4") = false)
  (filter (fun word => startswith word (ustr "3") = false)
  (filter (fun word => startswith word (ustr "2") = false)
  (filter (fun word => startswith word (ustr "1") = false)
  (filter (fun word => startswith word pound = false) l)))))))))).

Definition clean_words (l : list pystr) : list pystr :=
  drop_pound_digits
    (filter (fun word => ¬ (length word < 4)%nat)
    (filter (fun word => word ∉ stopwords) l)).

Lemma cell_19_pure e :
  cell_19 e = Ret (Ok tt, set_words (drop_pound_digits (words e)) e).
Proof. destruct e. unfold cell_19. do 10 pure_step. reflexivity. Qed.

Lemma cleaning_cells e :
  (cell_14;;; cell_16;;; cell_19) e
  = Ret (Ok tt, set_words (clean_words (elements (words_set e))) e).
Proof.
  destruct e. do 2 pure_step. rewrite cell_19_pure. reflexivity.
Qed.

Lemma elem_of_clean_words l word :
  word ∈ clean_words l <-> word ∈ l /\ kept word.
Proof.
  unfold clean_words, drop_pound_digits, kept. rewrite !list_elem_of_filter.
  change (ustr "0") with [48%N]. change (ustr "1") with [49%N].
  change (ustr "2") with [50%N]. change (ustr "3") with [51%N].
  change (ustr "4") with [52%N]. change (ustr "5") with [53%N].
  change (ustr "6") with [54%N]. change (ustr "7") with [55%N].
  change (ustr "8") with [56%N]. change (ustr "9") with [57%N].
  unfold pound. rewrite !startswith_char. unfold is_digit. split.
  - intros (H0 & H9 & H8 & H7 & H6 & H5 & H4 & H3 & H2 & H1 & Hp & Hlen & Hstop & Hin).
    split_and!; [done|done|lia|done|].
    intros (d & Hd & Hhead).
    assert (d = 48 \/ d = 49 \/ d = 50 \/ d = 51 \/ d = 52 \/ d = 53
            \/ d = 54 \/ d = 55 \/ d = 56 \/ d = 57)%N as Hcases by lia.
    destruct Hcases as [->|[->|[->|[->|[->|[->|[->|[->|[->| ->]]]]]]]]]; done.
  - intros (Hin & Hstop & Hlen & Hp & Hdig).
    split_and!; try done; try lia;
      intros Hhead; apply Hdig; eexists; (split; [|exact Hhead]); lia.
Qed.

Lemma clean_words_sublist l : sublist (clean_words l) l.
Proof.
  unfold clean_words, drop_pound_digits.
  repeat (etrans; [apply sublist_filter|]). done.
Qed.

(** C2: a word of the set is in the final list if and only if it is not a
    stopword, has at least 4 characters and starts neither with the pound
    sign nor with one of the digits 0 to 9; the list is a sublist of the
    elements of the set (words are only removed), without repetition. *)
Theorem kept_words_characterised (e : env) :
  exists e',
    (cell_14;;; cell_16;;; cell_19) e = Ret (Ok tt, e') /\
    (forall word, word ∈ words e' <->
       word ∈ words_set e /\
       (word ∉ stopwords) /\ (4 <= length word)%nat /\
       head word ≠ Some 163%N /\
       ~ (exists d, (48 <= d <= 57)%N /\ head word = Some d)) /\
    sublist (words e') (elements (words_set e)) /\
    NoDup (words e').
Proof.
  eexists. split; [apply cleaning_cells|]. cbn [words set_words]. split_and!.
  - intros word. rewrite elem_of_clean_words.
    by rewrite (elem_of_elements (words_set e)).
  - apply clean_words_sublist.
  - eapply sublist_NoDup; [|apply clean_words_sublist]. apply NoDup_elements.
Qed.

(** ** The parsing loop (cell 5) *)

(** What a run fetched: the links opened and the bodies read, in order. *)
Definition opened (ev : event ext) : option pystr :=
  match ev_call ev with
  | Urlopen link => Some link
  | _ => None
  end.

Definition body_read (ev : event ext) : option (list N) :=
  match ev with
  | Event _ c r =>
      match c in ext T return result T -> option (list N) with
      | HttpRead _ => fun r => match r with Ok b => Some b | Raise _ => None end
      | _ => fun _ => None
      end r
  end.

(** Every other element of a list, from the first and from the second. *)
Fixpoint evens {A} (l : list A) : list A :=
  match l with
  | [] => []
  | y :: l' => y :: match l' with [] => [] | _ :: l'' => evens l'' end
  end.

Definition odds {A} (l : list A) : list A := evens (tail l).

Section pages.
Variable decode : list N -> result pystr.
Variable lower : pystr -> pystr.

(** The tokens and the title that a body gives. *)
Definition doc_words (b : list N) : list pystr :=
  match decode b with
  | Ok page => pagewords_of (page_paras lower page)
  | Raise _ => []
  end.

Definition doc_title (b : list N) : list pystr :=
  match decode b with
  | Ok page => page_title page
  | Raise _ => []
  end.

Lemma parse_link_run {W} (hd : handler ext W) link e wd e' tr wd' :
  run hd (parse_link decode lower link e) wd = ((Ok tt, e'), tr, wd') ->
  exists b1 b2,
    opened <$> tr = [Some link; None; Some link; None] /\
    omap body_read tr = [b1; b2] /\
    dicts e' = dicts e ++ [Counter (doc_words b1)] /\
    titles e' = titles e ++ [doc_title b2] /\
    words_set e' = words_set e ∪ dom (Counter (doc_words b1)) /\
    links e' = links e /\ n_links e' = n_links e.
Proof.
  unfold parse_link, print. intros H. run_inv H.
  apply run_modify_ok in H as (-> & -> & ->).
  exists v0, v3. unfold doc_words, doc_title. rewrite Hrun1, Hrun4.
  by split_and!.
Qed.

Lemma parse_loop_run {W} (hd : handler ext W) ls e wd e' tr wd' :
  run hd (for_each ls (parse_link decode lower) e) wd = ((Ok tt, e'), tr, wd') ->
  omap opened tr = ls ≫= (fun link => [link; link]) /\
  length (omap body_read tr) = (2 * length ls)%nat /\
  dicts e' = dicts e ++ (Counter <$> (doc_words <$> evens (omap body_read tr))) /\
  titles e' = titles e ++ (doc_title <$> odds (omap body_read tr)) /\
  words_set e' = words_set e ∪ ⋃ (dom <$> (Counter <$> (doc_words <$> evens (omap body_read tr)))) /\
  links e' = links e /\ n_links e' = n_links e.
Proof.
  revert e wd tr. induction ls as [|link ls IH]; intros e wd tr.
  - simpl. intros [= <- <- <-]. simpl. rewrite !app_nil_r, union_empty_r_L.
    by split_and!.
  - cbn [for_each]. intros H.
    apply run_bind_ok in H as ([] & e1 & tr1 & w1 & tr2 & Hlink & Hloop & ->).
    apply parse_link_run in Hlink
      as (b1 & b2 & Hopen & Hread & Hd & Ht & Hw & Hl & Hn).
    apply IH in Hloop as (Hopen' & Hlen' & Hd' & Ht' & Hw' & Hl' & Hn').
    rewrite !omap_app, Hread.
    assert (omap opened tr1 = [link; link]) as ->.
    { destruct tr1 as [|? [|? [|? [|? [|]]]]]; try discriminate Hopen.
      injection Hopen as H1 H2 H3 H4. simpl. by rewrite H1, H2, H3, H4. }
    rewrite Hopen'. simpl. unfold odds in *. simpl.
    rewrite Hd', Hd, Ht', Ht, Hw', Hw, Hl', Hl, Hn', Hn, Hlen'.
    rewrite <- !app_assoc. simpl. split_and!; try done.
    + lia.
    + by destruct (omap body_read tr2).
    + by rewrite <- (assoc_L (∪)).
Qed.

(** Cell 5 as a whole: the links are those read from the file; every link
    is opened twice; the dictionaries come from the first body read for
    each link, the titles from the second. *)
Lemma cell_5_run {W} (hd : handler ext W) e wd e' tr wd' :
  run hd (cell_5 decode lower e) wd = ((Ok tt, e'), tr, wd') ->
  n_links e' = length (links e') /\
  omap opened tr = links e' ≫= (fun link => [link; link]) /\
  length (omap body_read tr) = (2 * length (links e'))%nat /\
  dicts e' = Counter <$> (doc_words <$> evens (omap body_read tr)) /\
  titles e' = doc_title <$> odds (omap body_read tr) /\
  words_set e' = ⋃ (dom <$> dicts e').
Proof.
  unfold cell_5, print. intros H. run_inv H.
  apply parse_loop_run in H as (Hopen & Hlen & Hd & Ht & Hw & Hl & Hn).
  cbn [app omap opened body_read ev_call] in *.
  rewrite Hl, Hn, Hd, Ht, Hw. cbn. rewrite union_empty_l_L.
  by split_and!.
Qed.
End pages.

(** ** The data matrix (cell 23) *)

Lemma dict_set_fresh {V} (d : list (pystr * V)) key v :
  key ∉ d.*1 -> dict_set d key v = d ++ [(key, v)].
Proof.
  induction d as [|[key' v'] d IH]; simpl; [done|].
  rewrite not_elem_of_cons. intros [Hne Hnin].
  rewrite decide_False by done. by rewrite IH.
Qed.

(** Filling a dict from distinct keys lists them in order. *)
Lemma dict_fill {V} (f : pystr -> V) ws (d : list (pystr * V)) :
  NoDup ws -> (forall key, key ∈ ws -> key ∉ d.*1) ->
  foldl (fun d word => dict_set d word (f word)) d ws
  = d ++ ((fun word => (word, f word)) <$> ws).
Proof.
  revert d. induction ws as [|word ws IH]; intros d Hnd Hfresh; simpl.
  - by rewrite app_nil_r.
  - apply NoDup_cons in Hnd as [Hword Hnd].
    rewrite dict_set_fresh by (apply Hfresh; left).
    rewrite IH; [by rewrite <- app_assoc|done|].
    intros key Hkey. rewrite fmap_app, not_elem_of_app. split.
    + apply Hfresh. by right.
    + simpl. rewrite list_elem_of_singleton. by intros ->.
Qed.

(** The rows of the matrix: [freqs] for each word. *)
Definition freqs_of (ds : list (gmap pystr Z)) (word : pystr) : list Z :=
  (fun dic => get0 dic word) <$> ds.

Lemma add_words_fold ws e :
  foldl (fun e word =>
           set_masterdict (dict_set (masterdict e) word (freqs_of (dicts e) word)) e)
        e ws
  = set_masterdict
      (foldl (fun d word => dict_set d word (freqs_of (dicts e) word))
             (masterdict e) ws) e.
Proof.
  revert e. induction ws as [|word ws IH]; intros e; simpl.
  - by destruct e.
  - rewrite IH. by destruct e.
Qed.

Lemma cell_23_pure e :
  NoDup (words e) ->
  exists e',
    cell_23 e = Ret (Ok tt, e') /\
    a e' = freqs_of (dicts e) <$> words e /\
    words e' = words e /\ dicts e' = dicts e /\ titles e' = titles e /\
    links e' = links e /\ n_links e' = n_links e.
Proof.
  intros Hnd. unfold cell_23, print.
  rewrite (bind_pure _ _ e tt (set_masterdict [] e)) by reflexivity.
  rewrite (bind_pure _ _ _ tt _) by reflexivity.
  rewrite (bind_pure _ _ _ _ _) by reflexivity.
  unfold bind at 1.
  rewrite (for_each_pure add_word (fun word e =>
    set_masterdict (dict_set (masterdict e) word (freqs_of (dicts e) word)) e))
    by reflexivity.
  rewrite add_words_fold. cbn [pbind fst snd].
  eexists. split; [reflexivity|]. cbn.
  rewrite dict_fill; [|done|by intros ? _ ?%elem_of_nil].
  rewrite app_nil_l, <- list_fmap_compose. by split_and!.
Qed.

(** ** From the URL file to the data matrix (cells 2 to 24) *)

Lemma cell_2_run {W} (hd : handler ext W) e wd e' tr wd' :
  run hd (cell_2 e) wd = ((Ok tt, e'), tr, wd') ->
  omap opened tr = [] /\ omap body_read tr = [] /\ exists v, e' = set_stdout v e.
Proof.
  unfold cell_2, print. intros H. run_inv H.
  apply run_modify_ok in H as (-> & -> & ->). split_and!; [done..|].
  by eexists.
Qed.

Lemma cell_7_run {W} (hd : handler ext W) e wd e' tr wd' :
  run hd (cell_7 e) wd = ((Ok tt, e'), tr, wd') ->
  tr = [] /\ exists v, e' = set_stdout v e.
Proof.
  unfold cell_7, print. intros H. run_inv H.
  apply run_modify_ok in H as (-> & -> & ->). split; [done|]. by eexists.
Qed.

(** Cells 9 to 20 only clean the word list (and show its size). *)
Lemma cells_9_to_20 (rest : script unit) e :
  exists v,
    (cell_9;;; cell_14;;; cell_16;;; cell_17;;; cell_19;;; cell_20;;; rest) e
    = rest (set_stdout v (set_words (clean_words (elements (words_set e))) e)).
Proof.
  destruct e. eexists. do 4 pure_step.
  rewrite (bind_pure _ _ _ _ _ (cell_19_pure _)). env_norm.
  pure_step. reflexivity.
Qed.

Section matrix.
Variable decode : list N -> result pystr.
Variable lower : pystr -> pystr.

(** The documents of a run: the tokens of the first body read for each
    link, in the order of the links. *)
Definition documents (tr : list (event ext)) : list (list pystr) :=
  doc_words decode lower <$> evens (omap body_read tr).

Lemma build_matrix_run {W} (hd : handler ext W) e0 wd e' tr wd' :
  run hd (build_matrix decode lower e0) wd = ((Ok tt, e'), tr, wd') ->
  omap opened tr = links e' ≫= (fun link => [link; link]) /\
  length (omap body_read tr) = (2 * length (links e'))%nat /\
  n_links e' = length (links e') /\
  dicts e' = Counter <$> documents tr /\
  titles e' = doc_title decode <$> odds (omap body_read tr) /\
  (forall word, word ∈ words e' <->
     (exists doc, doc ∈ documents tr /\ word ∈ doc) /\ kept word) /\
  NoDup (words e') /\
  a e' = freqs_of (dicts e') <$> words e'.
Proof.
  unfold build_matrix. intros H.
  apply run_bind_ok in H as ([] & e2 & tr2 & w2 & tr2' & H2 & H & ->).
  apply cell_2_run in H2 as (Ho2 & Hb2 & v2 & ->).
  apply run_bind_ok in H as ([] & e5 & tr5 & w5 & tr5' & H5 & H & ->).
  apply cell_5_run in H5 as (Hn & Hopen & Hlen & Hd & Ht & Hw).
  apply run_bind_ok in H as ([] & e7 & tr7 & w7 & tr7' & H7 & H & ->).
  apply cell_7_run in H7 as (-> & v7 & ->).
  destruct (cells_9_to_20 (cell_23;;; cell_24) (set_stdout v7 e5)) as [v20 Heq].
  rewrite Heq in H. clear Heq.
  set (e20 := set_stdout v20 _) in H.
  assert (NoDup (words e20)) as Hnd.
  { cbn. eapply sublist_NoDup; [|apply clean_words_sublist].
    apply NoDup_elements. }
  destruct (cell_23_pure e20 Hnd)
    as (e23 & Heq & Ha & Hws & Hds & Hts & Hls & Hns).
  rewrite (bind_pure _ _ _ _ _ Heq) in H.
  simpl in H. injection H as <- <- <-. env_norm.
  rewrite Ha, Hws, Hds, Hts, Hls, Hns. subst e20. env_norm.
  unfold documents. rewrite !omap_app, Ho2, Hb2, !app_nil_r. cbn [app].
  rewrite <- Hd. split_and!; try done.
  intros word. rewrite elem_of_clean_words.
  rewrite (elem_of_elements (words_set e5)), Hw, elem_of_union_list.
  apply and_iff_compat_r. rewrite Hd. split.
  - intros (X & HX & Hword).
    apply list_elem_of_fmap in HX as (c & -> & Hc).
    apply list_elem_of_fmap in Hc as (doc & -> & Hdoc).
    exists doc. split; [done|]. by apply Counter_dom.
  - intros (doc & Hdoc & Hword). exists (dom (Counter doc)). split.
    + by apply list_elem_of_fmap_2, list_elem_of_fmap_2.
    + by apply Counter_dom.
Qed.
End matrix.

Lemma evens_length {A} (l : list A) n :
  length l = (2 * n)%nat -> length (evens l) = n.
Proof.
  revert l. induction n as [|n IH]; intros l Hl.
  - by destruct l.
  - destruct l as [|y [|z l]]; simpl in *; try lia.
    rewrite IH; [done|lia].
Qed.

Lemma entry_row {A} (x : list (list A)) i j row v :
  x !! i = Some row -> row !! j = Some v -> entry x i j = Ok v.
Proof. unfold entry, index. by intros -> ->. Qed.



Example demo_matrix :
  a Demo.matrix_run.1.1.2 = [[1; 0]; [0; 1]; [1; 0]; [1; 0]; [0; 2]; [3; 0]; [1; 0]]
  /\ words Demo.matrix_run.1.1.2
     = ustr <$> ["parliament"; "president"; "brexit"; "upper"; "trump";
                 "deal"; "done"]%string.
Proof. vm_compute. done. Qed.



(** ** The table of word counts (cell 27) *)

(** The line of a word: the word in 14 columns, each count in 8. *)
Definition table_line (v : pystr) (row : list Z) : pystr :=
  ljust v 14 ++ concat ((fun x => center (str_of_int x) 8) <$> row).

Lemma foldl_app_concat {A B} (f : B -> list A) (l : list B) (init : list A) :
  foldl (fun st y => st ++ f y) init l = init ++ concat (f <$> l).
Proof.
  revert init. induction l as [|y l IH]; intros init; simpl.
  - by rewrite app_nil_r.
  - by rewrite IH, app_assoc.
Qed.

Lemma header_eq n :
  header n
  = times space 14
    ++ concat ((fun i => ljust (ustr "link " ++ str_of_int (Z.of_nat i + 1)) 8)
               <$> seq 0 n).
Proof. apply foldl_app_concat. Qed.

Lemma word_line_ok arr n i v row :
  arr !! i = Some row -> length row = n ->
  word_line arr n i v = Ok (table_line v row).
Proof.
  intros Hrow Hlen. unfold word_line, table_line.
  assert (forall m, (m <= length row)%nat ->
    foldl (fun st j =>
             match st with
             | Ok st =>
                 match entry arr i j with
                 | Ok x => Ok (st ++ center (str_of_int x) 8)
                 | Raise err => Raise err
                 end
             | Raise err => Raise err
             end) (Ok (ljust v 14)) (seq 0 m)
    = Ok (ljust v 14
          ++ concat ((fun x => center (str_of_int x) 8) <$> take m row))) as Hgen.
  { induction m as [|m IH]; intros Hm.
    - simpl. by rewrite app_nil_r.
    - rewrite seq_S, foldl_app, IH by lia. cbn [foldl Nat.add].
      destruct (lookup_lt_is_Some_2 row m) as [x Hx]; [lia|].
      rewrite (entry_row arr i m row x) by done.
      rewrite (take_S_r row m x) by done.
      rewrite fmap_app, concat_app, <- app_assoc. simpl.
      by rewrite app_nil_r. }
  rewrite <- Hlen, Hgen by done. by rewrite firstn_all.
Qed.

(** The loop over the words, from the row [i0] on. *)
Lemma table_loop ws : forall rows i0 e,
  drop i0 (a e) = rows -> length rows = length ws ->
  Forall (fun row => length row = n_links e) rows ->
  for_each (zip (seq i0 (length ws)) ws)
    (fun iv => e <- get;;
               st <- lift (word_line (a e) (n_links e) iv.1 iv.2);;
               print_f2 st) e
  = Ret (Ok tt,
         set_f2 (f2 e ++ zip_with (fun v row => table_line v row ++ [newline]) ws rows) e).
Proof.
  induction ws as [|v ws IH]; intros rows i0 e Hdrop Hlen Hrows.
  - destruct rows; [|done]. simpl. rewrite app_nil_r. by destruct e.
  - destruct rows as [|row rows]; [done|].
    apply Forall_cons in Hrows as [Hrow Hrows].
    assert (a e !! i0 = Some row) as Hi0.
    { rewrite <- (Nat.add_0_r i0), <- lookup_drop, Hdrop. done. }
    cbn [length seq zip zip_with for_each].
    erewrite bind_pure; last first.
    { unfold pure_step, bind, get, lift, print_f2, modify. simpl.
      rewrite (word_line_ok _ _ _ _ row) by done. simpl. reflexivity. }
    rewrite (IH rows (S i0)).
    + destruct e; simpl. by rewrite <- app_assoc.
    + destruct e; simpl in *.
      replace (S i0) with (i0 + 1)%nat by lia.
      rewrite <- (drop_drop _ 1 i0), Hdrop. done.
    + simpl in Hlen. lia.
    + by destruct e.
Qed.

Lemma center_no_newline z width : Forall (fun c => c ≠ newline) (center (str_of_int z) width).
Proof.
  unfold center. rewrite !Forall_app. split_and!.
  - by apply Forall_replicate.
  - eapply Forall_impl; [apply str_of_int_digits|].
    intros c Hc. by apply digit_or_minus_nonspace.
  - by apply Forall_replicate.
Qed.

Lemma table_line_no_newline v row :
  Forall (fun c => c ≠ newline) v -> Forall (fun c => c ≠ newline) (table_line v row).
Proof.
  intros Hv. unfold table_line, ljust. rewrite !Forall_app. split_and!.
  - done.
  - by apply Forall_replicate.
  - apply Forall_concat, Forall_fmap, Forall_true. intros z.
    apply center_no_newline.
Qed.

Lemma header_no_newline n : Forall (fun c => c ≠ newline) (header n).
Proof.
  rewrite header_eq. rewrite Forall_app. split.
  - by apply Forall_replicate.
  - apply Forall_concat, Forall_fmap, Forall_true. intros i. cbv beta.
    unfold ljust, compose. rewrite !Forall_app. split_and!.
    + compute_done.
    + eapply Forall_impl; [apply str_of_int_digits|].
      intros c Hc. by apply digit_or_minus_nonspace.
    + by apply Forall_replicate.
Qed.

(** The fields of a line are separated by white space when the word is
    shorter than its field and so is the text of each count. *)
Lemma split_counts row :
  Forall (fun x => (length (str_of_int x) < 8)%nat) row ->
  split_from [] (concat ((fun x => center (str_of_int x) 8) <$> row))
  = str_of_int <$> row.
Proof.
  induction 1 as [|x row Hx _ IH]; [done|].
  rewrite !fmap_cons. cbn [concat].
  destruct (center_short_8 _ Hx) as (l & r & Hr & ->).
  destruct (str_of_int_digits x) as [Hne Hdig].
  rewrite <- !app_assoc, split_field, IH; try done.
  eapply Forall_impl; [exact Hdig|]. intros c Hc.
  by apply digit_or_minus_nonspace.
Qed.

Lemma split_table_line v row :
  v ≠ [] -> Forall nonspace v -> (length v < 14)%nat ->
  Forall (fun x => (length (str_of_int x) < 8)%nat) row ->
  split (table_line v row) = v :: (str_of_int <$> row).
Proof.
  intros Hne Hv Hlen Hrow. unfold split, table_line.
  destruct (ljust_short v 14 Hlen) as (r & Hr & ->).
  rewrite <- app_assoc.
  change (v ++ ?t) with (replicate 0 space ++ v ++ t).
  rewrite (split_field 0 v r) by done. by rewrite split_counts.
Qed.




(** ** The categories (cell 40) *)

Lemma SFcompare_Eq_sym x y : SFcompare x y = Some Eq -> SFcompare y x = Some Eq.
Proof.
  destruct x as [sx|sx| |sx mx ex], y as [sy|sy| |sy my ey];
    try (destruct sx); try (destruct sy); cbn [SFcompare]; try congruence;
  change (Pos.compare_cont Eq mx my) with (Pos.compare mx my);
  change (Pos.compare_cont Eq my mx) with (Pos.compare my mx);
  rewrite (Z.compare_antisym ex ey), (Pos.compare_antisym mx my);
  destruct (ex ?= ey)%Z, (mx ?= my)%positive; cbn [CompOpp]; congruence.
Qed.

(** Equal floats are not ordered by [<]. *)
Lemma ltb_of_eqb x y : PrimFloat.eqb x y = true -> PrimFloat.ltb y x = false.
Proof.
  rewrite FloatAxioms.eqb_spec, FloatAxioms.ltb_spec. unfold SFeqb, SFltb.
  destruct (SFcompare (Prim2SF x) (Prim2SF y)) as [[]|] eqn:Hc; try discriminate.
  intros _. by rewrite (SFcompare_Eq_sym _ _ Hc).
Qed.

(** C9: article [i] gets category 0 exactly when [h[0,i] > h[1,i]] (that
    is, [h[1,i] < h[0,i]]) and category 1 otherwise; two equal coefficients
    give category 1. *)
Theorem category_rule (hm : matrix) (i : nat) (h0 h1 : float) :
  entry hm 0 i = Ok h0 -> entry hm 1 i = Ok h1 ->
  category hm i = Ok (if PrimFloat.ltb h1 h0 then 0 else 1) /\
  (category hm i = Ok 0 <-> PrimFloat.ltb h1 h0 = true) /\
  (category hm i = Ok 1 <-> PrimFloat.ltb h1 h0 = false) /\
  (PrimFloat.eqb h0 h1 = true -> category hm i = Ok 1).
Proof.
  intros H0 H1. unfold category, category_of. rewrite H0, H1. split_and!.
  - done.
  - destruct (PrimFloat.ltb h1 h0); split; congruence.
  - destruct (PrimFloat.ltb h1 h0); split; congruence.
  - intros Heq. by rewrite (ltb_of_eqb _ _ Heq).
Qed.

Lemma category_rule_witness :
  let hm := [[1.0; 2.0]; [1.0; 0.5]]%float in
  category hm 0 = Ok (if PrimFloat.ltb 1.0 1.0 then 0 else 1) /\
  (category hm 0 = Ok 0 <-> PrimFloat.ltb 1.0 1.0 = true) /\
  (category hm 0 = Ok 1 <-> PrimFloat.ltb 1.0 1.0 = false) /\
  (PrimFloat.eqb 1.0 1.0 = true -> category hm 0 = Ok 1).
Proof.
  apply (category_rule [[1.0; 2.0]; [1.0; 0.5]]%float 0 1.0 1.0); reflexivity.
Defined.

Example categories_demo :
  category [[1.0; 2.0]; [1.0; 0.5]]%float 0 = Ok 1 /\
  category [[1.0; 2.0]; [1.0; 0.5]]%float 1 = Ok 0 /\
  category [[1.0; 2.0]; [1.0; 0.5]]%float 2 = Raise IndexError.
Proof. by vm_compute. Qed.

(** ** The cells after the factorization leave [a], [w] and [h] alone *)

(** The factors a call of [real_nmf] returned, and the matrix a data frame
    was built from. *)
Definition factors_of (ev : event ext) : option (matrix * matrix) :=
  match ev with
  | Event _ c r =>
      match c in ext T return result T -> option (matrix * matrix) with
      | RealNmf _ _ _ _ _ => fun r => match r with Ok wh => Some wh | Raise _ => None end
      | _ => fun _ => None
      end r
  end.

Definition frame_of (ev : event ext) : option matrix :=
  match ev_call ev with
  | DataFrame x _ => Some x
  | _ => None
  end.

(** [same_arrays e e']: the three arrays are the same in both. *)
Definition same_arrays (e e' : env) : Prop :=
  a e' = a e /\ w e' = w e /\ h e' = h e.

(** A cell without external calls that keeps the arrays, whether it ends
    normally or raises. *)
Definition quiet {A} (m : script A) : Prop :=
  forall e, exists r e', m e = Ret (r, e') /\ same_arrays e e'.

(** A cell that keeps the arrays in every run, and builds data frames from
    [h] only. *)
Definition keeps {A} (m : script A) : Prop :=
  forall W (hd : handler ext W) e wd,
    same_arrays e (run hd (m e) wd).1.1.2 /\
    Forall (fun x => x = h e) (omap frame_of (run hd (m e) wd).1.2).

Lemma same_arrays_trans e1 e2 e3 :
  same_arrays e1 e2 -> same_arrays e2 e3 -> same_arrays e1 e3.
Proof. unfold same_arrays. intros (-> & -> & ->) (-> & -> & ->). done. Qed.

Lemma quiet_bind {A B} (m : script A) (f : A -> script B) :
  quiet m -> (forall v, quiet (f v)) -> quiet (bind m f).
Proof.
  intros Hm Hf e. destruct (Hm e) as (r & e1 & Heq & Hsame).
  unfold bind. rewrite Heq. simpl. destruct r as [v|x].
  - destruct (Hf v e1) as (r2 & e2 & Heq2 & Hsame2).
    exists r2, e2. split; [done|]. by eapply same_arrays_trans.
  - by exists (Raise x), e1.
Qed.

Lemma quiet_for_each {A} (l : list A) (body : A -> script unit) :
  (forall y, quiet (body y)) -> quiet (for_each l body).
Proof.
  intros Hb. induction l as [|y l IH]; simpl.
  - intros e. by exists (Ok tt), e.
  - apply quiet_bind; [apply Hb|]. intros _. apply IH.
Qed.

Lemma quiet_get : quiet (get (S := env)).
Proof. intros e. by exists (Ok e), e. Qed.

Lemma quiet_lift {A} (r : result A) : quiet (lift r).
Proof. intros e. by exists r, e. Qed.

Lemma quiet_print v : quiet (print v).
Proof. intros e. by eexists (Ok tt), _. Qed.

Lemma quiet_keeps {A} (m : script A) : quiet m -> keeps m.
Proof.
  intros Hm W hd e wd. destruct (Hm e) as (r & e' & -> & Hsame). simpl.
  split; [done|constructor].
Qed.

Lemma keeps_seq (m1 m2 : script unit) : keeps m1 -> keeps m2 -> keeps (m1;;; m2).
Proof.
  intros H1 H2 W hd e wd. rewrite run_bind.
  destruct (H1 W hd e wd) as [Hsame1 Hfr1].
  destruct (run hd (m1 e) wd) as [[[r e1] tr1] w1]; simpl in *.
  destruct r as [[]|x]; [|done].
  destruct (H2 W hd e1 w1) as [Hsame2 Hfr2].
  destruct (run hd (m2 e1) w1) as [[[r2 e2] tr2] w2]; simpl in *.
  split; [by eapply same_arrays_trans|].
  rewrite omap_app, Forall_app. split; [done|].
  destruct Hsame1 as (_ & _ & <-). done.
Qed.

Lemma keeps_cell_31 : keeps cell_31.
Proof.
  apply quiet_keeps. unfold cell_31.
  apply quiet_bind; [apply quiet_get|]. intros e. apply quiet_print.
Qed.

Lemma keeps_cell_32 : keeps cell_32.
Proof.
  apply quiet_keeps. unfold cell_32.
  apply quiet_bind; [apply quiet_get|]. intros e. apply quiet_print.
Qed.

Lemma keeps_cell_36 : keeps cell_36.
Proof.
  apply quiet_keeps. unfold cell_36.
  apply quiet_bind; [apply quiet_get|]. intros e.
  apply quiet_for_each. intros i.
  apply quiet_bind; [apply quiet_get|]. intros e1.
  apply quiet_bind; [apply quiet_lift|]. intros tmp.
  apply quiet_bind; [apply quiet_print|]. intros _. apply quiet_print.
Qed.

Lemma keeps_cell_40 : keeps cell_40.
Proof.
  apply quiet_keeps. unfold cell_40.
  apply quiet_bind; [apply quiet_get|]. intros e.
  apply quiet_for_each. intros il.
  apply quiet_bind; [apply quiet_get|]. intros e1.
  apply quiet_bind; [apply quiet_lift|]. intros cat.
  apply quiet_bind; [apply quiet_lift|]. intros st. apply quiet_print.
Qed.

(** The two cells with external calls, answer by answer. *)
Lemma keeps_cell_34 : keeps cell_34.
Proof.
  intros W hd e wd. unfold cell_34, bind, get, call, modify, print. simpl.
  repeat (match goal with
          | |- context [hd ?X ?c ?s] => destruct (hd X c s) as [[?|?] ?]
          end; simpl);
    (split; [done|repeat constructor]).
Qed.

Lemma keeps_cell_38 : keeps cell_38.
Proof.
  intros W hd e wd. unfold cell_38, bind, get, call, modify, print. simpl.
  repeat (match goal with
          | |- context [hd ?X ?c ?s] => destruct (hd X c s) as [[?|?] ?]
          end; simpl);
    (split; [done|repeat constructor]).
Qed.

Lemma keeps_after_nmf : keeps after_nmf.
Proof.
  unfold after_nmf.
  repeat (apply keeps_seq;
          [first [apply keeps_cell_31 | apply keeps_cell_32 | apply keeps_cell_34
                 | apply keeps_cell_36 | apply keeps_cell_38]|]).
  apply keeps_cell_40.
Qed.

(** C7: cell 30 stores in [w] and [h] the factors that [real_nmf]
    returned and leaves [a] as it was; in any run of the cells after it
    (residual norm, top words, data frame, categories), whatever the library
    answers and whether or not a cell raises, [a], [w] and [h] keep their
    values, and the data frame displayed is built from that same [h]. *)
Theorem factors_unmodified_after_nmf {W} (hd : handler ext W) (e : env) (wd : W) :
  let r30 := run hd (cell_30 e) wd in
  let e30 := r30.1.1.2 in
  let r := run hd (after_nmf e30) r30.2 in
  a e30 = a e /\
  (forall wh, wh ∈ omap factors_of r30.1.2 -> w e30 = wh.1 /\ h e30 = wh.2) /\
  a r.1.1.2 = a e30 /\ w r.1.1.2 = w e30 /\ h r.1.1.2 = h e30 /\
  Forall (fun x => x = h e30) (omap frame_of r.1.2).
Proof.
  intros r30 e30 r.
  destruct (keeps_after_nmf W hd e30 r30.2) as [(Ha & Hw & Hh) Hfr].
  split_and!; try done.
  - subst e30 r30. unfold cell_30, bind, get, lift, call, modify. simpl.
    destruct (a e) eqn:Harr; simpl; [done|].
    destruct (hd _ _ wd) as [[?|?] ?]; done.
  - subst e30 r30. unfold cell_30, bind, get, lift, call, modify. simpl.
    destruct (a e) eqn:Harr; simpl; [by intros ? ?%elem_of_nil|].
    destruct (hd _ _ wd) as [[wh'|?] ?]; simpl.
    + by intros wh ->%list_elem_of_singleton.
    + by intros ? ?%elem_of_nil.
Qed.

Example factors_demo :
  let e' := Demo.notebook_run.1.1.2 in
  Demo.notebook_run.1.1.1 = Ok tt /\
  h e' = [[1.0; 2.0]; [1.0; 0.5]]%float /\
  omap frame_of Demo.notebook_run.1.2 = [[[1.0; 2.0]; [1.0; 0.5]]%float].
Proof. by vm_compute. Qed.

End NmfFacts.

(** * The implied-volatility notebook: the callback and the loop *)
Module ImpVolFacts.
Import ImpVol.

(** A library whose pricing routine and root finder always fail. *)
Definition failing : handler ext nat := fun X ev wd =>
  match ev in ext X return result X * nat with
  | InitNonrepeat _ => (Ok 1%N, wd)
  | DistUniform num lo _ _ => (Ok (replicate (Z.to_nat num) lo), wd)
  | PerfCounter => (Ok 0%float, wd)
  | OptBsmPrice _ _ _ _ _ _ _ => (Raise (ExtError 1), S wd)
  | ContfnCntin _ _ _ _ _ => (Raise (ExtError 2), S wd)
  | OptImpVol _ prices _ _ _ _ _ => (Ok ((fun _ => 0.2%float) <$> prices, (fun _ => 0) <$> prices), wd)
  end.

(** The data of one point, as the loop leaves it in [data]. *)
Definition point : gmap string float :=
  <["r" := 0.0175%float]> (<["t" := 0.0165%float]> (<["s0" := 260.0%float]>
    (<["k" := 271.7%float]> (<["p" := 4.5%float]> ∅)))).

(** C8: when the pricing routine raises, whatever the exception,
    [black_scholes] does not raise: it returns 0 minus the target price
    [data['p']], after that one call. *)
Theorem black_scholes_swallows {S W} (hd : handler ext W) (st : S) (wd w1 : W)
    (sigma : float) (data : gmap string float) (dk ds0 dt dr dp : float) (x : exn) :
  data !! "k"%string = Some dk -> data !! "s0"%string = Some ds0 ->
  data !! "t"%string = Some dt -> data !! "r"%string = Some dr ->
  data !! "p"%string = Some dp ->
  hd _ (OptBsmPrice (ustr "C") [dk] ds0 [dt] sigma dr 0.0) wd = (Raise x, w1) ->
  run hd (black_scholes sigma data st) wd
  = ((Ok (0 - dp)%float, st),
     [Event _ (OptBsmPrice (ustr "C") [dk] ds0 [dt] sigma dr 0.0) (Raise x)],
     w1).
Proof.
  intros Hk Hs0 Ht Hr Hp Hraise.
  unfold black_scholes, try_except, bind, lift, call, ret, item.
  rewrite Hk, Hs0, Ht, Hr, Hp. simpl. rewrite Hraise. reflexivity.
Qed.

Lemma black_scholes_swallows_witness :
  run failing (black_scholes (S := unit) 0.15 point tt) 0%nat
  = ((Ok (0 - 4.5)%float, tt),
     [Event _ (OptBsmPrice (ustr "C") [271.7%float] 260.0 [0.0165%float] 0.15 0.0175 0.0)
        (Raise (ExtError 1))],
     1%nat).
Proof.
  apply (black_scholes_swallows failing tt 0%nat 1%nat 0.15 point
           271.7 260.0 0.0165 0.0175 4.5 (ExtError 1)); reflexivity.
Defined.

End ImpVolFacts.

(** * Counting the external calls of a script *)
Module Calls.
Section census.
Context {E : Type -> Type} {S : Type}.
(** The calls that are counted. *)
Variable P : forall X, E X -> bool.

Definition hit {X} (e : E X) : nat := if P X e then 1 else 0.

(** The number of counted calls in a trace. *)
Definition count (tr : list (event E)) : nat :=
  length (filter (fun ev => P _ (ev_call ev) = true) tr).

Lemma count_app tr1 tr2 : count (tr1 ++ tr2) = (count tr1 + count tr2)%nat.
Proof. unfold count. by rewrite filter_app, length_app. Qed.

Lemma count_cons ev tr : count (ev :: tr) = (hit (ev_call ev) + count tr)%nat.
Proof.
  unfold count, hit. rewrite filter_cons.
  destruct (P _ (ev_call ev)); by case_decide.
Qed.

(** [census n p]: a run of [p] that ends normally makes exactly [n]
    counted calls, and a run that raises at most [n]. *)
Inductive census {A} : nat -> prog E (result A * S) -> Prop :=
| census_ok a s : census 0 (Ret (Ok a, s))
| census_raise x s n : census n (Ret (Raise x, s))
| census_vis X (e : E X) k n :
    (forall r, census n (k r)) -> census (hit e + n) (Vis e k).

Lemma census_cast {A} n n' (p : prog E (result A * S)) :
  census n p -> n = n' -> census n' p.
Proof. by intros ? <-. Qed.

Lemma census_bind {A B} (m : M E S A) (f : A -> M E S B) s n1 n2 :
  census n1 (m s) -> (forall a s', census n2 (f a s')) ->
  census (n1 + n2) (bind m f s).
Proof.
  intros Hm Hf. unfold bind.
  induction Hm as [a s1|x s1 n|X e k n _ IH]; simpl.
  - apply Hf.
  - constructor.
  - eapply census_cast; [apply census_vis, IH|lia].
Qed.

Lemma census_call {X} (e : E X) s : census (hit e) (call e s).
Proof.
  eapply census_cast; [apply census_vis|apply Nat.add_0_r].
  intros [v|x]; constructor.
Qed.

Lemma census_call_eq {X} (e : E X) s n : hit e = n -> census n (call e s).
Proof. intros <-. apply census_call. Qed.

Lemma census_lift {A} (r : result A) s : census 0 (lift r s).
Proof. destruct r; constructor. Qed.

Lemma census_for_each {A} (body : A -> M E S unit) l c s :
  (forall y s, census c (body y s)) -> census (length l * c) (for_each l body s).
Proof.
  intros Hb. revert s. induction l as [|y l IH]; intros s; simpl.
  - constructor.
  - apply census_bind; [apply Hb|]. intros _ s'. apply IH.
Qed.

Lemma census_for_each_0 {A} (body : A -> M E S unit) l s :
  (forall y s, census 0 (body y s)) -> census 0 (for_each l body s).
Proof.
  intros Hb. eapply census_cast; [by apply census_for_each|lia].
Qed.

Lemma census_run {W A} (hd : handler E W) (p : prog E (result A * S)) n wd :
  census n p ->
  (count (run hd p wd).1.2 <= n)%nat /\
  forall a, (run hd p wd).1.1.1 = Ok a -> count (run hd p wd).1.2 = n.
Proof.
  intros Hp. revert wd. induction Hp as [a s|x s n|X e k n _ IH]; intros wd; simpl.
  - done.
  - split; [unfold count; simpl; lia|done].
  - destruct (hd X e wd) as [r w1].
    specialize (IH r w1). destruct (run hd (k r) w1) as [[rs tr] w2].
    simpl in *. rewrite count_cons. simpl. destruct IH as [Hle Heq].
    split; [lia|]. intros a Ha. by rewrite (Heq a Ha).
Qed.
End census.

(** One statement of a cell, for [census]. *)
Ltac census_step :=
  first
    [ eapply census_bind; [|intros ? ?]
    | eapply census_cast; [eapply census_bind; [|intros ? ?]|]
    | apply census_for_each_0; intros ? ?
    | eapply census_call_eq; vm_compute; reflexivity
    | apply census_lift
    | apply census_ok
    | apply census_raise
    | match goal with
      | |- census _ _ ((match ?t with _ => _ end) _) => destruct t
      end ].

End Calls.
Import Calls.

(** * The three notebooks: exceptions and library calls *)
Module Notebooks.

(** A library for the implied-volatility notebook in which every call
    succeeds. *)
Definition steady : handler ImpVol.ext nat := fun X ev wd =>
  match ev in ImpVol.ext X return result X * nat with
  | ImpVol.InitNonrepeat _ => (Ok 1%N, wd)
  | ImpVol.DistUniform num lo _ _ => (Ok (replicate (Z.to_nat num) lo), wd)
  | ImpVol.PerfCounter => (Ok 0%float, wd)
  | ImpVol.OptBsmPrice _ _ _ _ _ _ _ => (Ok [[4.5%float]], wd)
  | ImpVol.ContfnCntin _ _ _ _ _ => (Ok 0.2%float, S wd)
  | ImpVol.OptImpVol _ prices _ _ _ _ _ =>
      (Ok ((fun _ => 0.2%float) <$> prices, (fun _ => 0) <$> prices), wd)
  end.

(** The calls that produce the numerical results. *)
Definition is_real_nmf X (c : Nmf.ext X) : bool :=
  match c with Nmf.RealNmf _ _ _ _ _ => true | _ => false end.

Definition is_solve X (c : Socp.ext X) : bool :=
  match c with Socp.HandleSolveSocpIpm _ _ => true | _ => false end.

Definition is_contfn_cntin X (c : ImpVol.ext X) : bool :=
  match c with ImpVol.ContfnCntin _ _ _ _ _ => true | _ => false end.

Definition is_opt_imp_vol X (c : ImpVol.ext X) : bool :=
  match c with ImpVol.OptImpVol _ _ _ _ _ _ _ => true | _ => false end.

(** ** Exceptions *)

(** [propagates p]: in every run of [p], an external call that raises is
    the last call, and [p] raises the same exception. *)
Definition propagates {E : Type -> Type} {S A} (p : prog E (result A * S)) : Prop :=
  forall W (hd : handler E W) wd tr1 ev tr2 x,
    (run hd p wd).1.2 = tr1 ++ ev :: tr2 -> raised ev = Some x ->
    tr2 = [] /\ (run hd p wd).1.1.1 = Raise x.

Lemma strict_propagates {E : Type -> Type} {S A} (p : prog E (result A * S)) :
  strict p -> propagates p.
Proof. intros Hp W hd wd tr1 ev tr2 x. by apply strict_run. Qed.

Ltac strict_step :=
  first
    [ apply strict_bind; [|intros ? ?]
    | apply strict_for_each; intros ? ?
    | apply strict_call
    | apply strict_ret
    | match goal with
      | |- strict ((match ?t with _ => _ end) _) => destruct t
      end ].

Lemma nmf_notebook_strict decode lower e : strict (Nmf.notebook decode lower e).
Proof. repeat strict_step. Qed.

Lemma socp_notebook_strict e : strict (Socp.notebook e).
Proof. repeat strict_step. Qed.

Lemma impvol_cell_4_strict e : strict (ImpVol.cell_4 e).
Proof. repeat strict_step. Qed.

Lemma imp_vol_cell_strict mode title e : strict (ImpVol.imp_vol_cell mode title e).
Proof. repeat strict_step. Qed.

(** The root-finder loop catches what [contfn_cntin] raises and counts
    it as a failure. *)
Lemma root_find_catches {W} (hd : handler ImpVol.ext W) i e wd tr1 ev tr2 x :
  (run hd (ImpVol.root_find i e) wd).1.2 = tr1 ++ ev :: tr2 ->
  raised ev = Some x ->
  (run hd (ImpVol.root_find i e) wd).1.1.1 = Ok tt /\
  ImpVol.errorcount (run hd (ImpVol.root_find i e) wd).1.1.2
  = ImpVol.errorcount e + 1.
Proof.
  unfold ImpVol.root_find, try_except, bind, get, lift, call, modify, ret, index.
  simpl.
  destruct (ImpVol.p e !! i); simpl; [|by destruct tr1].
  destruct (ImpVol.k e !! i); simpl; [|by destruct tr1].
  destruct (ImpVol.s0 e !! i); simpl; [|by destruct tr1].
  destruct (ImpVol.t e !! i); simpl; [|by destruct tr1].
  destruct (ImpVol.r e !! i); simpl; [|by destruct tr1].
  destruct (hd _ _ wd) as [[sg|x'] w1]; simpl.
  - destruct (PrimFloat.ltb sg 0); simpl;
      (destruct tr1 as [|? [|]]; [|done..]); by intros [= <- <-].
  - destruct tr1 as [|? [|]]; [|done..]. by intros [= <- <-].
Qed.

(** The callback catches what the pricing routine raises. *)
Lemma black_scholes_catches {S W} (hd : handler ImpVol.ext W) (st : S) sigma data
    wd tr1 ev tr2 x :
  (run hd (ImpVol.black_scholes sigma data st) wd).1.2 = tr1 ++ ev :: tr2 ->
  raised ev = Some x ->
  (run hd (ImpVol.black_scholes sigma data st) wd).1.1.1
  = match data !! "p"%string with
    | Some dp => Ok (0 - dp)%float
    | None => Raise (KeyError "p")
    end.
Proof.
  unfold ImpVol.black_scholes, try_except, bind, lift, call, ret, ImpVol.item.
  simpl.
  destruct (data !! "p"%string) as [dp|]; simpl;
    (destruct (data !! "k"%string); simpl; [|by destruct tr1]);
    (destruct (data !! "s0"%string); simpl; [|by destruct tr1]);
    (destruct (data !! "t"%string); simpl; [|by destruct tr1]);
    (destruct (data !! "r"%string); simpl; [|by destruct tr1]);
    (destruct (hd _ _ wd) as [[price|x'] w1]; simpl; [|done]);
    (destruct (ImpVol.entry price 0 0); simpl);
    (destruct tr1 as [|? [|]]; [|done..]); by intros [= <- <-].
Qed.

(** The state that cell 4 leaves when the number of volatilities is 3
    instead of 10000, for a generator that returns the lower bound. *)
Definition three_points : ImpVol.env :=
  ImpVol.set_r (replicate 3 0.017%float)
    (ImpVol.set_t (replicate 3 0.016%float)
       (ImpVol.set_s0 (replicate 3 259.0%float)
          (ImpVol.set_k (replicate 3 271.5%float)
             (ImpVol.set_p (replicate 3 3.9%float)
                (ImpVol.set_statecomm 1%N (ImpVol.set_n 3 ImpVol.env0)))))).

(** C3 at a run of the root-finder cell in which the root finder fails at
    each of three data points: three external calls raise, none of the
    exceptions leaves the cell, which ends normally having counted three
    failures. *)
Lemma root_finder_exceptions_do_not_propagate :
  let r := run ImpVolFacts.failing (ImpVol.cell_8 three_points) 0%nat in
  r.1.1.1 = Ok tt /\
  omap raised r.1.2 = [ExtError 2; ExtError 2; ExtError 2] /\
  ImpVol.errorcount r.1.1.2 = 3.
Proof. vm_compute. done. Qed.

(** C3, amended: the NMF and SOCP notebooks handle no exception: in every
    run, an external call that raises is the last call made and the notebook
    raises that same exception; so do cell 4 and the [opt_imp_vol] cells of
    the implied-volatility notebook.  The root-finder loop of that notebook
    catches every exception raised by [contfn_cntin] (the pass ends normally
    with [errorcount] increased by one), and [black_scholes] catches every
    exception raised by [opt_bsm_price] (it returns 0 minus [data['p']]). *)
Theorem exceptions_propagate_except_root_finder
    (decode : list N -> result pystr) (lower : pystr -> pystr) :
  (forall e, propagates (Nmf.notebook decode lower e)) /\
  (forall e, propagates (Socp.notebook e)) /\
  (forall e, propagates (ImpVol.cell_4 e)) /\
  (forall mode title e, propagates (ImpVol.imp_vol_cell mode title e)) /\
  (forall W (hd : handler ImpVol.ext W) i e wd tr1 ev tr2 x,
     (run hd (ImpVol.root_find i e) wd).1.2 = tr1 ++ ev :: tr2 ->
     raised ev = Some x ->
     (run hd (ImpVol.root_find i e) wd).1.1.1 = Ok tt /\
     ImpVol.errorcount (run hd (ImpVol.root_find i e) wd).1.1.2
     = ImpVol.errorcount e + 1) /\
  (forall W (hd : handler ImpVol.ext W) (st : unit) sigma data wd tr1 ev tr2 x,
     (run hd (ImpVol.black_scholes sigma data st) wd).1.2 = tr1 ++ ev :: tr2 ->
     raised ev = Some x ->
     (run hd (ImpVol.black_scholes sigma data st) wd).1.1.1
     = match data !! "p"%string with
       | Some dp => Ok (0 - dp)%float
       | None => Raise (KeyError "p")
       end).
Proof.
  split_and!.
  - intros e. apply strict_propagates, nmf_notebook_strict.
  - intros e. apply strict_propagates, socp_notebook_strict.
  - intros e. apply strict_propagates, impvol_cell_4_strict.
  - intros mode title e. apply strict_propagates, imp_vol_cell_strict.
  - intros W hd i e wd tr1 ev tr2 x. apply root_find_catches.
  - intros W hd st sigma data wd tr1 ev tr2 x. apply black_scholes_catches.
Qed.

(** ** Library calls *)

Definition any_call {E : Type -> Type} X (c : E X) : bool := true.

Lemma nmf_census decode lower e :
  census is_real_nmf 1 (Nmf.notebook decode lower e).
Proof. eapply census_cast; [repeat census_step; reflexivity|reflexivity]. Qed.

Lemma socp_census e : census is_solve 1 (Socp.notebook e).
Proof. eapply census_cast; [repeat census_step; reflexivity|reflexivity]. Qed.

Lemma socp_census_all e : census any_call 10 (Socp.notebook e).
Proof. eapply census_cast; [repeat census_step; reflexivity|reflexivity]. Qed.

Lemma imp_vol_cell_census mode title e :
  census is_opt_imp_vol 1 (ImpVol.imp_vol_cell mode title e).
Proof. eapply census_cast; [repeat census_step; reflexivity|reflexivity]. Qed.

Lemma imp_vol_cell_no_root mode title e :
  census is_contfn_cntin 0 (ImpVol.imp_vol_cell mode title e).
Proof. eapply census_cast; [repeat census_step; reflexivity|reflexivity]. Qed.

(** One pass of the loop calls [contfn_cntin] once, whether it succeeds or
    raises, unless a data array is too short. *)
Lemma root_find_census i e : census is_contfn_cntin 1 (ImpVol.root_find i e).
Proof.
  unfold ImpVol.root_find. eapply census_cast.
  - do 10 (eapply census_bind; [census_step|intros ? ?]).
    unfold try_except, bind, get, call, modify, ret. simpl.
    eapply census_cast; [apply (census_vis is_contfn_cntin _ _ _ 0)|by vm_compute].
    intros [sg|x]; simpl; [destruct (PrimFloat.ltb sg 0)|]; constructor.
  - reflexivity.
Qed.

Lemma root_find_no_imp_vol i e : census is_opt_imp_vol 0 (ImpVol.root_find i e).
Proof.
  unfold ImpVol.root_find. eapply census_cast.
  - do 10 (eapply census_bind; [census_step|intros ? ?]).
    unfold try_except, bind, get, call, modify, ret. simpl.
    eapply census_cast; [apply (census_vis is_opt_imp_vol _ _ _ 0)|by vm_compute].
    intros [sg|x]; simpl; [destruct (PrimFloat.ltb sg 0)|]; constructor.
  - reflexivity.
Qed.

Lemma impvol_notebook_census e : census is_opt_imp_vol 3 (ImpVol.notebook e).
Proof.
  eapply census_cast.
  - repeat first [apply root_find_no_imp_vol | census_step]; reflexivity.
  - reflexivity.
Qed.

Lemma cell_4_run {W} (hd : handler ImpVol.ext W) e wd e' tr wd' :
  run hd (ImpVol.cell_4 e) wd = ((Ok tt, e'), tr, wd') ->
  ImpVol.n e' = 10000.
Proof.
  unfold ImpVol.cell_4. intros H. run_inv H.
  apply run_modify_ok in H as (-> & -> & ->). reflexivity.
Qed.

(** The loop of cell 8 calls [contfn_cntin] once per data point. *)
Lemma cell_8_run {W} (hd : handler ImpVol.ext W) e wd e' tr wd' :
  run hd (ImpVol.cell_8 e) wd = ((Ok tt, e'), tr, wd') ->
  count is_contfn_cntin tr = Z.to_nat (ImpVol.n e).
Proof.
  unfold ImpVol.cell_8, ImpVol.print. intros H. run_inv H.
  apply run_modify_ok in H as (_ & -> & _).
  repeat match goal with
         | Hget : Ok _ = Ok ?v |- _ => is_var v; injection Hget as <-
         end.
  match goal with
  | Hloop : run hd (for_each ?l ImpVol.root_find ?s) ?w0 = (Ok ?v, _, ?t, _) |- _ =>
      destruct (census_run is_contfn_cntin hd
                  (for_each l ImpVol.root_find s) (length l * 1) w0) as [_ Hn];
      [apply census_for_each; intros; apply root_find_census|];
      specialize (Hn v); rewrite Hloop in Hn; simpl in Hn
  end.
  rewrite !count_app, Hn by done. rewrite length_seq. simpl.
  unfold count. simpl. lia.
Qed.

Lemma impvol_notebook_roots {W} (hd : handler ImpVol.ext W) e wd e' tr wd' :
  run hd (ImpVol.notebook e) wd = ((Ok tt, e'), tr, wd') ->
  count is_contfn_cntin tr = Z.to_nat 10000.
Proof.
  unfold ImpVol.notebook. intros H.
  apply run_bind_ok in H as ([] & e4 & tr4 & w4 & tr4' & H4 & H & ->).
  apply run_bind_ok in H as ([] & e8 & tr8 & w8 & tr8' & H8 & H & ->).
  rewrite !count_app.
  destruct (census_run is_contfn_cntin hd (ImpVol.cell_4 e) 0 wd) as [_ Hc4].
  { eapply census_cast; [repeat census_step; reflexivity|reflexivity]. }
  specialize (Hc4 tt). rewrite H4 in Hc4. simpl in Hc4. rewrite Hc4 by done.
  rewrite (cell_8_run _ _ _ _ _ _ H8), (cell_4_run _ _ _ _ _ _ H4).
  destruct (census_run is_contfn_cntin hd
              ((ImpVol.cell_10;;; ImpVol.cell_12;;; ImpVol.cell_14) e8) 0 w8)
    as [_ Hc].
  { eapply census_cast; [repeat census_step; reflexivity|reflexivity]. }
  specialize (Hc tt). rewrite H in Hc. simpl in Hc. rewrite Hc by done. lia.
Qed.

Lemma count_any_call {E : Type -> Type} (tr : list (event E)) :
  count any_call tr = length tr.
Proof.
  unfold count, any_call. induction tr as [|ev tr IH]; [done|].
  rewrite filter_cons. rewrite decide_True by done. simpl. by rewrite IH.
Qed.


End Notebooks.

(** * More on the NMF notebook *)
Module NmfMore.
Import Nmf NmfFacts.

(** ** Paragraphs *)

(** X1: a paragraph found by [re.findall(r'<p>(.*?)</p>', ...)] lies on one
    line and does not hold the closing tag: it ends at the first [</p>]
    after its [<p>]. *)
Theorem paragraph_ends_at_first_close (lower : pystr -> pystr) (page : pystr) :
  Forall (fun para =>
            (newline ∉ para) /\
            (forall pre post, para ≠ pre ++ ustr "</p>" ++ post) /\
            exists pre post, lower page = pre ++ ustr "<p>" ++ para ++ ustr "</p>" ++ post)
         (page_paras lower page).
Proof.
  rewrite Forall_forall. intros para Hpara. unfold page_paras in Hpara.
  split_and!.
  - by apply findall_spec in Hpara as [_ ?].
  - by eapply findall_from_shortest.
  - by apply findall_spec in Hpara as [? _].
Qed.

(** X2: a page whose lowercased text holds no [<p>] gives no paragraph, no
    token and an empty counter. *)
Theorem no_paragraph_no_token (lower : pystr -> pystr) (page : pystr) :
  (forall pre post, lower page ≠ pre ++ ustr "<p>" ++ post) ->
  page_paras lower page = [] /\
  pagewords_of (page_paras lower page) = [] /\
  Counter (pagewords_of (page_paras lower page)) = ∅.
Proof.
  intros Hno.
  assert (page_paras lower page = []) as ->; [|done].
  destruct (page_paras lower page) as [|para paras] eqn:Hparas; [done|].
  assert (para ∈ page_paras lower page) as Hin by (rewrite Hparas; left).
  apply findall_spec in Hin as [(pre & post & Heq) _].
  by destruct (Hno pre (para ++ ustr "</p>" ++ post)).
Qed.

Lemma no_paragraph_no_token_witness :
  page_paras Demo.lower_ascii (ustr "<title>t</title><b>bold</b>") = [] /\
  pagewords_of (page_paras Demo.lower_ascii (ustr "<title>t</title><b>bold</b>")) = [] /\
  Counter (pagewords_of (page_paras Demo.lower_ascii (ustr "<title>t</title><b>bold</b>"))) = ∅.
Proof.
  apply (no_paragraph_no_token Demo.lower_ascii (ustr "<title>t</title><b>bold</b>")).
  intros pre post Heq.
  assert (startswith_somewhere :
    forall s : list N, (exists pre post, s = pre ++ ustr "<p>" ++ post) ->
      existsb (fun i => startswith (drop i s) (ustr "<p>")) (seq 0 (length s)) = true).
  { clear. intros s (pre & post & ->). apply existsb_exists.
    exists (length pre). split.
    - apply in_seq. rewrite !length_app. simpl. lia.
    - rewrite drop_app_length. apply startswith_true. by exists post. }
  specialize (startswith_somewhere _ (ex_intro _ pre (ex_intro _ post Heq))).
  vm_compute in startswith_somewhere. discriminate.
Defined.

(** ** Rows and columns of the data matrix *)

Lemma occurrences_pos x l : x ∈ l -> (1 <= occurrences x l)%nat.
Proof.
  unfold occurrences. induction l as [|y l IH]; [by intros ?%elem_of_nil|].
  rewrite filter_cons. intros [->|Hin]%elem_of_cons.
  - rewrite decide_True by done. simpl. lia.
  - case_decide; simpl; [lia|by apply IH].
Qed.

(** X3: after the cells up to the data matrix have run, no row of [a] is
    zero: every word of the list occurs on at least one page, so its row has
    an entry of at least 1. *)
Theorem no_zero_row (decode : list N -> result pystr) (lower : pystr -> pystr)
    {W} (hd : handler ext W) e0 wd e' tr wd' :
  run hd (build_matrix decode lower e0) wd = ((Ok tt, e'), tr, wd') ->
  Forall (fun row => Exists (fun z => 1 <= z) row) (a e').
Proof.
  intros (_ & _ & _ & Hd & _ & Hwords & _ & Ha)%build_matrix_run.
  rewrite Ha, Forall_fmap, Forall_forall. intros word Hword. simpl.
  apply Hwords in Hword as [(doc & Hdoc & Hin) _].
  unfold freqs_of. rewrite Hd, Exists_fmap, Exists_fmap, Exists_exists.
  exists doc. split; [done|]. simpl. rewrite Counter_get0.
  apply occurrences_pos in Hin. lia.
Qed.

Lemma no_zero_row_witness :
  Forall (fun row => Exists (fun z => 1 <= z) row) (a Demo.matrix_run.1.1.2).
Proof.
  apply (no_zero_row Demo.decode_ascii Demo.lower_ascii Demo.web
           env0 0%nat _ Demo.matrix_run.1.2 Demo.matrix_run.2).
  vm_compute. reflexivity.
Defined.

(** The column of a document, and the sum of a list of ints. *)
Definition column (j : nat) (arr : list (list Z)) : list Z :=
  (fun row => default 0 (row !! j)) <$> arr.

Definition total (l : list Z) : Z := foldr Z.add 0 l.

Lemma total_cons t doc ws :
  NoDup ws ->
  total ((fun word => Z.of_nat (occurrences word (t :: doc))) <$> ws)
  = (if decide (t ∈ ws) then 1 else 0)
    + total ((fun word => Z.of_nat (occurrences word doc)) <$> ws).
Proof.
  unfold total. induction ws as [|word ws IHws]; intros Hnd; [done|].
  apply NoDup_cons in Hnd as [Hword Hnd].
  rewrite !fmap_cons. cbn [foldr]. rewrite IHws by done.
  unfold occurrences at 1. rewrite filter_cons. fold (occurrences word doc).
  destruct (decide (t = word)) as [->|Hne].
  - destruct (decide (word ∈ ws)); [done|].
    destruct (decide (word ∈ word :: ws)) as [_|[]]; [|left].
    unfold occurrences. cbn [length]. lia.
  - unfold occurrences. destruct (decide (t ∈ ws)) as [Hin|Hnin].
    + destruct (decide (t ∈ word :: ws)) as [_|[]]; [lia|by right].
    + destruct (decide (t ∈ word :: ws)) as [[]%elem_of_cons|_]; [done..|lia].
Qed.

Lemma total_occurrences ws doc :
  NoDup ws ->
  total ((fun word => Z.of_nat (occurrences word doc)) <$> ws)
  = Z.of_nat (length (filter (fun t => t ∈ ws) doc)).
Proof.
  intros Hnd. induction doc as [|t doc IH].
  - clear Hnd. unfold total. induction ws as [|word ws IHws]; [done|].
    rewrite fmap_cons. cbn [foldr]. rewrite IHws. done.
  - rewrite total_cons, IH, filter_cons by done.
    case_decide; cbn [length]; lia.
Qed.

(** X4: the entries of the column of a document add up to the number of
    its tokens that are in the word list: every such token is counted exactly
    once, and the tokens that the filters removed are not counted. *)
Theorem column_total (decode : list N -> result pystr) (lower : pystr -> pystr)
    {W} (hd : handler ext W) e0 wd e' tr wd' (j : nat) (doc : list pystr) :
  run hd (build_matrix decode lower e0) wd = ((Ok tt, e'), tr, wd') ->
  documents decode lower tr !! j = Some doc ->
  total (column j (a e')) = Z.of_nat (length (filter (fun t => t ∈ words e') doc)) /\
  forall t, t ∈ doc -> (t ∈ words e' <-> kept t).
Proof.
  intros (_ & _ & _ & Hd & _ & Hwords & Hnd & Ha)%build_matrix_run Hj. split.
  - rewrite <- (total_occurrences _ _ Hnd). f_equal.
    unfold column. rewrite Ha, <- list_fmap_compose. apply list_fmap_ext.
    intros _ word _. simpl. unfold freqs_of.
    rewrite Hd, !list_lookup_fmap, Hj. simpl. apply Counter_get0.
  - intros t Ht. rewrite Hwords. split; [by intros [_ ?]|].
    intros Hk. split; [|done]. exists doc. split; [|done].
    by eapply list_elem_of_lookup_2.
Qed.

Lemma column_total_witness :
  total (column 0 (a Demo.matrix_run.1.1.2)) = 7 /\
  total (column 1 (a Demo.matrix_run.1.1.2)) = 3.
Proof.
  split.
  - destruct (column_total Demo.decode_ascii Demo.lower_ascii Demo.web
                env0 0%nat Demo.matrix_run.1.1.2 Demo.matrix_run.1.2
                Demo.matrix_run.2 0
                (ustr <$> ["the"; "deal"; "the"; "deal"; "is"; "done";
                           "parliament"; "s"; "2019"; "brexit"; "deal";
                           "upper"; "tag"]%string)) as [-> _];
      vm_compute; reflexivity.
  - vm_compute. reflexivity.
Defined.

(** ** What [real_nmf] is called with *)

(** [preserves f m]: no run of [m] changes the value of [f], whether it ends
    normally or raises. *)
Section preserves.
Context {T : Type} (f : env -> T).

Definition preserves {A} (m : script A) : Prop :=
  forall W (hd : handler ext W) e wd, f (run hd (m e) wd).1.1.2 = f e.

Lemma preserves_bind {A B} (m : script A) (g : A -> script B) :
  preserves m -> (forall v, preserves (g v)) -> preserves (bind m g).
Proof.
  intros Hm Hg W hd e wd. rewrite run_bind. specialize (Hm W hd e wd).
  destruct (run hd (m e) wd) as [[[r e1] tr1] w1]. simpl in *.
  destruct r as [v|x]; [|done]. specialize (Hg v W hd e1 w1).
  destruct (run hd (g v e1) w1) as [[[r2 e2] tr2] w2]. simpl in *. congruence.
Qed.

Lemma preserves_call {X} (c : ext X) : preserves (call c).
Proof. intros W hd e wd. simpl. by destruct (hd X c wd). Qed.

Lemma preserves_lift {A} (r : result A) : preserves (lift r).
Proof. by intros W hd e wd. Qed.

Lemma preserves_get : preserves get.
Proof. by intros W hd e wd. Qed.

Lemma preserves_modify (g : env -> env) :
  (forall e, f (g e) = f e) -> preserves (modify g).
Proof. intros Hg W hd e wd. apply Hg. Qed.

Lemma preserves_for_each {A} (l : list A) (body : A -> script unit) :
  (forall y, preserves (body y)) -> preserves (for_each l body).
Proof.
  intros Hb. induction l as [|y l IH]; simpl.
  - by intros W hd e wd.
  - apply preserves_bind; [apply Hb|]. intros _. apply IH.
Qed.
End preserves.

Ltac preserves_step :=
  first
    [ apply preserves_bind; [|intros ?]
    | apply preserves_for_each; intros ?
    | apply preserves_call
    | apply preserves_lift
    | apply preserves_get
    | apply preserves_modify; intros []; reflexivity ].

Lemma cell_27_preserves_a : preserves a cell_27.
Proof. unfold cell_27, print, print_f2. repeat preserves_step. Qed.

(** The matrix a call of [real_nmf] was given. *)
Definition nmf_arg (ev : event ext) : option (list (list Z)) :=
  match ev_call ev with
  | RealNmf arr _ _ _ _ => Some arr
  | _ => None
  end.

Lemma no_nmf_arg tr :
  (Calls.count Notebooks.is_real_nmf tr <= 0)%nat -> omap nmf_arg tr = [].
Proof.
  induction tr as [|[X c r] tr IH]; [done|].
  rewrite Calls.count_cons. unfold Calls.hit, nmf_arg. simpl.
  destruct c; simpl; first [lia|intros; apply IH; lia].
Qed.

Lemma build_matrix_census decode lower e :
  Calls.census Notebooks.is_real_nmf 0 (build_matrix decode lower e).
Proof.
  eapply Calls.census_cast; [repeat Calls.census_step; reflexivity|reflexivity].
Qed.

Lemma cell_27_census e : Calls.census Notebooks.is_real_nmf 0 (cell_27 e).
Proof.
  eapply Calls.census_cast; [repeat Calls.census_step; reflexivity|reflexivity].
Qed.

Lemma after_nmf_census e : Calls.census Notebooks.is_real_nmf 0 (after_nmf e).
Proof.
  eapply Calls.census_cast; [repeat Calls.census_step; reflexivity|reflexivity].
Qed.

Lemma cell_30_arg {W} (hd : handler ext W) (m : script unit) e wd :
  (forall e, Calls.census Notebooks.is_real_nmf 0 (m e)) ->
  omap nmf_arg (run hd ((cell_30;;; m) e) wd).1.2
  = match a e with [] => [] | _ => [a e] end.
Proof.
  intros Hm. unfold cell_30, bind, get, lift, call, modify. simpl.
  destruct (a e) as [|row rows]; simpl; [done|].
  destruct (hd _ (RealNmf (row :: rows) 2 5842 1e-6 500) wd) as [[wh|x] w1];
    simpl; [|done].
  match goal with
  | |- context [run hd (m ?e1) w1] =>
      pose proof (Calls.census_run Notebooks.is_real_nmf hd _ _ w1 (Hm e1)) as [Hc _];
      destruct (run hd (m e1) w1) as [[rs tr] w2]
  end.
  simpl in *. unfold nmf_arg at 1. simpl. by rewrite no_nmf_arg.
Qed.

(** The matrices the notebook may pass to the factorization: not empty,
    one column per document, no negative entry and no zero row. *)
Definition nmf_input (ncols : nat) (arr : list (list Z)) : Prop :=
  arr ≠ [] /\
  Forall (fun row => length row = ncols /\
                     Forall (fun z => 0 <= z) row /\
                     Exists (fun z => 1 <= z) row) arr.

(** X5: in every run of the notebook, whatever the files and the web return,
    [real_nmf] is only ever called with a matrix that has at least one row,
    rows of one length, no negative entry and no zero row; when the word
    list is empty the call is not reached. *)
Theorem real_nmf_input (decode : list N -> result pystr) (lower : pystr -> pystr)
    {W} (hd : handler ext W) e0 wd :
  Forall (fun arr => exists ncols, nmf_input ncols arr)
         (omap nmf_arg (run hd (notebook decode lower e0) wd).1.2).
Proof.
  unfold notebook. rewrite run_bind.
  pose proof (Calls.census_run Notebooks.is_real_nmf hd _ _ wd
                (build_matrix_census decode lower e0)) as [Hc1 _].
  destruct (run hd (build_matrix decode lower e0) wd) as [[[r e1] tr1] w1] eqn:H1.
  simpl in Hc1. cbn [fst snd].
  destruct r as [[]|x]; cbn [fst snd]; [|by rewrite no_nmf_arg].
  apply build_matrix_run in H1 as (_ & _ & _ & Hd & _ & Hwords & _ & Ha).
  rewrite run_bind.
  pose proof (Calls.census_run Notebooks.is_real_nmf hd _ _ w1
                (cell_27_census e1)) as [Hc2 _].
  pose proof (cell_27_preserves_a W hd e1 w1) as Hsame.
  destruct (run hd (cell_27 e1) w1) as [[[r e2] tr2] w2].
  simpl in Hc2, Hsame. cbn [fst snd].
  destruct r as [[]|x]; cbn [fst snd];
    [|rewrite omap_app, !no_nmf_arg by done; constructor].
  pose proof (cell_30_arg hd (after_nmf) e2 w2 after_nmf_census) as H30.
  destruct (run hd ((cell_30;;; after_nmf) e2) w2) as [[rs tr3] w3].
  simpl in H30. cbn [fst snd].
  rewrite !omap_app, !no_nmf_arg, H30 by done. cbn [app].
  rewrite Hsame.
  assert (match a e1 with [] => [] | _ => [a e1] end
          = if decide (a e1 = []) then [] else [a e1]) as ->
    by by destruct (a e1).
  case_decide as Hne; [constructor|]. apply Forall_singleton.
  exists (length (dicts e1)). split; [done|]. clear Hne.
  rewrite Ha, Forall_fmap, Forall_forall. intros word Hword. simpl.
  unfold freqs_of. split_and!.
  - by rewrite length_fmap.
  - rewrite Hd, Forall_fmap, Forall_fmap. apply Forall_true. intros doc. simpl.
    rewrite Counter_get0. lia.
  - apply Hwords in Hword as [(doc & Hdoc & Hin) _].
    rewrite Hd, Exists_fmap, Exists_fmap, Exists_exists.
    exists doc. split; [done|]. simpl. rewrite Counter_get0.
    apply occurrences_pos in Hin. lia.
Qed.

(** ** An empty URL file *)

(** A world in which the URL file is empty and every other call raises. *)
Definition no_links : handler ext unit := fun X ev wd =>
  match ev in ext X return result X * unit with
  | ReadText _ => (Ok [], wd)
  | ReadLines _ => (Ok [], wd)
  | _ => (Raise (ExtError 1), wd)
  end.

Lemma run_seq_ok {W A B} (hd : handler ext W) (m : script A) (f : A -> script B)
    e wd v e1 tr1 w1 :
  run hd (m e) wd = ((Ok v, e1), tr1, w1) ->
  run hd (bind m f e) wd
  = ((run hd (f v e1) w1).1.1, tr1 ++ (run hd (f v e1) w1).1.2, (run hd (f v e1) w1).2).
Proof.
  intros Hm. rewrite run_bind, Hm. simpl.
  by destruct (run hd (f v e1) w1) as [[rs2 tr2] w2].
Qed.

Lemma run_seq_raise {W A B} (hd : handler ext W) (m : script A) (f : A -> script B)
    e wd x e1 tr1 w1 :
  run hd (m e) wd = ((Raise x, e1), tr1, w1) ->
  run hd (bind m f e) wd = ((Raise x, e1), tr1, w1).
Proof. intros Hm. by rewrite run_bind, Hm. Qed.

Lemma cell_2_text {W} (hd : handler ext W) e wd text w1 :
  hd _ (ReadText urls_file) wd = (Ok text, w1) ->
  run hd (cell_2 e) wd
  = ((Ok tt, set_stdout (stdout e ++ [PStr text]) e),
     [Event _ (ReadText urls_file) (Ok text)], w1).
Proof. intros Hhd. unfold cell_2. cbn -[urls_file]. by rewrite Hhd. Qed.

Lemma cell_5_no_line decode lower {W} (hd : handler ext W) e wd w1 :
  hd _ (ReadLines urls_file) wd = (Ok [], w1) ->
  exists e',
    run hd (cell_5 decode lower e) wd
    = ((Ok tt, e'), [Event _ (ReadLines urls_file) (Ok [])], w1) /\
    dicts e' = [] /\ a e' = a e /\
    stdout e' = stdout e ++ [PStr (ustr "Reading urls"); PStr (ustr "Parsing webpages")].
Proof.
  intros Hhd. destruct e. unfold cell_5. cbn -[urls_file ustr]. rewrite Hhd.
  cbn -[urls_file ustr]. eexists. split; [reflexivity|].
  cbn -[ustr]. by rewrite <- app_assoc.
Qed.

Lemma cell_7_no_dict {W} (hd : handler ext W) e wd :
  dicts e = [] -> run hd (cell_7 e) wd = ((Raise IndexError, e), [], wd).
Proof. destruct e. simpl. by intros ->. Qed.

(** X6: when the URL file can be read and has no line, the notebook fetches
    nothing and stops in cell 7 with an [IndexError] from [dicts[0]]: the two
    reads of the file are its only calls, and nothing is printed after
    'Parsing webpages'. *)
Theorem empty_url_file (decode : list N -> result pystr) (lower : pystr -> pystr)
    {W} (hd : handler ext W) e0 wd (text : pystr) :
  (hd _ (ReadText urls_file) wd).1 = Ok text ->
  (forall w, (hd _ (ReadLines urls_file) w).1 = Ok []) ->
  let out := run hd (notebook decode lower e0) wd in
  out.1.1.1 = Raise IndexError /\
  out.1.2 = [Event _ (ReadText urls_file) (Ok text);
             Event _ (ReadLines urls_file) (Ok [])] /\
  stdout out.1.1.2
  = stdout e0 ++ [PStr text; PStr (ustr "Reading urls"); PStr (ustr "Parsing webpages")] /\
  dicts out.1.1.2 = [] /\ a out.1.1.2 = a e0.
Proof.
  intros Htext Hlines.
  destruct (hd _ (ReadText urls_file) wd) as [r1 w1] eqn:H1. simpl in Htext. subst r1.
  specialize (Hlines w1).
  destruct (hd _ (ReadLines urls_file) w1) as [r2 w2] eqn:H2. simpl in Hlines. subst r2.
  destruct (cell_5_no_line decode lower hd (set_stdout (stdout e0 ++ [PStr text]) e0)
              w1 w2 H2) as (e5 & H5 & Hd & Ha & Hout).
  assert (run hd (notebook decode lower e0) wd
          = ((Raise IndexError, e5),
             [Event _ (ReadText urls_file) (Ok text);
              Event _ (ReadLines urls_file) (Ok [])], w2)) as ->.
  { unfold notebook. apply run_seq_raise. unfold build_matrix.
    erewrite run_seq_ok by (by apply cell_2_text).
    erewrite run_seq_ok by exact H5.
    erewrite run_seq_raise by (by apply cell_7_no_dict). done. }
  cbn [fst snd]. rewrite Hout, Ha. destruct e0. cbn -[ustr].
  by rewrite <- app_assoc.
Qed.

Lemma empty_url_file_witness :
  (run no_links (notebook Demo.decode_ascii Demo.lower_ascii env0) tt).1.1.1
  = Raise IndexError.
Proof.
  apply (empty_url_file Demo.decode_ascii Demo.lower_ascii no_links env0 tt []).
  - reflexivity.
  - intros []. reflexivity.
Defined.

(** ** The most important words (cell 36) *)

Lemma SFcompare_antisym x y :
  SFcompare y x = option_map CompOpp (SFcompare x y).
Proof.
  destruct x as [sx|sx| |sx mx ex], y as [sy|sy| |sy my ey];
    try (destruct sx); try (destruct sy); cbn [SFcompare option_map CompOpp];
    try reflexivity;
  change (Pos.compare_cont Eq mx my) with (Pos.compare mx my);
  change (Pos.compare_cont Eq my mx) with (Pos.compare my mx);
  rewrite (Z.compare_antisym ex ey), (Pos.compare_antisym mx my);
  destruct (ex ?= ey)%Z, (mx ?= my)%positive; reflexivity.
Qed.

Ltac compare_cases :=
  repeat match goal with
  | H : context [(?a ?= ?b)%Z] |- _ => destruct (Z.compare_spec a b)
  | |- context [(?a ?= ?b)%Z] => destruct (Z.compare_spec a b)
  | H : context [(?a ?= ?b)%positive] |- _ => destruct (Pos.compare_spec a b)
  | |- context [(?a ?= ?b)%positive] => destruct (Pos.compare_spec a b)
  end.

Lemma SFcompare_Lt_trans x y z :
  SFcompare x y = Some Lt -> SFcompare y z = Some Lt -> SFcompare x z = Some Lt.
Proof.
  destruct x as [sx|sx| |sx mx ex], y as [sy|sy| |sy my ey], z as [sz|sz| |sz mz ez];
    try (destruct sx); try (destruct sy); try (destruct sz);
    cbn [SFcompare]; try congruence;
    change (Pos.compare_cont Eq) with Pos.compare;
    intros Hxy Hyz; compare_cases; cbn [CompOpp] in *;
    first [congruence | lia].
Qed.

(** [<] on floats is transitive and asymmetric, and total on numbers. *)
Lemma ltb_trans x y z :
  PrimFloat.ltb x y = true -> PrimFloat.ltb y z = true -> PrimFloat.ltb x z = true.
Proof.
  rewrite !FloatAxioms.ltb_spec. unfold SFltb.
  destruct (SFcompare (Prim2SF x) (Prim2SF y)) as [[]|] eqn:Hxy; try discriminate.
  destruct (SFcompare (Prim2SF y) (Prim2SF z)) as [[]|] eqn:Hyz; try discriminate.
  by rewrite (SFcompare_Lt_trans _ _ _ Hxy Hyz).
Qed.

Lemma ltb_asym x y : PrimFloat.ltb x y = true -> PrimFloat.ltb y x = false.
Proof.
  rewrite !FloatAxioms.ltb_spec. unfold SFltb.
  rewrite (SFcompare_antisym (Prim2SF x) (Prim2SF y)).
  by destruct (SFcompare (Prim2SF x) (Prim2SF y)) as [[]|].
Qed.

Lemma leb_of_not_ltb x y :
  PrimFloat.eqb x x = true -> PrimFloat.eqb y y = true ->
  PrimFloat.ltb x y = false -> PrimFloat.leb y x = true.
Proof.
  rewrite !FloatAxioms.eqb_spec, FloatAxioms.ltb_spec, FloatAxioms.leb_spec.
  unfold SFeqb, SFltb, SFleb. rewrite (SFcompare_antisym (Prim2SF x) (Prim2SF y)).
  destruct (Prim2SF x) as [sx|sx| |sx mx ex], (Prim2SF y) as [sy|sy| |sy my ey];
    try discriminate; intros _ _; cbn [SFcompare option_map];
    repeat case_match; cbn [CompOpp] in *; congruence.
Qed.

Lemma insert_desc_perm kx l : insert_desc kx l ≡ₚ kx :: l.
Proof.
  induction l as [|ky l IH]; simpl; [done|]. case_match; [done|].
  rewrite IH. apply Permutation_swap.
Qed.

Lemma insertion_perm kl acc :
  foldl (fun acc kx => insert_desc kx acc) acc kl ≡ₚ kl ++ acc.
Proof.
  revert acc. induction kl as [|kx kl IH]; intros acc; simpl; [done|].
  rewrite IH, insert_desc_perm. by rewrite Permutation_middle.
Qed.

Lemma keyed_Ok key l kl :
  keyed key l = Ok kl ->
  snd <$> kl = l /\ Forall (fun kx => key kx.2 = Ok kx.1) kl.
Proof.
  revert kl. induction l as [|x l IH]; intros kl; simpl.
  - by intros [= <-].
  - destruct (key x) as [k|] eqn:Hk; [|done].
    destruct (keyed key l) as [r|]; [|done]. intros [= <-].
    destruct (IH r eq_refl) as [<- Hall]. split; [done|]. by constructor.
Qed.

Lemma keyed_Raise key l err :
  keyed key l = Raise err -> exists x, x ∈ l /\ key x = Raise err.
Proof.
  induction l as [|x l IH]; simpl; [done|].
  destruct (key x) as [k|err'] eqn:Hk.
  - destruct (keyed key l) as [r|err']; [done|]. intros [= <-].
    destruct IH as (y & Hy & Hky); [done|]. exists y. split; [by right|done].
  - intros [= <-]. exists x. split; [left|done].
Qed.

(** No element before another has a smaller key. *)
Definition desc (kx ky : float * pystr) : Prop := PrimFloat.ltb kx.1 ky.1 = false.

Lemma insert_desc_sorted kx l :
  StronglySorted desc l -> StronglySorted desc (insert_desc kx l).
Proof.
  induction l as [|ky l IH]; simpl; intros Hs.
  - repeat constructor.
  - apply StronglySorted_inv in Hs as [Hs Hky].
    destruct (PrimFloat.ltb ky.1 kx.1) eqn:Hlt.
    + constructor; [by constructor|]. constructor; [by apply ltb_asym|].
      eapply Forall_impl; [exact Hky|]. intros kz Hz. unfold desc in *.
      destruct (PrimFloat.ltb kx.1 kz.1) eqn:Hxz; [|done].
      by rewrite (ltb_trans _ _ _ Hlt Hxz) in Hz.
    + constructor; [by apply IH|]. rewrite insert_desc_perm. by constructor.
Qed.

Lemma insertion_sorted kl acc :
  StronglySorted desc acc ->
  StronglySorted desc (foldl (fun acc kx => insert_desc kx acc) acc kl).
Proof.
  revert acc. induction kl as [|kx kl IH]; intros acc Hs; simpl; [done|].
  by apply IH, insert_desc_sorted.
Qed.

Lemma StronglySorted_lookup {A} (R : A -> A -> Prop) l i j x y :
  StronglySorted R l -> (i < j)%nat -> l !! i = Some x -> l !! j = Some y -> R x y.
Proof.
  intros Hs. revert i j. induction Hs as [|z l Hs IH Hz]; intros i j Hij Hi Hj.
  - done.
  - destruct j as [|j]; [lia|]. destruct i as [|i]; simpl in *.
    + injection Hi as ->. rewrite Forall_forall in Hz.
      by eapply Hz, list_elem_of_lookup_2.
    + apply (IH i j); [lia|done..].
Qed.

Lemma weight_of_word wm ws ind x :
  x ∈ ws ->
  exists i, ws !! i = Some x /\ weight wm ws ind x = entry wm i ind.
Proof.
  intros Hx. unfold weight, index_of.
  destruct (list_find (fun y => y = x) ws) as [[i y]|] eqn:Hfind.
  - apply list_find_Some in Hfind as (Hi & -> & _). by exists i.
  - apply list_find_None in Hfind. rewrite Forall_forall in Hfind.
    by destruct (Hfind x Hx).
Qed.

(** X7: [sorted(words, key=...)] of cell 36 only reorders the word list: when
    it returns, its result is a permutation of [words], so the ten words
    printed are words of the list, distinct when the list has no duplicate.
    It can only fail with an [IndexError] from [w], never with the
    [ValueError] of [words.index], and it does not fail when [w] has a row
    for each word and more than [ind] columns. *)
Theorem top_words_permutation (wm : matrix) (ws : list pystr) (ind : nat) :
  (forall tmp, sorted_desc (weight wm ws ind) ws = Ok tmp ->
     tmp ≡ₚ ws /\ take 10 tmp ⊆ ws /\
     length (take 10 tmp) = (10 `min` length ws)%nat /\
     (NoDup ws -> NoDup (take 10 tmp))) /\
  (forall err, sorted_desc (weight wm ws ind) ws = Raise err -> err = IndexError) /\
  ((length ws <= length wm)%nat -> Forall (fun row => (ind < length row)%nat) wm ->
   exists tmp, sorted_desc (weight wm ws ind) ws = Ok tmp).
Proof.
  unfold sorted_desc. split_and!.
  - intros tmp. destruct (keyed _ ws) as [kl|] eqn:Hk; [|done]. intros [= <-].
    apply keyed_Ok in Hk as [Hsnd _].
    assert (snd <$> foldl (fun acc kx => insert_desc kx acc) [] kl ≡ₚ ws) as Hp.
    { by rewrite insertion_perm, app_nil_r, Hsnd. }
    split_and!.
    + done.
    + intros x Hx%elem_of_take. destruct Hx as (i & Hx & _).
      rewrite <- Hp. by eapply list_elem_of_lookup_2.
    + by rewrite length_take, Hp.
    + intros Hnd. eapply sublist_NoDup; [|apply sublist_take]. by rewrite Hp.
  - intros err. destruct (keyed _ ws) as [kl|err'] eqn:Hk; [done|]. intros [= ->].
    apply keyed_Raise in Hk as (x & Hx & Hw).
    destruct (weight_of_word wm ws ind x Hx) as (i & _ & Heq).
    rewrite Heq in Hw. unfold entry, index in Hw. repeat case_match; congruence.
  - intros Hlen Hrows. destruct (keyed _ ws) as [kl|err] eqn:Hk; [by eexists|].
    apply keyed_Raise in Hk as (x & Hx & Hw).
    destruct (weight_of_word wm ws ind x Hx) as (i & Hi & Heq).
    rewrite Heq in Hw. unfold entry, index in Hw.
    apply lookup_lt_Some in Hi.
    destruct (lookup_lt_is_Some_2 wm i) as [row Hrow]; [lia|].
    rewrite Hrow in Hw. rewrite Forall_forall in Hrows.
    destruct (lookup_lt_is_Some_2 row ind) as [v Hv].
    { by eapply Hrows, list_elem_of_lookup_2. }
    by rewrite Hv in Hw.
Qed.

(** X8: when no weight is a NaN, the list of cell 36 is in descending order
    of weight: a word that comes before another has a weight at least as
    large, so no word left out of the ten printed outweighs a printed one. *)
Theorem top_words_descending (wm : matrix) (ws : list pystr) (ind : nat)
    (tmp : list pystr) (i j : nat) (x y : pystr) :
  sorted_desc (weight wm ws ind) ws = Ok tmp ->
  (forall v kv, v ∈ ws -> weight wm ws ind v = Ok kv -> PrimFloat.eqb kv kv = true) ->
  (i < j)%nat -> tmp !! i = Some x -> tmp !! j = Some y ->
  exists kx ky,
    weight wm ws ind x = Ok kx /\ weight wm ws ind y = Ok ky /\
    PrimFloat.leb ky kx = true.
Proof.
  unfold sorted_desc. destruct (keyed _ ws) as [kl|] eqn:Hk; [|done].
  intros [= <-] Hnum Hij Hx Hy.
  apply keyed_Ok in Hk as [Hsnd Hkeys].
  set (sl := foldl (fun acc kx => insert_desc kx acc) [] kl) in *.
  assert (sl ≡ₚ kl) as Hp by (unfold sl; by rewrite insertion_perm, app_nil_r).
  rewrite <- Hp in Hkeys. rewrite Forall_forall in Hkeys.
  assert (StronglySorted desc sl) as Hs by (apply insertion_sorted; constructor).
  rewrite list_lookup_fmap in Hx, Hy.
  destruct (sl !! i) as [[kx x']|] eqn:Hi; [|done].
  destruct (sl !! j) as [[ky y']|] eqn:Hj; [|done].
  simpl in Hx, Hy. injection Hx as ->. injection Hy as ->.
  pose proof (StronglySorted_lookup _ _ _ _ _ _ Hs Hij Hi Hj) as Hd.
  pose proof (Hkeys _ (list_elem_of_lookup_2 _ _ _ Hi)) as Hkx.
  pose proof (Hkeys _ (list_elem_of_lookup_2 _ _ _ Hj)) as Hky.
  simpl in Hkx, Hky, Hd. exists kx, ky. split_and!; [done..|].
  assert (forall k v, (k, v) ∈ sl -> v ∈ ws) as Hin.
  { intros k v Hv. rewrite <- Hsnd, <- Hp.
    apply list_elem_of_fmap. by exists (k, v). }
  apply leb_of_not_ltb; [| |done].
  - eapply Hnum; [|exact Hkx]. eapply Hin, list_elem_of_lookup_2, Hi.
  - eapply Hnum; [|exact Hky]. eapply Hin, list_elem_of_lookup_2, Hj.
Qed.

Lemma top_words_descending_witness :
  let wm := [[0.5; 1.0]; [2.0; 0.0]; [0.5; 3.0]]%float in
  let ws := [ustr "deal"; ustr "trump"; ustr "vote"] in
  exists kx ky,
    weight wm ws 0 (ustr "trump") = Ok kx /\ weight wm ws 0 (ustr "vote") = Ok ky /\
    PrimFloat.leb ky kx = true.
Proof.
  intros wm ws.
  apply (top_words_descending wm ws 0 [ustr "trump"; ustr "deal"; ustr "vote"] 0 2).
  - vm_compute. reflexivity.
  - intros v kv Hv. unfold ws in Hv. rewrite !elem_of_cons, elem_of_nil in Hv.
    destruct Hv as [->|[->|[->|[]]]]; vm_compute; intros [= <-]; reflexivity.
  - lia.
  - reflexivity.
  - reflexivity.
Defined.

End NmfMore.

(** * The implied-volatility notebook: the root-finder loop *)
Module ImpVolMore.
Import ImpVol.

(** The keys the loop of cell 8 writes. *)
Definition tidy (d : gmap string float) : Prop :=
  forall key, key ∉ ["p"; "k"; "s0"; "t"; "r"]%string -> d !! key = None.

(** The data of point [i]: entry [i] of each of the five arrays. *)
Definition point_of (e : env) (i : nat) : option (gmap string float) :=
  pi ← p e !! i; ki ← k e !! i; si ← s0 e !! i; ti ← t e !! i; ri ← r e !! i;
  Some (<["r" := ri]> (<["t" := ti]> (<["s0" := si]> (<["k" := ki]>
         (<["p" := pi]> ∅))))).

(** What a call of the root finder was given, and whether the loop counts
    its answer as a failure. *)
Definition root_data (ev : event ext) : option (gmap string float) :=
  match ev_call ev with
  | ContfnCntin _ d _ _ _ => Some d
  | _ => None
  end.

Definition failed (rs : result float) : bool :=
  match rs with
  | Ok sg => PrimFloat.ltb sg 0
  | Raise _ => true
  end.

Definition root_failed (ev : event ext) : bool :=
  match ev with
  | Event _ c rs =>
      match c in ext T return result T -> bool with
      | ContfnCntin _ _ _ _ _ => failed
      | _ => fun _ => false
      end rs
  end.

Definition is_clock (ev : event ext) : bool :=
  match ev_call ev with
  | PerfCounter => true
  | _ => false
  end.

(** The inputs of the notebook are the same in both states; the inputs and
    what has been printed are. *)
Definition same_data (e e' : env) : Prop :=
  n e' = n e /\ p e' = p e /\ k e' = k e /\ s0 e' = s0 e /\ t e' = t e /\
  r e' = r e.

Definition same_inputs (e e' : env) : Prop :=
  same_data e e' /\ stdout e' = stdout e.

Lemma tidy_overwrite d pi ki si ti ri :
  tidy d ->
  <["r" := ri]> (<["t" := ti]> (<["s0" := si]> (<["k" := ki]> (<["p" := pi]> d))))
  = <["r" := ri]> (<["t" := ti]> (<["s0" := si]> (<["k" := ki]> (<["p" := pi]> ∅)))).
Proof.
  intros Hd. apply map_eq. intros key.
  destruct (decide (key = "r"%string)) as [->|Hr]; [by rewrite !lookup_insert_eq|].
  rewrite !(lookup_insert_ne _ "r"%string) by done.
  destruct (decide (key = "t"%string)) as [->|Ht]; [by rewrite !lookup_insert_eq|].
  rewrite !(lookup_insert_ne _ "t"%string) by done.
  destruct (decide (key = "s0"%string)) as [->|Hs]; [by rewrite !lookup_insert_eq|].
  rewrite !(lookup_insert_ne _ "s0"%string) by done.
  destruct (decide (key = "k"%string)) as [->|Hk]; [by rewrite !lookup_insert_eq|].
  rewrite !(lookup_insert_ne _ "k"%string) by done.
  destruct (decide (key = "p"%string)) as [->|Hp]; [by rewrite !lookup_insert_eq|].
  rewrite !(lookup_insert_ne _ "p"%string) by done.
  rewrite lookup_empty. apply Hd. rewrite !elem_of_cons, elem_of_nil.
  intros [?|[?|[?|[?|[?|[]]]]]]; done.
Qed.

Lemma tidy_point e i d : point_of e i = Some d -> tidy d.
Proof.
  unfold point_of. intros H.
  destruct (p e !! i), (k e !! i), (s0 e !! i), (t e !! i), (r e !! i);
    simpl in H; try done. injection H as <-.
  intros key Hkey. rewrite !elem_of_cons, elem_of_nil in Hkey.
  rewrite !lookup_insert_ne by (intros <-; tauto). done.
Qed.

Ltac run_done :=
  eexists; split; [reflexivity|]; unfold same_inputs, same_data; cbn -[insert];
  split_and!.

(** One pass of the loop. *)
Lemma root_find_run {W} (hd : handler ext W) i e wd :
  tidy (data e) ->
  match point_of e i with
  | Some d =>
      let c := ContfnCntin 0.15 d 1.0e-14 0.0 500 in
      exists e',
        run hd (root_find i e) wd
        = ((Ok tt, e'), [Event _ c (hd _ c wd).1], (hd _ c wd).2) /\
        data e' = d /\
        errorcount e' = errorcount e + (if failed (hd _ c wd).1 then 1 else 0) /\
        same_inputs e e'
  | None =>
      exists e',
        run hd (root_find i e) wd = ((Raise IndexError, e'), [], wd) /\
        errorcount e' = errorcount e /\ same_inputs e e'
  end.
Proof.
  intros Hd. destruct e as [n0 st0 p0 k0 s00 t0 r0 d0 ec0 tic0 toc0 sg0 sgs0 iv0 out0].
  simpl in Hd.
  unfold root_find, point_of, try_except, bind, get, lift, modify, call, ret, index.
  cbn -[insert].
  destruct (p0 !! i) as [pi|]; cbn -[insert]; [|run_done; done].
  destruct (k0 !! i) as [ki|]; cbn -[insert]; [|run_done; done].
  destruct (s00 !! i) as [si|]; cbn -[insert]; [|run_done; done].
  destruct (t0 !! i) as [ti|]; cbn -[insert]; [|run_done; done].
  destruct (r0 !! i) as [ri|]; cbn -[insert]; [|run_done; done].
  rewrite (tidy_overwrite d0 pi ki si ti ri Hd).
  destruct (hd _ _ wd) as [[sg|x] w1]; cbn -[insert].
  - destruct (PrimFloat.ltb sg 0) eqn:Hlt; cbn -[insert]; run_done;
      rewrite ?Hlt; first [done|lia].
  - run_done; done.
Qed.

Lemma omap_cons {A B} (f : A -> option B) (x : A) (l : list A) :
  omap f (x :: l) = match f x with Some y => y :: omap f l | None => omap f l end.
Proof. done. Qed.

(** The number of complete data points. *)
Definition points (e : env) : nat :=
  Nat.min (length (p e)) (Nat.min (length (k e)) (Nat.min (length (s0 e))
    (Nat.min (length (t e)) (length (r e))))).

Lemma point_of_Some e i : is_Some (point_of e i) <-> (i < points e)%nat.
Proof.
  unfold point_of, points. split.
  - intros [d Hd].
    destruct (p e !! i) eqn:Hp; [|done]. destruct (k e !! i) eqn:Hk; [|done].
    destruct (s0 e !! i) eqn:Hs; [|done]. destruct (t e !! i) eqn:Ht; [|done].
    destruct (r e !! i) eqn:Hr; [|done].
    apply lookup_lt_Some in Hp, Hk, Hs, Ht, Hr. lia.
  - intros Hi.
    destruct (lookup_lt_is_Some_2 (p e) i) as [? ->]; [lia|].
    destruct (lookup_lt_is_Some_2 (k e) i) as [? ->]; [lia|].
    destruct (lookup_lt_is_Some_2 (s0 e) i) as [? ->]; [lia|].
    destruct (lookup_lt_is_Some_2 (t e) i) as [? ->]; [lia|].
    destruct (lookup_lt_is_Some_2 (r e) i) as [? ->]; [lia|]. by eexists.
Qed.

Lemma point_of_same e e' i : same_data e e' -> point_of e' i = point_of e i.
Proof. intros (_ & Hp & Hk & Hs & Ht & Hr). unfold point_of. by rewrite Hp, Hk, Hs, Ht, Hr. Qed.

Lemma points_ext e e' (l : list nat) :
  same_data e e' -> omap (point_of e') l = omap (point_of e) l.
Proof.
  intros Hsame. induction l as [|i l IH]; [done|].
  rewrite !omap_cons, (point_of_same e e' i Hsame), IH. done.
Qed.

Lemma points_same e e' : same_data e e' -> points e' = points e.
Proof. intros (_ & Hp & Hk & Hs & Ht & Hr). unfold points. by rewrite Hp, Hk, Hs, Ht, Hr. Qed.

Lemma same_inputs_trans e1 e2 e3 :
  same_inputs e1 e2 -> same_inputs e2 e3 -> same_inputs e1 e3.
Proof.
  unfold same_inputs, same_data.
  intros [(?&?&?&?&?&?) ?] [(?&?&?&?&?&?) ?]. split_and!; congruence.
Qed.

Lemma no_point_later e a len :
  point_of e a = None -> omap (point_of e) (seq a len) = [].
Proof.
  intros Ha. revert a Ha. induction len as [|len IH]; intros a Ha; [done|].
  cbn [seq]. rewrite omap_cons, Ha. apply IH.
  destruct (point_of e (S a)) eqn:Hs; [|done].
  assert (is_Some (point_of e (S a))) as Hlt%point_of_Some by by eexists.
  assert (is_Some (point_of e a)) as [? Hsome]; [apply point_of_Some; lia|congruence].
Qed.

Lemma length_points e a len :
  length (omap (point_of e) (seq a len)) = (len `min` (points e - a))%nat.
Proof.
  revert a. induction len as [|len IH]; intros a; [done|].
  cbn [seq]. rewrite omap_cons. destruct (point_of e a) eqn:Ha.
  - assert (is_Some (point_of e a)) as Hlt%point_of_Some by by eexists.
    cbn [length]. rewrite IH. lia.
  - rewrite no_point_later.
    + assert (¬ (a < points e)%nat); [|cbn [length]; lia].
      intros [? Hsome]%point_of_Some. congruence.
    + destruct (point_of e (S a)) eqn:Hs; [|done].
      assert (is_Some (point_of e (S a))) as Hlt%point_of_Some by by eexists.
      assert (is_Some (point_of e a)) as [? Hsome]; [apply point_of_Some; lia|congruence].
Qed.

(** The loop of cell 8 over the points [a], ..., [a + len - 1]. *)
Lemma loop_run {W} (hd : handler ext W) len a e wd :
  tidy (data e) ->
  let out := run hd (for_each (seq a len) root_find e) wd in
  omap root_data out.1.2 = omap (point_of e) (seq a len) /\
  length out.1.2 = length (omap (point_of e) (seq a len)) /\
  errorcount out.1.1.2
  = errorcount e + Z.of_nat (length (filter (fun ev => root_failed ev) out.1.2)) /\
  same_inputs e out.1.1.2 /\
  out.1.1.1 = (if decide (length (omap (point_of e) (seq a len)) = len)
               then Ok tt else Raise IndexError) /\
  Forall (fun ev => is_Some (root_data ev)) out.1.2.
Proof.
  revert a e wd. induction len as [|len IH]; intros a e wd Hd.
  - simpl. unfold same_inputs, same_data. split_and!; first [done|lia].
  - cbn [seq for_each]. cbv zeta. rewrite run_bind.
    pose proof (root_find_run hd a e wd Hd) as Hstep.
    pose proof (length_points e (S a) len) as Hlen.
    rewrite (omap_cons (point_of e)).
    destruct (point_of e a) as [d|] eqn:Ha.
    + cbv zeta in Hstep. destruct Hstep as (e1 & -> & Hdata & Herr & Hsame).
      cbn [fst snd].
      destruct (IH (S a) e1 (hd _ (ContfnCntin 0.15 d 1.0e-14 0.0 500) wd).2)
        as (Hpts & Hn & Hcount & Hsame' & Hres & Hall).
      { rewrite Hdata. by eapply tidy_point. }
      rewrite !(points_ext e e1 _ (proj1 Hsame)) in Hpts, Hn, Hres.
      destruct (run hd (for_each (seq (S a) len) root_find e1) _) as [[[r2 e2] tr2] w2].
      cbn [fst snd app] in *.
      split_and!.
      * rewrite omap_cons. unfold root_data at 1. cbn [ev_call]. by rewrite Hpts.
      * cbn [length]. by rewrite Hn.
      * rewrite Hcount, Herr, filter_cons.
        cbn [root_failed]. destruct (failed _); simpl; lia.
      * by eapply same_inputs_trans.
      * rewrite Hres. cbn [length]. repeat case_decide; first [done|lia].
      * constructor; [by eexists|done].
    + destruct Hstep as (e1 & -> & Herr & Hsame). cbn [fst snd].
      rewrite no_point_later.
      2: { destruct (point_of e (S a)) eqn:Hs; [|done].
           assert (is_Some (point_of e (S a))) as Hlt%point_of_Some by by eexists.
           assert (is_Some (point_of e a)) as [? Hsome];
             [apply point_of_Some; lia|congruence]. }
      split_and!; try done. rewrite Herr. simpl. lia.
Qed.

(** The array a call of [dist_uniform] returned, and the arguments of a call
    of [opt_imp_vol]. *)
Definition uniform (ev : event ext) : option (list float) :=
  match ev with
  | Event _ c rs =>
      match c in ext T return result T -> option (list float) with
      | DistUniform _ _ _ _ =>
          fun rs => match rs with Ok v => Some v | Raise _ => None end
      | _ => fun _ => None
      end rs
  end.

Definition imp_vol_args (ev : event ext)
  : option (list float * list float * list float * list float * list float * Z) :=
  match ev_call ev with
  | OptImpVol _ prices strikes spots times rates mode =>
      Some (prices, strikes, spots, times, rates, mode)
  | _ => None
  end.

Lemma only_root_calls (tr : list (event ext)) :
  Forall (fun ev => is_Some (root_data ev)) tr ->
  omap uniform tr = [] /\ omap imp_vol_args tr = [].
Proof.
  induction 1 as [|[X c rs] tr [d Hd] _ [IH1 IH2]]; [done|].
  rewrite !omap_cons, IH1, IH2. unfold root_data, imp_vol_args in *.
  by destruct c.
Qed.

Lemma only_clock_calls (tl : list (event ext)) :
  Forall (fun ev => is_clock ev = true) tl ->
  omap uniform tl = [] /\ omap imp_vol_args tl = [] /\ omap root_data tl = [] /\
  filter (fun ev => root_failed ev) tl = [].
Proof.
  induction 1 as [|[X c rs] tl Hc _ (IH1 & IH2 & IH3 & IH4)]; [done|].
  rewrite !omap_cons, filter_cons, IH1, IH2, IH3, IH4.
  unfold is_clock, root_data, imp_vol_args in *.
  destruct c; try done.
Qed.

(** Cell 8 around its loop, when the first clock reading succeeds. *)
Lemma cell_8_around {W} (hd : handler ext W) e wd v :
  (hd _ PerfCounter wd).1 = Ok v ->
  let e1 := set_tic v (set_errorcount 0 (set_data ∅ e)) in
  let lp := run hd (for_each (seq 0 (Z.to_nat (n e))) root_find e1)
              (hd _ PerfCounter wd).2 in
  let out := run hd (cell_8 e) wd in
  (exists tl, out.1.2 = Event _ PerfCounter (Ok v) :: lp.1.2 ++ tl /\
              Forall (fun ev => is_clock ev = true) tl) /\
  (forall x, lp.1.1.1 = Raise x ->
     out.1.1.1 = Raise x /\ stdout out.1.1.2 = stdout lp.1.1.2) /\
  (forall u, out.1.1.1 = Ok u ->
     lp.1.1.1 = Ok tt /\ errorcount out.1.1.2 = errorcount lp.1.1.2 /\
     same_data lp.1.1.2 out.1.1.2 /\
     last (stdout out.1.1.2)
     = Some (PFormat "    There were {} failures" (PInt (errorcount lp.1.1.2)))).
Proof.
  intros Hv. destruct e as [n0 st0 p0 k0 s00 t0 r0 d0 ec0 tic0 toc0 sg0 sgs0 iv0 out0].
  unfold cell_8. cbv zeta.
  erewrite bind_pure by reflexivity. erewrite bind_pure by reflexivity.
  unfold set_data, set_errorcount. cbn [n statecomm p k s0 t r data errorcount tic toc
    sigma sigmas ivalid stdout].
  rewrite run_bind. cbn [call run].
  destruct (hd _ PerfCounter wd) as [r1 w1]. cbn [fst snd] in *. subst r1.
  erewrite bind_pure by reflexivity. erewrite bind_pure by reflexivity.
  unfold set_tic. cbn [n statecomm p k s0 t r data errorcount tic toc
    sigma sigmas ivalid stdout].
  rewrite run_bind.
  destruct (run hd (for_each _ root_find _) w1) as [[[rl el] trl] wl].
  cbn [fst snd]. destruct rl as [[]|x].
  - rewrite run_bind. cbn [call run].
    destruct (hd _ PerfCounter wl) as [[v2|x2] w2]; cbn [fst snd].
    + destruct el. simpl. split_and!.
      * eexists [_]. split; [done|]. by repeat constructor.
      * done.
      * intros _ _. split_and!; [done..|]. by rewrite !last_snoc.
    + split_and!.
      * eexists [_]. split; [done|]. by repeat constructor.
      * done.
      * done.
  - split_and!.
    + exists []. by rewrite !app_nil_r.
    + by intros ? [= ->].
    + done.
Qed.

(** X9: the [i]-th call of the root finder is given, as [data], exactly the
    [i]-th entries of [p], [k], [s0], [t] and [r] under their five keys
    (nothing is left over from the point before), for as many points as the
    loop reaches. *)
Theorem root_finder_points {W} (hd : handler ext W) e wd (v : float) :
  (hd _ PerfCounter wd).1 = Ok v ->
  omap root_data (run hd (cell_8 e) wd).1.2
  = omap (point_of e) (seq 0 (Z.to_nat (n e))).
Proof.
  intros Hv. destruct (cell_8_around hd e wd v Hv) as ((tl & -> & Htl) & _ & _).
  destruct (loop_run hd (Z.to_nat (n e)) 0
              (set_tic v (set_errorcount 0 (set_data ∅ e))) (hd _ PerfCounter wd).2)
    as (Hpts & _).
  { intros key _. apply lookup_empty. }
  rewrite omap_cons. unfold root_data at 1. cbn [ev_call].
  rewrite omap_app, Hpts.
  destruct (only_clock_calls tl Htl) as (_ & _ & -> & _).
  rewrite app_nil_r. apply points_ext. by destruct e.
Qed.

(** The notebook's inputs with two data points. *)
Definition two_points (m : Z) : env :=
  set_n m (set_p [4.5; 4.6]%float (set_k [271.7; 271.8]%float
    (set_s0 [260.0; 261.0]%float (set_t [0.0165; 0.0166]%float
      (set_r [0.0175; 0.0176]%float env0))))).

Lemma root_finder_points_witness :
  let tr := (run Notebooks.steady (cell_8 (two_points 2)) 0%nat).1.2 in
  omap root_data tr = omap (point_of (two_points 2)) (seq 0 2) /\
  omap root_data tr
  = [<["r" := 0.0175%float]> (<["t" := 0.0165%float]> (<["s0" := 260.0%float]>
       (<["k" := 271.7%float]> (<["p" := 4.5%float]> ∅))));
     <["r" := 0.0176%float]> (<["t" := 0.0166%float]> (<["s0" := 261.0%float]>
       (<["k" := 271.8%float]> (<["p" := 4.6%float]> ∅))))].
Proof.
  intros tr.
  assert (omap root_data tr = omap (point_of (two_points 2)) (seq 0 2)) as Heq.
  { apply (root_finder_points Notebooks.steady (two_points 2) 0%nat 0%float).
    reflexivity. }
  split; [exact Heq|]. rewrite Heq. vm_compute. reflexivity.
Defined.

Lemma cell_8_first_clock {W} (hd : handler ext W) e wd u :
  (run hd (cell_8 e) wd).1.1.1 = Ok u -> exists v, (hd _ PerfCounter wd).1 = Ok v.
Proof.
  unfold cell_8.
  erewrite bind_pure by reflexivity. erewrite bind_pure by reflexivity.
  rewrite run_bind. cbn [call run].
  destruct (hd _ PerfCounter wd) as [[v|x] w1]; cbn [fst snd]; [by eexists|done].
Qed.

Lemma loop_start e v : tidy (data (set_tic v (set_errorcount 0 (set_data ∅ e)))).
Proof. intros key _. apply lookup_empty. Qed.

Lemma loop_inputs e v : same_inputs e (set_tic v (set_errorcount 0 (set_data ∅ e))).
Proof. by destruct e. Qed.

(** X10: after a normal run of cell 8, [errorcount] is the number of calls
    of the root finder that raised or returned a negative value (a NaN is
    not counted); it lies between 0 and the number of points, every point got
    exactly one call, and it is the number printed last. *)
Theorem failures_counted {W} (hd : handler ext W) e wd e' tr wd' :
  run hd (cell_8 e) wd = ((Ok tt, e'), tr, wd') ->
  errorcount e' = Z.of_nat (length (filter (fun ev => root_failed ev) tr)) /\
  0 <= errorcount e' <= Z.max 0 (n e) /\
  length (omap root_data tr) = Z.to_nat (n e) /\
  (Z.to_nat (n e) <= points e)%nat /\
  last (stdout e')
  = Some (PFormat "    There were {} failures" (PInt (errorcount e'))).
Proof.
  intros Hrun.
  destruct (cell_8_first_clock hd e wd tt) as [v Hv]; [by rewrite Hrun|].
  destruct (cell_8_around hd e wd v Hv) as ((tl & Htr & Htl) & _ & Hok).
  destruct (loop_run hd (Z.to_nat (n e)) 0
              (set_tic v (set_errorcount 0 (set_data ∅ e))) (hd _ PerfCounter wd).2
              (loop_start e v))
    as (Hpts & Hn & Hcount & Hsame & Hres & _).
  rewrite Hrun in Htr, Hok. cbn [fst snd] in Htr, Hok.
  destruct (Hok tt eq_refl) as (Hlp & Herr & _ & Hlast). clear Hok.
  rewrite Hlp in Hres.
  pose proof (length_points (set_tic v (set_errorcount 0 (set_data ∅ e))) 0
                (Z.to_nat (n e))) as Hlen.
  rewrite (points_same _ _ (proj1 (loop_inputs e v))) in Hlen.
  case_decide as Hall; [|done]. clear Hres.
  destruct (only_clock_calls tl Htl) as (_ & _ & Hd & Hf).
  assert (filter (fun ev => root_failed ev) tr
          = filter (fun ev => root_failed ev)
              (run hd (for_each (seq 0 (Z.to_nat (n e))) root_find
                         (set_tic v (set_errorcount 0 (set_data ∅ e))))
                 (hd _ PerfCounter wd).2).1.2) as Hfilter.
  { rewrite Htr, filter_cons, filter_app, Hf, app_nil_r.
    rewrite decide_False by (by intros []). done. }
  pose proof (length_filter (fun ev : event ext => root_failed ev)
                (run hd (for_each (seq 0 (Z.to_nat (n e))) root_find
                         (set_tic v (set_errorcount 0 (set_data ∅ e))))
                 (hd _ PerfCounter wd).2).1.2) as Hle.
  assert (errorcount (set_tic v (set_errorcount 0 (set_data ∅ e))) = 0) as Hzero
    by by destruct e.
  split_and!.
  - rewrite Herr, Hcount, Hfilter, Hzero. lia.
  - rewrite Herr, Hcount, Hzero. lia.
  - rewrite Herr, Hcount, Hzero. lia.
  - rewrite Htr, omap_cons, omap_app, Hd, app_nil_r. cbn [root_data ev_call].
    rewrite Hpts. done.
  - lia.
  - by rewrite Herr.
Qed.

Lemma failures_counted_witness :
  let out := run ImpVolFacts.failing (cell_8 (two_points 2)) 0%nat in
  errorcount out.1.1.2 = 2 /\
  last (stdout out.1.1.2) = Some (PFormat "    There were {} failures" (PInt 2)).
Proof.
  intros out.
  destruct (failures_counted ImpVolFacts.failing (two_points 2) 0%nat
              out.1.1.2 out.1.2 out.2) as (H1 & _ & _ & _ & H2).
  { vm_compute. reflexivity. }
  split.
  - rewrite H1. vm_compute. reflexivity.
  - rewrite H2, H1. vm_compute. reflexivity.
Defined.

(** X11: when one of [p], [k], [s0], [t], [r] has fewer than [n] entries,
    the loop of cell 8 stops at the first missing entry with an
    [IndexError]: the root finder has been called once for each complete
    point, and nothing is printed. *)
Theorem short_arrays_stop {W} (hd : handler ext W) e wd (v : float) :
  (hd _ PerfCounter wd).1 = Ok v ->
  (points e < Z.to_nat (n e))%nat ->
  let out := run hd (cell_8 e) wd in
  out.1.1.1 = Raise IndexError /\
  length (omap root_data out.1.2) = points e /\
  stdout out.1.1.2 = stdout e.
Proof.
  intros Hv Hshort out.
  destruct (cell_8_around hd e wd v Hv) as ((tl & Htr & Htl) & Hraise & _).
  destruct (loop_run hd (Z.to_nat (n e)) 0
              (set_tic v (set_errorcount 0 (set_data ∅ e))) (hd _ PerfCounter wd).2
              (loop_start e v))
    as (Hpts & Hn & Hcount & Hsame & Hres & _).
  pose proof (length_points (set_tic v (set_errorcount 0 (set_data ∅ e))) 0
                (Z.to_nat (n e))) as Hlen.
  rewrite (points_same _ _ (proj1 (loop_inputs e v))) in Hlen.
  rewrite decide_False in Hres by lia.
  destruct (Hraise _ Hres) as [Hout Hstd].
  destruct (only_clock_calls tl Htl) as (_ & _ & Hd & _).
  subst out. split_and!.
  - done.
  - rewrite Htr, omap_cons, omap_app, Hd, app_nil_r. cbn [root_data ev_call].
    rewrite Hpts. lia.
  - rewrite Hstd. destruct Hsame as [_ ->]. by destruct e.
Qed.

Lemma short_arrays_stop_witness :
  let out := run Notebooks.steady (cell_8 (two_points 5)) 0%nat in
  out.1.1.1 = Raise IndexError /\
  length (omap root_data out.1.2) = points (two_points 5) /\
  stdout out.1.1.2 = stdout (two_points 5).
Proof.
  apply (short_arrays_stop Notebooks.steady (two_points 5) 0%nat 0%float).
  - reflexivity.
  - vm_compute. lia.
Defined.

(** X12: a key missing from [data] among ['k'], ['s0'], ['t'] and ['r'] is
    hidden by the bare [except] of [black_scholes]: the pricing routine is
    not called and the result is 0 minus the target price, as if the routine
    had failed. *)
Theorem black_scholes_missing_key {S W} (hd : handler ext W) (st : S) (wd : W)
    (sigma : float) (data : gmap string float) (dp : float) :
  data !! "k"%string = None \/ data !! "s0"%string = None \/
  data !! "t"%string = None \/ data !! "r"%string = None ->
  data !! "p"%string = Some dp ->
  run hd (black_scholes sigma data st) wd = ((Ok (0 - dp)%float, st), [], wd).
Proof.
  intros Hmiss Hp.
  unfold black_scholes, try_except, bind, lift, call, ret, item.
  rewrite Hp.
  destruct (data !! "k"%string) as [dk|]; simpl; [|done].
  destruct (data !! "s0"%string) as [ds0|]; simpl; [|done].
  destruct (data !! "t"%string) as [dt|]; simpl; [|done].
  destruct (data !! "r"%string) as [dr|]; simpl; [|done].
  by destruct Hmiss as [|[|[|]]].
Qed.

Lemma black_scholes_missing_key_witness :
  run Notebooks.steady
    (black_scholes (S := unit) 0.15 (<["p" := 4.5%float]> ∅) tt) 0%nat
  = ((Ok (0 - 4.5)%float, tt), [], 0%nat).
Proof.
  apply (black_scholes_missing_key Notebooks.steady tt 0%nat 0.15
           (<["p" := 4.5%float]> ∅) 4.5).
  - left. reflexivity.
  - reflexivity.
Defined.

(** ** The same data for every method *)
Ltac get_inv :=
  repeat match goal with
         | Hget : Ok _ = Ok ?v |- _ => is_var v; injection Hget as <-
         end.

Lemma imp_vol_cell_args {W} (hd : handler ext W) mode title e wd e' tr wd' :
  run hd (imp_vol_cell mode title e) wd = ((Ok tt, e'), tr, wd') ->
  same_data e e' /\
  omap uniform tr = [] /\
  omap imp_vol_args tr = [(p e, k e, s0 e, t e, r e, mode)] /\
  omap root_data tr = [].
Proof.
  destruct e. unfold imp_vol_cell, print. intros H. run_inv H.
  apply run_modify_ok in H as (-> & -> & ->). get_inv. done.
Qed.

Lemma cell_8_normal {W} (hd : handler ext W) e wd e' tr wd' :
  run hd (cell_8 e) wd = ((Ok tt, e'), tr, wd') ->
  same_data e e' /\
  omap uniform tr = [] /\ omap imp_vol_args tr = [] /\
  omap root_data tr = omap (point_of e) (seq 0 (Z.to_nat (n e))).
Proof.
  intros Hrun.
  destruct (cell_8_first_clock hd e wd tt) as [v Hv]; [by rewrite Hrun|].
  destruct (cell_8_around hd e wd v Hv) as ((tl & Htr & Htl) & _ & Hok).
  destruct (loop_run hd (Z.to_nat (n e)) 0
              (set_tic v (set_errorcount 0 (set_data ∅ e))) (hd _ PerfCounter wd).2
              (loop_start e v))
    as (Hpts & _ & _ & [Hsame _] & _ & Hall).
  rewrite Hrun in Htr, Hok. cbn [fst snd] in Htr, Hok.
  destruct (Hok tt eq_refl) as (_ & _ & Hsame' & _). clear Hok.
  destruct (only_clock_calls tl Htl) as (Hu & Hi & Hd & _).
  destruct (only_root_calls _ Hall) as (Hu' & Hi').
  pose proof (loop_inputs e v) as [Hsame0 Hout0].
  split_and!.
  - unfold same_data in *. destruct_and!. split_and!; congruence.
  - rewrite Htr, omap_cons, omap_app, Hu, Hu'. done.
  - rewrite Htr, omap_cons, omap_app, Hi, Hi'. done.
  - rewrite Htr, omap_cons, omap_app, Hd, Hpts, app_nil_r. cbn [root_data ev_call].
    apply points_ext, (loop_inputs e v).
Qed.

Lemma failures_enough {W} (hd : handler ext W) e wd e' tr wd' :
  run hd (cell_8 e) wd = ((Ok tt, e'), tr, wd') -> (Z.to_nat (n e) <= points e)%nat.
Proof.
  intros Hrun.
  destruct (cell_8_first_clock hd e wd tt) as [v Hv]; [by rewrite Hrun|].
  destruct (cell_8_around hd e wd v Hv) as (_ & _ & Hok).
  destruct (loop_run hd (Z.to_nat (n e)) 0
              (set_tic v (set_errorcount 0 (set_data ∅ e))) (hd _ PerfCounter wd).2
              (loop_start e v))
    as (_ & _ & _ & _ & Hres & _).
  rewrite Hrun in Hok. cbn [fst snd] in Hok.
  destruct (Hok tt eq_refl) as (Hlp & _). rewrite Hlp in Hres.
  pose proof (length_points (set_tic v (set_errorcount 0 (set_data ∅ e))) 0
                (Z.to_nat (n e))) as Hlen.
  rewrite (points_same _ _ (proj1 (loop_inputs e v))) in Hlen.
  case_decide; [lia|done].
Qed.

(** X13: in a normal run of cells 8 to 14 the three calls of [opt_imp_vol]
    (modes 2, 1 and 0, in this order) are given the arrays [p], [k], [s0],
    [t] and [r] as they were before cell 8, and the root finder was called
    once for each of the [n] points of the same arrays; no cell changes the
    arrays or draws new random numbers: all four methods are compared on the
    same data. *)
Theorem methods_share_data {W} (hd : handler ext W) e wd e' tr wd' :
  run hd ((cell_8;;; cell_10;;; cell_12;;; cell_14) e) wd = ((Ok tt, e'), tr, wd') ->
  omap imp_vol_args tr
  = (fun mode => (p e, k e, s0 e, t e, r e, mode)) <$> [2; 1; 0] /\
  omap root_data tr = omap (point_of e) (seq 0 (Z.to_nat (n e))) /\
  length (omap root_data tr) = Z.to_nat (n e) /\
  omap uniform tr = [] /\
  same_data e e'.
Proof.
  unfold cell_10, cell_12, cell_14. intros H.
  apply run_bind_ok in H as ([] & e8 & tr8 & w8 & tr8' & H8 & H & ->).
  apply run_bind_ok in H as ([] & e10 & tr10 & w10 & tr10' & H10 & H & ->).
  apply run_bind_ok in H as ([] & e12 & tr12 & w12 & tr12' & H12 & H14 & ->).
  pose proof (length_points e 0 (Z.to_nat (n e))) as Hlen.
  pose proof (failures_enough hd e wd e8 tr8 w8 H8) as Henough.
  apply cell_8_normal in H8 as (Hs8 & Hu8 & Hi8 & Hd8).
  apply imp_vol_cell_args in H10 as (Hs10 & Hu10 & Hi10 & Hd10).
  apply imp_vol_cell_args in H12 as (Hs12 & Hu12 & Hi12 & Hd12).
  apply imp_vol_cell_args in H14 as (Hs14 & Hu14 & Hi14 & Hd14).
  rewrite !omap_app, Hu8, Hu10, Hu12, Hu14, Hi8, Hi10, Hi12, Hi14,
    Hd8, Hd10, Hd12, Hd14, !app_nil_r, Hlen. cbn [app].
  unfold same_data in *. destruct_and!. split_and!; try congruence.
  - cbn [fmap list_fmap]. congruence.
  - lia.
Qed.

Lemma methods_share_data_witness :
  let out := run Notebooks.steady
               ((cell_8;;; cell_10;;; cell_12;;; cell_14) (two_points 2)) 0%nat in
  omap imp_vol_args out.1.2
  = (fun mode => ([4.5; 4.6], [271.7; 271.8], [260.0; 261.0], [0.0165; 0.0166],
                  [0.0175; 0.0176], mode)%float) <$> [2; 1; 0] /\
  length (omap root_data out.1.2) = 2%nat.
Proof.
  intros out.
  destruct (methods_share_data Notebooks.steady (two_points 2) 0%nat
              out.1.1.2 out.1.2 out.2) as (H1 & _ & H2 & _).
  { vm_compute. reflexivity. }
  split; [exact H1|exact H2].
Defined.

End ImpVolMore.

(** * The SOCP notebook: the problem handle *)
Module SocpFacts.
Import Socp.

(** The handle a call is given, the handle [handle_init] returned, the I/O
    manager made and the one the solver is given, and the solution. *)
Definition handle_of (ev : event ext) : option handle_t :=
  match ev_call ev with
  | HandleInit _ => None
  | HandleSetLinobj h _ => Some h
  | HandleSetSimplebounds h _ _ => Some h
  | HandleSetLinconstr h _ _ _ _ _ => Some h
  | HandleSetGroup h _ _ _ => Some h
  | HandleOptSet h _ => Some h
  | FileObjManager _ => None
  | HandleSolveSocpIpm h _ => Some h
  | HandleFree h => Some h
  end.

Definition created (ev : event ext) : option (Py.result handle_t) :=
  match ev with
  | Event _ c rs =>
      match c in ext T return Py.result T -> option (Py.result handle_t) with
      | HandleInit _ => fun rs => Some rs
      | _ => fun _ => None
      end rs
  end.

Definition io_made (ev : event ext) : option iomanager :=
  match ev with
  | Event _ c rs =>
      match c in ext T return Py.result T -> option iomanager with
      | FileObjManager _ => fun rs => match rs with Ok io => Some io | Raise _ => None end
      | _ => fun _ => None
      end rs
  end.

Definition io_used (ev : event ext) : option iomanager :=
  match ev_call ev with
  | HandleSolveSocpIpm _ io => Some io
  | _ => None
  end.

Definition solved (ev : event ext) : option solution :=
  match ev with
  | Event _ c rs =>
      match c in ext T return Py.result T -> option solution with
      | HandleSolveSocpIpm _ _ => fun rs => match rs with Ok res => Some res | Raise _ => None end
      | _ => fun _ => None
      end rs
  end.

Definition is_free X (c : ext X) : bool :=
  match c with HandleFree _ => true | _ => false end.

(** Every answer of the library, one call at a time. *)
Ltac answers :=
  repeat match goal with
         | |- context [?hd ?X ?c ?w] =>
             match type of hd with handler ext _ => idtac end;
             destruct (hd X c w) as [[?|?] ?];
             unfold bind, get, modify, call, lift, ret, raise; simpl
         | |- context [index ?l ?i] =>
             unfold index; destruct (l !! i); simpl
         end.

(** X14: in every run of the SOCP notebook, whatever the library answers,
    the first call is [handle_init(nvar=3)]; if it fails nothing else is
    called, and otherwise every later call that takes a handle is given the
    handle it returned, and the solver is given the I/O manager that
    [FileObjManager] returned. *)
Theorem one_handle {W} (hd : handler ext W) e wd :
  let tr : list (event ext) := (run hd (notebook e) wd).1.2 in
  exists rest : list (event ext),
    tr = Event _ (HandleInit 3) (hd _ (HandleInit 3) wd).1 :: rest /\
    omap created rest = [] /\
    match (hd _ (HandleInit 3) wd).1 with
    | Ok h => Forall (fun h' => h' = h) (omap handle_of rest)
    | Raise _ => rest = []
    end /\
    Forall (fun io => omap io_made tr = [io]) (omap io_used tr).
Proof.
  destruct e. unfold notebook, cell_2, cell_4, cell_7, cell_9, cell_11, cell_13,
    cell_15, cell_17, cell_19, print. simpl.
  answers; (eexists; split_and!; [reflexivity|..]); try done; repeat constructor.
Qed.

(** X15: [handle_free] is called at most once, and only as the last call of
    a run.  A run that ends normally ends with a successful [handle_free] of
    the handle [handle_init] returned; a run that stops early (a library
    call raised, or [result.rinfo] was empty) never calls [handle_free], so
    the handle is not destroyed, unless [handle_free] itself is what
    raised. *)
Theorem handle_freed_last {W} (hd : handler ext W) e wd :
  let out := run hd (notebook e) wd in
  let tr : list (event ext) := out.1.2 in
  (Calls.count is_free tr <= 1)%nat /\
  match out.1.1.1 with
  | Ok _ =>
      exists h, head (omap created tr) = Some (Ok h) /\
                last tr = Some (Event _ (HandleFree h) (Ok tt))
  | Raise x =>
      Calls.count is_free tr = 0%nat \/
      exists h, head (omap created tr) = Some (Ok h) /\
                last tr = Some (Event _ (HandleFree h) (Raise x))
  end.
Proof.
  destruct e. unfold notebook, cell_2, cell_4, cell_7, cell_9, cell_11, cell_13,
    cell_15, cell_17, cell_19, print. simpl.
  answers; (split; [vm_compute; lia|]);
    repeat match goal with u : unit |- _ => destruct u end;
    first [ left; vm_compute; reflexivity
          | eexists; split; reflexivity
          | right; eexists; split; reflexivity ].
Qed.

(** A library that solves the problem, and one whose solution has an empty
    [rinfo]. *)
Definition solving (info : list float) : handler ext unit := fun X ev wd =>
  match ev in ext X return Py.result X * unit with
  | HandleInit _ => (Ok 7%N, wd)
  | HandleSetLinobj _ _ => (Ok tt, wd)
  | HandleSetSimplebounds _ _ _ => (Ok tt, wd)
  | HandleSetLinconstr _ _ _ _ _ _ => (Ok 1, wd)
  | HandleSetGroup _ _ _ _ => (Ok 1, wd)
  | HandleOptSet _ _ => (Ok tt, wd)
  | FileObjManager _ => (Ok 9%N, wd)
  | HandleSolveSocpIpm _ _ =>
      (Ok {| x := [-1.26; -0.85; 1.52]%float; rinfo := info |}, wd)
  | HandleFree _ => (Ok tt, wd)
  end.

(** X16: a run of the notebook that ends normally has printed, after what
    was there before, the [x] of the solution the solver returned and the
    first entry of its [rinfo], and nothing else; when the solver's [rinfo] is
    empty the run stops with an [IndexError] before [handle_free]. *)
Theorem solution_shown {W} (hd : handler ext W) e wd :
  let out := run hd (notebook e) wd in
  (out.1.1.1 = Ok tt ->
   exists res v,
     omap solved out.1.2 = [res] /\ rinfo res !! 0%nat = Some v /\
     stdout out.1.1.2 = stdout e ++ [PFloats (x res); PFloat v]) /\
  (forall res, omap solved out.1.2 = [res] -> rinfo res = [] ->
     out.1.1.1 = Raise IndexError /\ Calls.count is_free out.1.2 = 0%nat /\
     stdout out.1.1.2 = stdout e ++ [PFloats (x res)]).
Proof.
  destruct e. unfold notebook, cell_2, cell_4, cell_7, cell_9, cell_11, cell_13,
    cell_15, cell_17, cell_19, print. simpl.
  repeat match goal with
         | |- context [?hd ?X ?c ?w] =>
             match type of hd with handler ext _ => idtac end;
             destruct (hd X c w) as [[?|?] ?];
             unfold bind, get, modify, call, lift, ret, raise; simpl
         | |- context [index ?l ?i] =>
             unfold index; destruct (l !! i) eqn:?; simpl
         end;
    (split; [intros Hok|intros res Hres Hinfo]); try done.
  all: try (injection Hres as <-; simpl in *; subst; simplify_eq).
  all: try (eexists _, _; split_and!; [done..|]; by rewrite <- app_assoc).
  all: try (split_and!; done).
  all: match goal with
       | H : rinfo ?s = [], H2 : rinfo ?s !! _ = Some _ |- _ => by rewrite H in H2
       end.
Qed.

Example solution_demo :
  let good := run (solving [-19.5; 0.0]%float) (notebook env0) tt in
  let bad := run (solving []) (notebook env0) tt in
  good.1.1.1 = Ok tt /\
  stdout good.1.1.2 = [PFloats [-1.26; -0.85; 1.52]%float; PFloat (-19.5)%float] /\
  length good.1.2 = 10%nat /\
  bad.1.1.1 = Raise IndexError /\ length bad.1.2 = 9%nat.
Proof. vm_compute. done. Qed.

End SocpFacts.

(** * The NMF notebook: the article lines (cell 40) *)
Module NmfArticles.
Import Nmf NmfFacts NmfMore.

(** The line of article [i], and the state after printing a line. *)
Definition article (e : env) (i : nat) : result pystr :=
  match category (h e) i with
  | Ok cat => article_line (titles e) i cat
  | Raise err => Raise err
  end.

Definition show (e : env) (st : pystr) : env :=
  set_stdout (stdout e ++ [PStr st]) e.

Definition article_body (il : nat * pystr) : script unit :=
  e <- get;;
  cat <- lift (category (h e) il.1);;
  st <- lift (article_line (titles e) il.1 cat);;
  print (PStr st).

Lemma article_step il e :
  article_body il e
  = Ret (match article e il.1 with
         | Ok st => (Ok tt, show e st)
         | Raise err => (Raise err, e)
         end).
Proof.
  unfold article_body, article, bind, get, lift, print, modify. simpl.
  destruct (category (h e) il.1) as [cat|]; simpl; [|done].
  by destruct (article_line (titles e) il.1 cat).
Qed.

Lemma article_show e st i : article (show e st) i = article e i.
Proof. by destruct e. Qed.

Lemma article_loop {W} (hd : handler ext W) l e wd e' tr wd' :
  run hd (for_each l article_body e) wd = ((Ok tt, e'), tr, wd') ->
  exists lines,
    Forall2 (fun (il : nat * pystr) line => article e il.1 = Ok line) l lines /\
    stdout e' = stdout e ++ (PStr <$> lines) /\
    h e' = h e /\ titles e' = titles e /\ links e' = links e /\ tr = [].
Proof.
  revert e wd tr. induction l as [|il l IH]; intros e wd tr H.
  - simpl in H. injection H as <- <- <-. exists []. rewrite app_nil_r.
    split_and!; [constructor|done..].
  - cbn [for_each] in H.
    apply run_bind_ok in H as ([] & e1 & tr1 & w1 & tr2 & H1 & H & ->).
    rewrite article_step in H1. destruct (article e il.1) as [st|] eqn:Hst; [|done].
    simpl in H1. injection H1 as <- <- <-.
    apply IH in H as (lines & Hall & Hout & Hh & Ht & Hl & ->).
    exists (st :: lines). split_and!.
    + constructor; [done|]. eapply Forall2_impl; [exact Hall|].
      intros il' line Hline. rewrite <- (article_show e st). exact Hline.
    + rewrite Hout. destruct e. simpl. by rewrite <- app_assoc.
    + rewrite Hh. by destruct e.
    + rewrite Ht. by destruct e.
    + rewrite Hl. by destruct e.
    + done.
Qed.

(** The text of a line. *)
Definition label (cat : Z) : pystr :=
  if decide (cat = 0) then ustr " (Trump)" else ustr " (Brexit)".

Lemma article_Ok e i line :
  article e i = Ok line ->
  exists t rest cat,
    titles e !! i = Some (t :: rest) /\ category (h e) i = Ok cat /\
    line = ustr "Article " ++ ljust (quote ++ t ++ quote) 78
           ++ ustr " is in category " ++ str_of_int cat ++ label cat.
Proof.
  unfold article. intros H.
  destruct (category (h e) i) as [cat|] eqn:Hcat; [|done].
  assert (cat = 0 \/ cat = 1) as Hcases.
  { unfold category, category_of in Hcat.
    destruct (entry (h e) 0 i); [|done]. destruct (entry (h e) 1 i); [|done].
    injection Hcat as <-. destruct (PrimFloat.ltb _ _); tauto. }
  unfold article_line, entry, index in H.
  destruct (titles e !! i) as [[|t rest]|]; simpl in H; try done.
  exists t, rest, cat. split_and!; [done..|].
  destruct Hcases as [-> | ->]; simpl in H; by injection H as <-.
Qed.

Definition is_http_read X (c : ext X) : bool :=
  match c with HttpRead _ => true | _ => false end.

Lemma no_body_read tr :
  (Calls.count is_http_read tr <= 0)%nat -> omap body_read tr = [].
Proof.
  induction tr as [|[X c r] tr IH]; [done|].
  rewrite Calls.count_cons. unfold Calls.hit. simpl.
  destruct c; simpl; first [lia|intros; apply IH; lia].
Qed.

Lemma after_matrix_census e :
  Calls.census is_http_read 0 ((cell_27;;; cell_30;;; after_nmf) e).
Proof.
  eapply Calls.census_cast; [repeat Calls.census_step; reflexivity|reflexivity].
Qed.

(** The titles and the links. *)
Definition meta (e : env) : list (list pystr) * list pystr := (titles e, links e).

Ltac preserves_cell :=
  unfold cell_27, cell_30, cell_31, cell_32, cell_34, cell_36, cell_38,
    print, print_f2;
  repeat preserves_step.

Lemma cell_27_meta : preserves meta cell_27.
Proof. preserves_cell. Qed.
Lemma cell_30_meta : preserves meta cell_30.
Proof. preserves_cell. Qed.
Lemma cell_31_meta : preserves (fun e => (meta e, h e)) cell_31.
Proof. preserves_cell. Qed.
Lemma cell_32_meta : preserves (fun e => (meta e, h e)) cell_32.
Proof. preserves_cell. Qed.
Lemma cell_34_meta : preserves (fun e => (meta e, h e)) cell_34.
Proof. preserves_cell. Qed.
Lemma cell_36_meta : preserves (fun e => (meta e, h e)) cell_36.
Proof. preserves_cell. Qed.
Lemma cell_38_meta : preserves (fun e => (meta e, h e)) cell_38.
Proof. preserves_cell. Qed.

Lemma enumerate_lookup {A} (l : list A) i (il : nat * A) :
  enumerate l !! i = Some il -> il.1 = i.
Proof.
  unfold enumerate. intros H. apply lookup_zip_with_Some in H.
  destruct H as (j & y & -> & Hj & _). simpl.
  apply lookup_seq in Hj. lia.
Qed.

Lemma length_enumerate {A} (l : list A) : length (enumerate l) = length l.
Proof. unfold enumerate. rewrite length_zip, length_seq. lia. Qed.



End NmfArticles.

(** * The library calls behind the results *)
Module Results.
Import Calls Notebooks.

(** ** The NMF notebook *)

Lemma no_factors tr :
  (count is_real_nmf tr <= 0)%nat ->
  omap NmfFacts.factors_of tr = [] /\ omap NmfMore.nmf_arg tr = [].
Proof.
  intros Hc. split; [|by apply NmfMore.no_nmf_arg].
  induction tr as [|[X c r] tr IH]; [done|].
  rewrite count_cons in Hc. unfold hit in Hc. simpl in Hc.
  destruct c; simpl in *; first [lia|apply IH; lia].
Qed.

Lemma nmf_factors decode lower {W} (hd : handler Nmf.ext W) e wd e' tr wd' :
  run hd (Nmf.notebook decode lower e) wd = ((Ok tt, e'), tr, wd') ->
  exists wh,
    omap NmfFacts.factors_of tr = [wh] /\
    Nmf.w e' = wh.1 /\ Nmf.h e' = wh.2 /\
    omap NmfMore.nmf_arg tr = [Nmf.a e'].
Proof.
  unfold Nmf.notebook. intros H.
  apply run_bind_ok in H as ([] & e1 & tr1 & w1 & ? & H1 & H & ->).
  apply run_bind_ok in H as ([] & e2 & tr2 & w2 & ? & H2 & H & ->).
  apply run_bind_ok in H as ([] & e3 & tr3 & w3 & tr4 & H3 & H4 & ->).
  destruct (census_run is_real_nmf hd _ _ wd
              (NmfMore.build_matrix_census decode lower e)) as [Hc1 _].
  rewrite H1 in Hc1. apply no_factors in Hc1 as [Hf1 Ha1].
  destruct (census_run is_real_nmf hd _ _ w1 (NmfMore.cell_27_census e1)) as [Hc2 _].
  rewrite H2 in Hc2. apply no_factors in Hc2 as [Hf2 Ha2].
  destruct (census_run is_real_nmf hd _ _ w3 (NmfMore.after_nmf_census e3)) as [Hc4 _].
  rewrite H4 in Hc4. apply no_factors in Hc4 as [Hf4 Ha4].
  destruct (NmfFacts.keeps_after_nmf W hd e3 w3) as [(Ha & Hw & Hh) _].
  rewrite H4 in Ha, Hw, Hh. cbn [fst snd] in *.
  rewrite !omap_app, Hf1, Hf2, Hf4, Ha1, Ha2, Ha4, !app_nil_r. cbn [app].
  rewrite Ha, Hw, Hh. clear -H3.
  unfold Nmf.cell_30 in H3. run_inv H3.
  apply run_modify_ok in H3 as (-> & -> & ->).
  injection Hrun as <-. exists v2. by destruct e2.
Qed.

(** ** The SOCP notebook *)

(** The library function of a call. *)
Definition call_name (ev : event Socp.ext) : string :=
  match ev_call ev with
  | Socp.HandleInit _ => "handle_init"
  | Socp.HandleSetLinobj _ _ => "handle_set_linobj"
  | Socp.HandleSetSimplebounds _ _ _ => "handle_set_simplebounds"
  | Socp.HandleSetLinconstr _ _ _ _ _ _ => "handle_set_linconstr"
  | Socp.HandleSetGroup _ _ _ _ => "handle_set_group"
  | Socp.HandleOptSet _ _ => "handle_opt_set"
  | Socp.FileObjManager _ => "FileObjManager"
  | Socp.HandleSolveSocpIpm _ _ => "handle_solve_socp_ipm"
  | Socp.HandleFree _ => "handle_free"
  end.

Lemma socp_solution {W} (hd : handler Socp.ext W) e wd :
  let r := run hd (Socp.notebook e) wd in
  r.1.1.1 = Ok tt ->
  call_name <$> r.1.2
  = ["handle_init"; "handle_set_linobj"; "handle_set_simplebounds";
     "handle_set_linconstr"; "handle_set_group"; "handle_opt_set";
     "handle_opt_set"; "FileObjManager"; "handle_solve_socp_ipm";
     "handle_free"]%string /\
  exists res v,
    omap SocpFacts.solved r.1.2 = [res] /\
    Socp.result r.1.1.2 = Some res /\
    Socp.rinfo res !! 0%nat = Some v /\
    Socp.stdout r.1.1.2 = Socp.stdout e ++ [PFloats (Socp.x res); PFloat v].
Proof.
  destruct e. unfold Socp.notebook, Socp.cell_2, Socp.cell_4, Socp.cell_7,
    Socp.cell_9, Socp.cell_11, Socp.cell_13, Socp.cell_15, Socp.cell_17,
    Socp.cell_19, Socp.print. simpl.
  repeat match goal with
         | |- context [?hd ?X ?c ?w] =>
             match type of hd with handler Socp.ext _ => idtac end;
             destruct (hd X c w) as [[?|?] ?];
             unfold bind, get, modify, call, lift, ret, raise; simpl
         | |- context [index ?l ?i] =>
             unfold index; destruct (l !! i) eqn:?; simpl
         end;
    intros Hok; try done.
  split; [done|]. eexists _, _. split_and!; [done..|]. by rewrite <- app_assoc.
Qed.

(** ** The implied-volatility notebook *)

(** What a call of [opt_imp_vol] returned. *)
Definition imp_vol_result (ev : event ImpVol.ext) : option (list float * list Z) :=
  match ev with
  | Event _ c rs =>
      match c in ImpVol.ext T return result T -> option (list float * list Z) with
      | ImpVol.OptImpVol _ _ _ _ _ _ _ =>
          fun rs => match rs with Ok si => Some si | Raise _ => None end
      | _ => fun _ => None
      end rs
  end.

Lemma cell_4_arrays {W} (hd : handler ImpVol.ext W) e wd e' tr wd' :
  run hd (ImpVol.cell_4 e) wd = ((Ok tt, e'), tr, wd') ->
  omap ImpVolMore.uniform tr
  = [ImpVol.p e'; ImpVol.k e'; ImpVol.s0 e'; ImpVol.t e'; ImpVol.r e'] /\
  omap ImpVolMore.imp_vol_args tr = [].
Proof.
  destruct e. unfold ImpVol.cell_4. intros H. run_inv H.
  apply run_modify_ok in H as (-> & -> & ->). ImpVolMore.get_inv. done.
Qed.

Lemma imp_vol_cell_result {W} (hd : handler ImpVol.ext W) mode title e wd e' tr wd' :
  run hd (ImpVol.imp_vol_cell mode title e) wd = ((Ok tt, e'), tr, wd') ->
  exists si,
    omap imp_vol_result tr = [si] /\
    ImpVol.sigmas e' = si.1 /\ ImpVol.ivalid e' = si.2.
Proof.
  destruct e. unfold ImpVol.imp_vol_cell, ImpVol.print. intros H. run_inv H.
  apply run_modify_ok in H as (-> & -> & ->). ImpVolMore.get_inv. by eexists.
Qed.

Lemma impvol_results {W} (hd : handler ImpVol.ext W) e wd e' tr wd' :
  run hd (ImpVol.notebook e) wd = ((Ok tt, e'), tr, wd') ->
  omap ImpVolMore.uniform tr
  = [ImpVol.p e'; ImpVol.k e'; ImpVol.s0 e'; ImpVol.t e'; ImpVol.r e'] /\
  omap ImpVolMore.imp_vol_args tr
  = (fun mode => (ImpVol.p e', ImpVol.k e', ImpVol.s0 e', ImpVol.t e',
                  ImpVol.r e', mode)) <$> [2; 1; 0] /\
  exists si,
    last (omap imp_vol_result tr) = Some si /\
    ImpVol.sigmas e' = si.1 /\ ImpVol.ivalid e' = si.2.
Proof.
  unfold ImpVol.notebook, ImpVol.cell_10, ImpVol.cell_12, ImpVol.cell_14. intros H.
  apply run_bind_ok in H as ([] & e4 & tr4 & w4 & ? & H4 & H & ->).
  apply run_bind_ok in H as ([] & e8 & tr8 & w8 & ? & H8 & H & ->).
  apply run_bind_ok in H as ([] & e10 & tr10 & w10 & ? & H10 & H & ->).
  apply run_bind_ok in H as ([] & e12 & tr12 & w12 & tr14 & H12 & H14 & ->).
  apply cell_4_arrays in H4 as (Hu4 & Hi4).
  apply ImpVolMore.cell_8_normal in H8 as (Hs8 & Hu8 & Hi8 & _).
  apply ImpVolMore.imp_vol_cell_args in H10 as (Hs10 & Hu10 & Hi10 & _).
  apply ImpVolMore.imp_vol_cell_args in H12 as (Hs12 & Hu12 & Hi12 & _).
  pose proof (imp_vol_cell_result _ _ _ _ _ _ _ _ H14) as (si & Hr14 & Hsig & Hiv).
  apply ImpVolMore.imp_vol_cell_args in H14 as (Hs14 & Hu14 & Hi14 & _).
  rewrite !omap_app, Hu4, Hu8, Hu10, Hu12, Hu14, Hi4, Hi8, Hi10, Hi12, Hi14, Hr14.
  cbn [app]. unfold ImpVolMore.same_data in *. destruct_and!. split_and!.
  - congruence.
  - cbn [fmap list_fmap]. congruence.
  - exists si. rewrite !app_assoc, last_snoc. done.
Qed.


End Results.
